(** * UniversalRAG: article segmentation and identity normalisation

    A shallow embedding of the text heuristics of [pdf2articles.py],
    [neo4j_fix_superscripts.py] and [neo4j_fix_docids_titles.py]:
    document id and title detection on the first page, the split of a
    document into articles at its "Art. N" headings, the mapping of
    character spans to page ranges, the normalisation of article numbers
    with a fused footnote mark, and the reconciliation of document
    identities.

    Python strings are lists of Unicode code points.  The regular
    expressions of the sources are terms of [regex], run by a backtracking
    interpreter that lists the successes of a pattern in the priority
    order of Python's [re] module. *)

From Stdlib Require Import String Ascii.
From Stdlib Require Import List NArith ZArith Lia Bool Arith Sorted Permutation.
Import ListNotations.

(** ** Text *)

(** A character is a Unicode code point, a string a list of them. *)
Abbreviation char := N (only parsing).
Abbreviation str := (list N) (only parsing).

(** UTF-8 decoding, used to write string literals in the development. *)
Fixpoint utf8_decode (bs : list N) : str :=
  match bs with
  | [] => []
  | b0 :: t0 =>
    if (b0 <? 128)%N then b0 :: utf8_decode t0 else
    match t0 with
    | [] => []
    | b1 :: t1 =>
      if (b0 <? 224)%N then ((b0 - 192) * 64 + (b1 - 128))%N :: utf8_decode t1 else
      match t1 with
      | [] => []
      | b2 :: t2 =>
        if (b0 <? 240)%N
        then ((b0 - 224) * 4096 + (b1 - 128) * 64 + (b2 - 128))%N :: utf8_decode t2
        else
        match t2 with
        | [] => []
        | b3 :: t3 =>
          ((b0 - 240) * 262144 + (b1 - 128) * 4096 + (b2 - 128) * 64 + (b3 - 128))%N
            :: utf8_decode t3
        end
      end
    end
  end.

Definition u (s : string) : str :=
  utf8_decode (map N_of_ascii (list_ascii_of_string s)).

Definition str_eqb (a b : str) : bool :=
  if list_eq_dec N.eq_dec a b then true else false.

(** ** Character classes of CPython 3.11 (Unicode 14.0) *)

Definition in_ranges (t : list (N * N)) (c : char) : bool :=
  existsb (fun r => (fst r <=? c)%N && (c <=? snd r)%N) t.

(** [str.isspace], which is also the class [\s] of a [str] pattern. *)
Definition space_ranges : list (N * N) :=
  [(9, 13); (28, 32); (133, 133); (160, 160); (5760, 5760); (8192, 8202);
   (8232, 8233); (8239, 8239); (8287, 8287); (12288, 12288)]%N.

Definition is_space (c : char) : bool := in_ranges space_ranges c.

(** The line boundaries of [str.splitlines]. *)
Definition linebreak_ranges : list (N * N) :=
  [(10, 13); (28, 30); (133, 133); (8232, 8233)]%N.

Definition is_linebreak (c : char) : bool := in_ranges linebreak_ranges c.

(** General category Nd: the class [\d] of a [str] pattern.  Every range
    starts at a digit zero, so the value of a digit is its offset in the
    range modulo ten. *)
Definition nd_ranges : list (N * N) :=
  [
   (48, 57); (1632, 1641); (1776, 1785); (1984, 1993); (2406, 2415); (2534, 2543);
   (2662, 2671); (2790, 2799); (2918, 2927); (3046, 3055); (3174, 3183); (3302, 3311);
   (3430, 3439); (3558, 3567); (3664, 3673); (3792, 3801); (3872, 3881); (4160, 4169);
   (4240, 4249); (6112, 6121); (6160, 6169); (6470, 6479); (6608, 6617); (6784, 6793);
   (6800, 6809); (6992, 7001); (7088, 7097); (7232, 7241); (7248, 7257); (42528, 42537);
   (43216, 43225); (43264, 43273); (43472, 43481); (43504, 43513); (43600, 43609); (44016, 44025);
   (65296, 65305); (66720, 66729); (68912, 68921); (69734, 69743); (69872, 69881); (69942, 69951);
   (70096, 70105); (70384, 70393); (70736, 70745); (70864, 70873); (71248, 71257); (71360, 71369);
   (71472, 71481); (71904, 71913); (72016, 72025); (72784, 72793); (73040, 73049); (73120, 73129);
   (92768, 92777); (92864, 92873); (93008, 93017); (120782, 120831); (123200, 123209); (123632, 123641);
   (125264, 125273); (130032, 130041)
  ]%N.

Definition is_decimal (c : char) : bool := in_ranges nd_ranges c.

Definition decimal_value (c : char) : N :=
  match find (fun r => (fst r <=? c)%N && (c <=? snd r)%N) nd_ranges with
  | Some r => ((c - fst r) mod 10)%N
  | None => 0%N
  end.

(** The class [\w] of a [str] pattern: [str.isalnum] or the underscore. *)
Definition word_ranges : list (N * N) :=
  [
   (48, 57); (65, 90); (95, 95); (97, 122); (170, 170); (178, 179);
   (181, 181); (185, 186); (188, 190); (192, 214); (216, 246); (248, 705);
   (710, 721); (736, 740); (748, 748); (750, 750); (880, 884); (886, 887);
   (890, 893); (895, 895); (902, 902); (904, 906); (908, 908); (910, 929);
   (931, 1013); (1015, 1153); (1162, 1327); (1329, 1366); (1369, 1369); (1376, 1416);
   (1488, 1514); (1519, 1522); (1568, 1610); (1632, 1641); (1646, 1647); (1649, 1747);
   (1749, 1749); (1765, 1766); (1774, 1788); (1791, 1791); (1808, 1808); (1810, 1839);
   (1869, 1957); (1969, 1969); (1984, 2026); (2036, 2037); (2042, 2042); (2048, 2069);
   (2074, 2074); (2084, 2084); (2088, 2088); (2112, 2136); (2144, 2154); (2160, 2183);
   (2185, 2190); (2208, 2249); (2308, 2361); (2365, 2365); (2384, 2384); (2392, 2401);
   (2406, 2415); (2417, 2432); (2437, 2444); (2447, 2448); (2451, 2472); (2474, 2480);
   (2482, 2482); (2486, 2489); (2493, 2493); (2510, 2510); (2524, 2525); (2527, 2529);
   (2534, 2545); (2548, 2553); (2556, 2556); (2565, 2570); (2575, 2576); (2579, 2600);
   (2602, 2608); (2610, 2611); (2613, 2614); (2616, 2617); (2649, 2652); (2654, 2654);
   (2662, 2671); (2674, 2676); (2693, 2701); (2703, 2705); (2707, 2728); (2730, 2736);
   (2738, 2739); (2741, 2745); (2749, 2749); (2768, 2768); (2784, 2785); (2790, 2799);
   (2809, 2809); (2821, 2828); (2831, 2832); (2835, 2856); (2858, 2864); (2866, 2867);
   (2869, 2873); (2877, 2877); (2908, 2909); (2911, 2913); (2918, 2927); (2929, 2935);
   (2947, 2947); (2949, 2954); (2958, 2960); (2962, 2965); (2969, 2970); (2972, 2972);
   (2974, 2975); (2979, 2980); (2984, 2986); (2990, 3001); (3024, 3024); (3046, 3058);
   (3077, 3084); (3086, 3088); (3090, 3112); (3114, 3129); (3133, 3133); (3160, 3162);
   (3165, 3165); (3168, 3169); (3174, 3183); (3192, 3198); (3200, 3200); (3205, 3212);
   (3214, 3216); (3218, 3240); (3242, 3251); (3253, 3257); (3261, 3261); (3293, 3294);
   (3296, 3297); (3302, 3311); (3313, 3314); (3332, 3340); (3342, 3344); (3346, 3386);
   (3389, 3389); (3406, 3406); (3412, 3414); (3416, 3425); (3430, 3448); (3450, 3455);
   (3461, 3478); (3482, 3505); (3507, 3515); (3517, 3517); (3520, 3526); (3558, 3567);
   (3585, 3632); (3634, 3635); (3648, 3654); (3664, 3673); (3713, 3714); (3716, 3716);
   (3718, 3722); (3724, 3747); (3749, 3749); (3751, 3760); (3762, 3763); (3773, 3773);
   (3776, 3780); (3782, 3782); (3792, 3801); (3804, 3807); (3840, 3840); (3872, 3891);
   (3904, 3911); (3913, 3948); (3976, 3980); (4096, 4138); (4159, 4169); (4176, 4181);
   (4186, 4189); (4193, 4193); (4197, 4198); (4206, 4208); (4213, 4225); (4238, 4238);
   (4240, 4249); (4256, 4293); (4295, 4295); (4301, 4301); (4304, 4346); (4348, 4680);
   (4682, 4685); (4688, 4694); (4696, 4696); (4698, 4701); (4704, 4744); (4746, 4749);
   (4752, 4784); (4786, 4789); (4792, 4798); (4800, 4800); (4802, 4805); (4808, 4822);
   (4824, 4880); (4882, 4885); (4888, 4954); (4969, 4988); (4992, 5007); (5024, 5109);
   (5112, 5117); (5121, 5740); (5743, 5759); (5761, 5786); (5792, 5866); (5870, 5880);
   (5888, 5905); (5919, 5937); (5952, 5969); (5984, 5996); (5998, 6000); (6016, 6067);
   (6103, 6103); (6108, 6108); (6112, 6121); (6128, 6137); (6160, 6169); (6176, 6264);
   (6272, 6276); (6279, 6312); (6314, 6314); (6320, 6389); (6400, 6430); (6470, 6509);
   (6512, 6516); (6528, 6571); (6576, 6601); (6608, 6618); (6656, 6678); (6688, 6740);
   (6784, 6793); (6800, 6809); (6823, 6823); (6917, 6963); (6981, 6988); (6992, 7001);
   (7043, 7072); (7086, 7141); (7168, 7203); (7232, 7241); (7245, 7293); (7296, 7304);
   (7312, 7354); (7357, 7359); (7401, 7404); (7406, 7411); (7413, 7414); (7418, 7418);
   (7424, 7615); (7680, 7957); (7960, 7965); (7968, 8005); (8008, 8013); (8016, 8023);
   (8025, 8025); (8027, 8027); (8029, 8029); (8031, 8061); (8064, 8116); (8118, 8124);
   (8126, 8126); (8130, 8132); (8134, 8140); (8144, 8147); (8150, 8155); (8160, 8172);
   (8178, 8180); (8182, 8188); (8304, 8305); (8308, 8313); (8319, 8329); (8336, 8348);
   (8450, 8450); (8455, 8455); (8458, 8467); (8469, 8469); (8473, 8477); (8484, 8484);
   (8486, 8486); (8488, 8488); (8490, 8493); (8495, 8505); (8508, 8511); (8517, 8521);
   (8526, 8526); (8528, 8585); (9312, 9371); (9450, 9471); (10102, 10131); (11264, 11492);
   (11499, 11502); (11506, 11507); (11517, 11517); (11520, 11557); (11559, 11559); (11565, 11565);
   (11568, 11623); (11631, 11631); (11648, 11670); (11680, 11686); (11688, 11694); (11696, 11702);
   (11704, 11710); (11712, 11718); (11720, 11726); (11728, 11734); (11736, 11742); (11823, 11823);
   (12293, 12295); (12321, 12329); (12337, 12341); (12344, 12348); (12353, 12438); (12445, 12447);
   (12449, 12538); (12540, 12543); (12549, 12591); (12593, 12686); (12690, 12693); (12704, 12735);
   (12784, 12799); (12832, 12841); (12872, 12879); (12881, 12895); (12928, 12937); (12977, 12991);
   (13312, 19903); (19968, 42124); (42192, 42237); (42240, 42508); (42512, 42539); (42560, 42606);
   (42623, 42653); (42656, 42735); (42775, 42783); (42786, 42888); (42891, 42954); (42960, 42961);
   (42963, 42963); (42965, 42969); (42994, 43009); (43011, 43013); (43015, 43018); (43020, 43042);
   (43056, 43061); (43072, 43123); (43138, 43187); (43216, 43225); (43250, 43255); (43259, 43259);
   (43261, 43262); (43264, 43301); (43312, 43334); (43360, 43388); (43396, 43442); (43471, 43481);
   (43488, 43492); (43494, 43518); (43520, 43560); (43584, 43586); (43588, 43595); (43600, 43609);
   (43616, 43638); (43642, 43642); (43646, 43695); (43697, 43697); (43701, 43702); (43705, 43709);
   (43712, 43712); (43714, 43714); (43739, 43741); (43744, 43754); (43762, 43764); (43777, 43782);
   (43785, 43790); (43793, 43798); (43808, 43814); (43816, 43822); (43824, 43866); (43868, 43881);
   (43888, 44002); (44016, 44025); (44032, 55203); (55216, 55238); (55243, 55291); (63744, 64109);
   (64112, 64217); (64256, 64262); (64275, 64279); (64285, 64285); (64287, 64296); (64298, 64310);
   (64312, 64316); (64318, 64318); (64320, 64321); (64323, 64324); (64326, 64433); (64467, 64829);
   (64848, 64911); (64914, 64967); (65008, 65019); (65136, 65140); (65142, 65276); (65296, 65305);
   (65313, 65338); (65345, 65370); (65382, 65470); (65474, 65479); (65482, 65487); (65490, 65495);
   (65498, 65500); (65536, 65547); (65549, 65574); (65576, 65594); (65596, 65597); (65599, 65613);
   (65616, 65629); (65664, 65786); (65799, 65843); (65856, 65912); (65930, 65931); (66176, 66204);
   (66208, 66256); (66273, 66299); (66304, 66339); (66349, 66378); (66384, 66421); (66432, 66461);
   (66464, 66499); (66504, 66511); (66513, 66517); (66560, 66717); (66720, 66729); (66736, 66771);
   (66776, 66811); (66816, 66855); (66864, 66915); (66928, 66938); (66940, 66954); (66956, 66962);
   (66964, 66965); (66967, 66977); (66979, 66993); (66995, 67001); (67003, 67004); (67072, 67382);
   (67392, 67413); (67424, 67431); (67456, 67461); (67463, 67504); (67506, 67514); (67584, 67589);
   (67592, 67592); (67594, 67637); (67639, 67640); (67644, 67644); (67647, 67669); (67672, 67702);
   (67705, 67742); (67751, 67759); (67808, 67826); (67828, 67829); (67835, 67867); (67872, 67897);
   (67968, 68023); (68028, 68047); (68050, 68096); (68112, 68115); (68117, 68119); (68121, 68149);
   (68160, 68168); (68192, 68222); (68224, 68255); (68288, 68295); (68297, 68324); (68331, 68335);
   (68352, 68405); (68416, 68437); (68440, 68466); (68472, 68497); (68521, 68527); (68608, 68680);
   (68736, 68786); (68800, 68850); (68858, 68899); (68912, 68921); (69216, 69246); (69248, 69289);
   (69296, 69297); (69376, 69415); (69424, 69445); (69457, 69460); (69488, 69505); (69552, 69579);
   (69600, 69622); (69635, 69687); (69714, 69743); (69745, 69746); (69749, 69749); (69763, 69807);
   (69840, 69864); (69872, 69881); (69891, 69926); (69942, 69951); (69956, 69956); (69959, 69959);
   (69968, 70002); (70006, 70006); (70019, 70066); (70081, 70084); (70096, 70106); (70108, 70108);
   (70113, 70132); (70144, 70161); (70163, 70187); (70272, 70278); (70280, 70280); (70282, 70285);
   (70287, 70301); (70303, 70312); (70320, 70366); (70384, 70393); (70405, 70412); (70415, 70416);
   (70419, 70440); (70442, 70448); (70450, 70451); (70453, 70457); (70461, 70461); (70480, 70480);
   (70493, 70497); (70656, 70708); (70727, 70730); (70736, 70745); (70751, 70753); (70784, 70831);
   (70852, 70853); (70855, 70855); (70864, 70873); (71040, 71086); (71128, 71131); (71168, 71215);
   (71236, 71236); (71248, 71257); (71296, 71338); (71352, 71352); (71360, 71369); (71424, 71450);
   (71472, 71483); (71488, 71494); (71680, 71723); (71840, 71922); (71935, 71942); (71945, 71945);
   (71948, 71955); (71957, 71958); (71960, 71983); (71999, 71999); (72001, 72001); (72016, 72025);
   (72096, 72103); (72106, 72144); (72161, 72161); (72163, 72163); (72192, 72192); (72203, 72242);
   (72250, 72250); (72272, 72272); (72284, 72329); (72349, 72349); (72368, 72440); (72704, 72712);
   (72714, 72750); (72768, 72768); (72784, 72812); (72818, 72847); (72960, 72966); (72968, 72969);
   (72971, 73008); (73030, 73030); (73040, 73049); (73056, 73061); (73063, 73064); (73066, 73097);
   (73112, 73112); (73120, 73129); (73440, 73458); (73648, 73648); (73664, 73684); (73728, 74649);
   (74752, 74862); (74880, 75075); (77712, 77808); (77824, 78894); (82944, 83526); (92160, 92728);
   (92736, 92766); (92768, 92777); (92784, 92862); (92864, 92873); (92880, 92909); (92928, 92975);
   (92992, 92995); (93008, 93017); (93019, 93025); (93027, 93047); (93053, 93071); (93760, 93846);
   (93952, 94026); (94032, 94032); (94099, 94111); (94176, 94177); (94179, 94179); (94208, 100343);
   (100352, 101589); (101632, 101640); (110576, 110579); (110581, 110587); (110589, 110590); (110592, 110882);
   (110928, 110930); (110948, 110951); (110960, 111355); (113664, 113770); (113776, 113788); (113792, 113800);
   (113808, 113817); (119520, 119539); (119648, 119672); (119808, 119892); (119894, 119964); (119966, 119967);
   (119970, 119970); (119973, 119974); (119977, 119980); (119982, 119993); (119995, 119995); (119997, 120003);
   (120005, 120069); (120071, 120074); (120077, 120084); (120086, 120092); (120094, 120121); (120123, 120126);
   (120128, 120132); (120134, 120134); (120138, 120144); (120146, 120485); (120488, 120512); (120514, 120538);
   (120540, 120570); (120572, 120596); (120598, 120628); (120630, 120654); (120656, 120686); (120688, 120712);
   (120714, 120744); (120746, 120770); (120772, 120779); (120782, 120831); (122624, 122654); (123136, 123180);
   (123191, 123197); (123200, 123209); (123214, 123214); (123536, 123565); (123584, 123627); (123632, 123641);
   (124896, 124902); (124904, 124907); (124909, 124910); (124912, 124926); (124928, 125124); (125127, 125135);
   (125184, 125251); (125259, 125259); (125264, 125273); (126065, 126123); (126125, 126127); (126129, 126132);
   (126209, 126253); (126255, 126269); (126464, 126467); (126469, 126495); (126497, 126498); (126500, 126500);
   (126503, 126503); (126505, 126514); (126516, 126519); (126521, 126521); (126523, 126523); (126530, 126530);
   (126535, 126535); (126537, 126537); (126539, 126539); (126541, 126543); (126545, 126546); (126548, 126548);
   (126551, 126551); (126553, 126553); (126555, 126555); (126557, 126557); (126559, 126559); (126561, 126562);
   (126564, 126564); (126567, 126570); (126572, 126578); (126580, 126583); (126585, 126588); (126590, 126590);
   (126592, 126601); (126603, 126619); (126625, 126627); (126629, 126633); (126635, 126651); (127232, 127244);
   (130032, 130041); (131072, 173791); (173824, 177976); (177984, 178205); (178208, 183969); (183984, 191456);
   (194560, 195101); (196608, 201546)
  ]%N.

Definition is_word (c : char) : bool := in_ranges word_ranges c.

Definition is_ascii_letter (c : char) : bool :=
  ((65 <=? c) && (c <=? 90) || (97 <=? c) && (c <=? 122))%N.

Definition is_ascii_digit (c : char) : bool := ((48 <=? c) && (c <=? 57))%N.

Definition is_ascii_alnum (c : char) : bool :=
  is_ascii_letter c || is_ascii_digit c.

(** [str.lower] and [str.upper] on the ASCII letters; the sources apply
    them to tokens of the classes [[A-Za-z]] and [[A-Za-z0-9]] only. *)
Definition ascii_lower (c : char) : char :=
  if ((65 <=? c) && (c <=? 90))%N then (c + 32)%N else c.

Definition ascii_upper (c : char) : char :=
  if ((97 <=? c) && (c <=? 122))%N then (c - 32)%N else c.

(** A literal ASCII letter [l] under [re.IGNORECASE]: the two cases of the
    letter and the characters that the [re] module folds onto it, which
    are U+0130 and U+0131 for i, U+017F for s and U+212A for k. *)
Definition ci (l c : char) : bool :=
  let l := ascii_lower l in
  (ascii_lower c =? l)%N
  || (l =? 105)%N && ((c =? 304) || (c =? 305))%N
  || (l =? 115)%N && (c =? 383)%N
  || (l =? 107)%N && (c =? 8490)%N.

(** The class [[a-zA-Z]] under [re.IGNORECASE]. *)
Definition is_letter_ci (c : char) : bool :=
  is_ascii_letter c || (c =? 304)%N || (c =? 305)%N || (c =? 383)%N || (c =? 8490)%N.

(** ** String operations *)

Fixpoint dropwhile (p : char -> bool) (s : str) : str :=
  match s with
  | [] => []
  | x :: s' => if p x then dropwhile p s' else s
  end.

Definition lstrip (s : str) : str := dropwhile is_space s.
Definition rstrip (s : str) : str := rev (dropwhile is_space (rev s)).

(** [s.strip()] *)
Definition strip (s : str) : str := rstrip (lstrip s).

(** [s[i:j]] for indices that are not negative. *)
Definition slice (s : str) (i j : nat) : str := firstn (j - i) (skipn i s).

(** [s.replace(c, "")] for a single character [c]. *)
Definition remove_char (c : char) (s : str) : str :=
  filter (fun x => negb (x =? c)%N) s.

Fixpoint starts_with (p : char -> char -> bool) (pre s : str) : bool :=
  match pre, s with
  | [], _ => true
  | _ :: _, [] => false
  | a :: pre', x :: s' => p a x && starts_with p pre' s'
  end.

(** [s.splitlines()]: a line ends at a line boundary, "\r\n" counts as one
    boundary, and a last line without characters is not listed. *)
Fixpoint splitlines_aux (cur : str) (s : str) : list str :=
  match s with
  | [] => match cur with [] => [] | _ :: _ => [rev cur] end
  | x :: s' =>
    if (x =? 13)%N then
      match s' with
      | y :: s'' => if (y =? 10)%N then rev cur :: splitlines_aux [] s''
                    else rev cur :: splitlines_aux [] s'
      | [] => rev cur :: splitlines_aux [] s'
      end
    else if is_linebreak x then rev cur :: splitlines_aux [] s'
    else splitlines_aux (x :: cur) s'
  end.

Definition splitlines (s : str) : list str := splitlines_aux [] s.

(** [sep.join(l)] *)
Fixpoint join (sep : str) (l : list str) : str :=
  match l with
  | [] => []
  | [a] => a
  | a :: l' => a ++ sep ++ join sep l'
  end.

(** [int(d)] on a string of decimal digits and [str(n)]. *)
Definition int_of_digits (d : str) : N :=
  fold_left (fun acc c => (acc * 10 + decimal_value c)%N) d 0%N.

Fixpoint uint_chars (d : Decimal.uint) : str :=
  match d with
  | Decimal.Nil => []
  | Decimal.D0 d => 48%N :: uint_chars d
  | Decimal.D1 d => 49%N :: uint_chars d
  | Decimal.D2 d => 50%N :: uint_chars d
  | Decimal.D3 d => 51%N :: uint_chars d
  | Decimal.D4 d => 52%N :: uint_chars d
  | Decimal.D5 d => 53%N :: uint_chars d
  | Decimal.D6 d => 54%N :: uint_chars d
  | Decimal.D7 d => 55%N :: uint_chars d
  | Decimal.D8 d => 56%N :: uint_chars d
  | Decimal.D9 d => 57%N :: uint_chars d
  end.

Definition str_of_N (n : N) : str := uint_chars (N.to_uint n).

Definition str_of_Z (z : Z) : str :=
  if (z <? 0)%Z then 45%N :: str_of_N (Z.abs_N z) else str_of_N (Z.to_N z).

(** ** Regular expressions

    The fragment of Python's [re] syntax that the sources use.  A
    repetition applies to a character class, which is all the patterns
    need; every quantifier is greedy. *)
Inductive regex : Type :=
| Eps                                            (* the empty pattern *)
| Chr (p : char -> bool)                         (* one character of a class *)
| Seq (r1 r2 : regex)                            (* r1 r2 *)
| Alt (r1 r2 : regex)                            (* r1 | r2 *)
| Opt (r : regex)                                (* r? *)
| Rep (lo : N) (hi : option N) (p : char -> bool) (* p{lo,hi}, p* , p+ *)
| Grp (k : nat) (r : regex)                      (* capturing group k *)
| Caret                                          (* ^ *)
| CaretM                                         (* ^ under re.MULTILINE *)
| Dollar                                         (* $ *)
| DollarM                                        (* $ under re.MULTILINE *)
| EndZ                                           (* \Z, the end of fullmatch *)
| WordB                                          (* \b *)
| Ahead (r : regex).                             (* (?=r) *)

(** The concatenation of a list of patterns. *)
Definition cat (rs : list regex) : regex := fold_right Seq Eps rs.

Definition is_char (a : char) : char -> bool := fun c => (c =? a)%N.

(** A literal string, case sensitive or under [re.IGNORECASE]. *)
Definition lit (s : str) : regex := fold_right (fun a r => Seq (Chr (is_char a)) r) Eps s.
Definition lit_ci (s : str) : regex := fold_right (fun a r => Seq (Chr (ci a)) r) Eps s.

(** The position of the matcher in the subject: the offset, the character
    before it, the characters from it on, and the spans of the groups
    closed so far (the latest first). *)
Record state : Type := St {
  pos : nat;
  prev : option char;
  rest : str;
  caps : list (nat * (nat * nat))
}.

Definition below (n : N) (hi : option N) : bool :=
  match hi with
  | None => true
  | Some h => (n <? h)%N
  end.

(** Greedy repetition of a class: the successes after the longest run
    first, down to [lo] characters. *)
Fixpoint rep_run (p : char -> bool) (lo : N) (hi : option N) (n : N)
    (ps : nat) (pv : option char) (cs : list (nat * (nat * nat))) (l : str)
    {struct l} : list state :=
  (match l with
   | x :: l' =>
     if p x && below n hi then rep_run p lo hi (n + 1) (S ps) (Some x) cs l' else []
   | [] => []
   end)
  ++ (if (lo <=? n)%N then [St ps pv l cs] else []).

Definition word_at (c : option char) : bool :=
  match c with
  | Some x => is_word x
  | None => false
  end.

(** [run r s]: the states in which [r] can end when it starts in [s], in
    the order in which a backtracking matcher tries them.  The match that
    [re] reports is the first one. *)
Fixpoint run (r : regex) (s : state) : list state :=
  match r with
  | Eps => [s]
  | Chr p =>
    match rest s with
    | x :: l => if p x then [St (S (pos s)) (Some x) l (caps s)] else []
    | [] => []
    end
  | Seq r1 r2 => flat_map (run r2) (run r1 s)
  | Alt r1 r2 => run r1 s ++ run r2 s
  | Opt r1 => run r1 s ++ [s]
  | Rep lo hi p => rep_run p lo hi 0 (pos s) (prev s) (caps s) (rest s)
  | Grp k r1 =>
    map (fun s' => St (pos s') (prev s') (rest s') ((k, (pos s, pos s')) :: caps s'))
        (run r1 s)
  | Caret => match prev s with None => [s] | Some _ => [] end
  | CaretM =>
    match prev s with
    | None => [s]
    | Some c => if (c =? 10)%N then [s] else []
    end
  | Dollar =>
    match rest s with
    | [] => [s]
    | [c] => if (c =? 10)%N then [s] else []
    | _ => []
    end
  | DollarM =>
    match rest s with
    | [] => [s]
    | c :: _ => if (c =? 10)%N then [s] else []
    end
  | EndZ => match rest s with [] => [s] | _ :: _ => [] end
  | WordB =>
    if xorb (word_at (prev s)) (word_at (hd_error (rest s))) then [s] else []
  | Ahead r1 => match run r1 s with [] => [] | _ :: _ => [s] end
  end.

(** A match object: its span and the spans of its groups. *)
Record rmatch : Type := Match {
  m_start : nat;
  m_end : nat;
  m_caps : list (nat * (nat * nat))
}.

Fixpoint cap_lookup (k : nat) (cs : list (nat * (nat * nat))) : option (nat * nat) :=
  match cs with
  | [] => None
  | (k', sp) :: cs' => if Nat.eqb k k' then Some sp else cap_lookup k cs'
  end.

(** [m.group(k)], [None] when the group took no part in the match. *)
Definition group (text : str) (m : rmatch) (k : nat) : option str :=
  match cap_lookup k (m_caps m) with
  | Some (a, b) => Some (slice text a b)
  | None => None
  end.

Definition group0 (text : str) (m : rmatch) : str := slice text (m_start m) (m_end m).

Definition match_here (r : regex) (ps : nat) (pv : option char) (l : str) : option rmatch :=
  match run r (St ps pv l []) with
  | s' :: _ => Some (Match ps (pos s') (caps s'))
  | [] => None
  end.

(** [re.match(r, text)] and [re.fullmatch(r, text)] *)
Definition re_match (r : regex) (text : str) : option rmatch :=
  match_here r 0 None text.

Definition re_fullmatch (r : regex) (text : str) : bool :=
  match re_match (Seq r EndZ) text with
  | Some _ => true
  | None => false
  end.

(** The search of a compiled pattern from a position on: the first offset
    at which the pattern matches. *)
Fixpoint search_from (r : regex) (ps : nat) (pv : option char) (l : str) {struct l}
    : option rmatch :=
  match match_here r ps pv l with
  | Some m => Some m
  | None =>
    match l with
    | [] => None
    | x :: l' => search_from r (S ps) (Some x) l'
    end
  end.

Fixpoint search_skip (r : regex) (n : nat) (ps : nat) (pv : option char) (l : str)
    {struct n} : option rmatch :=
  match n with
  | O => search_from r ps pv l
  | S n' =>
    match l with
    | [] => None
    | x :: l' => search_skip r n' (S ps) (Some x) l'
    end
  end.

(** [pattern.search(text, start)]; [re_search r text 0] is [pattern.search(text)]. *)
Definition re_search (r : regex) (text : str) (start : nat) : option rmatch :=
  search_skip r start 0 None text.

(** [pattern.finditer(text)]: the matches from left to right, each search
    resuming where the match before it ended.  [skip] counts the
    characters of the subject that the last match still covers. *)
Fixpoint finditer_aux (r : regex) (skip : nat) (ps : nat) (pv : option char) (l : str)
    {struct l} : list rmatch :=
  match skip with
  | S k =>
    match l with
    | [] => []
    | x :: l' => finditer_aux r k (S ps) (Some x) l'
    end
  | O =>
    match match_here r ps pv l with
    | Some m =>
      m :: match l with
           | [] => []
           | x :: l' => finditer_aux r (m_end m - ps - 1) (S ps) (Some x) l'
           end
    | None =>
      match l with
      | [] => []
      | x :: l' => finditer_aux r 0 (S ps) (Some x) l'
      end
    end
  end.

Definition re_finditer (r : regex) (text : str) : list rmatch :=
  finditer_aux r 0 0 None text.

(** [re.findall(r, text)] for a pattern without groups. *)
Definition re_findall (r : regex) (text : str) : list str :=
  map (group0 text) (re_finditer r text).

(** [re.sub(r, repl, text)] for a literal replacement. *)
Fixpoint sub_aux (r : regex) (repl : str) (skip : nat) (ps : nat) (pv : option char)
    (l : str) {struct l} : str :=
  match skip with
  | S k =>
    match l with
    | [] => []
    | x :: l' => sub_aux r repl k (S ps) (Some x) l'
    end
  | O =>
    match match_here r ps pv l with
    | Some m =>
      repl ++ match l with
              | [] => []
              | x :: l' =>
                (if Nat.eqb (m_end m) ps then [x] else [])
                ++ sub_aux r repl (m_end m - ps - 1) (S ps) (Some x) l'
              end
    | None =>
      match l with
      | [] => []
      | x :: l' => x :: sub_aux r repl 0 (S ps) (Some x) l'
      end
    end
  end.

Definition re_sub (r : regex) (repl : str) (text : str) : str :=
  sub_aux r repl 0 0 None text.

(** ** neo4j_fix_superscripts.py *)

Module Superscripts.

(** [_SUP_MAP]: the Unicode superscript digits and their ASCII digits. *)
Definition _SUP_MAP (c : char) : char :=
  if (c =? 8304)%N then 48%N        (* U+2070 *)
  else if (c =? 185)%N then 49%N    (* U+00B9 *)
  else if (c =? 178)%N then 50%N    (* U+00B2 *)
  else if (c =? 179)%N then 51%N    (* U+00B3 *)
  else if (8308 <=? c)%N && (c <=? 8313)%N then (c - 8256)%N  (* U+2074 .. U+2079 *)
  else c.

(** [s.translate(_SUP_MAP)] *)
Definition translate (s : str) : str := map _SUP_MAP s.

(** The class [[IVXLCDM]] under [re.IGNORECASE]. *)
Definition is_roman_ci (c : char) : bool :=
  ci 73 c || ci 86 c || ci 88 c || ci 76 c || ci 67 c || ci 68 c || ci 77 c.

(** [_ROMAN_RE], the pattern
    "(?i)^(?=[IVXLCDM]{1,8}$)M{0,4}(CM|CD|D?C{0,3})(XC|XL|L?X{0,3})(IX|IV|V?I{0,3})$" *)
Definition _ROMAN_RE : regex :=
  cat [ Caret;
        Ahead (cat [Rep 1 (Some 8%N) is_roman_ci; Dollar]);
        Rep 0 (Some 4%N) (ci 77);
        Grp 1 (Alt (lit_ci (u "CM")) (Alt (lit_ci (u "CD"))
                 (cat [Opt (Chr (ci 68)); Rep 0 (Some 3%N) (ci 67)])));
        Grp 2 (Alt (lit_ci (u "XC")) (Alt (lit_ci (u "XL"))
                 (cat [Opt (Chr (ci 76)); Rep 0 (Some 3%N) (ci 88)])));
        Grp 3 (Alt (lit_ci (u "IX")) (Alt (lit_ci (u "IV"))
                 (cat [Opt (Chr (ci 86)); Rep 0 (Some 3%N) (ci 73)])));
        Dollar ].

Definition _is_roman (tok : str) : bool :=
  match re_match _ROMAN_RE tok with
  | Some _ => true
  | None => false
  end.

Definition _tidy_prefix (prefix : str) : str := u "Art.".

(** The largest repetition count that [re] compiles (64-bit CPython). *)
Definition MAXREPEAT : Z := 4294967295.

(** The body of the group [tail], the pattern text "\d{1,<tail_max>}" as
    [re] reads it.  A bound of zero is refused ("min repeat greater than
    max repeat") and so is a bound from [MAXREPEAT] on ("the repetition
    number is too large"); with a negative bound the braces are no
    quantifier, and the pattern is one digit and the literal text
    "{1,<tail_max>}". *)
Definition tail_body (tail_max : Z) : option regex :=
  if (tail_max =? 0)%Z then None
  else if (MAXREPEAT <=? tail_max)%Z then None
  else if (0 <? tail_max)%Z then Some (Rep 1 (Some (Z.to_N tail_max)) is_decimal)
  else Some (cat [Chr is_decimal; lit (u "{1," ++ str_of_Z tail_max ++ u "}")]).

(** The pattern "(?is)^\s*(art\.?)\s*(R)$" of line 73, where R is ".*": under
    the flag s the dot takes any character. *)
Definition prefix_re : regex :=
  cat [ Caret; Rep 0 None is_space;
        Grp 1 (cat [lit_ci (u "art"); Opt (Chr (is_char 46))]);
        Rep 0 None is_space;
        Grp 2 (Rep 0 None (fun _ => true));
        Dollar ].

(** The pattern "^(?P<num>\d{1,3})(?P<letter>[A-Za-z])?(?P<tail>\d{1,tail_max})?$"
    with the groups num, letter and tail numbered 1, 2 and 3. *)
Definition arabic_re (tail : regex) : regex :=
  cat [ Caret; Grp 1 (Rep 1 (Some 3%N) is_decimal);
        Opt (Grp 2 (Chr is_ascii_letter));
        Opt (Grp 3 tail);
        Dollar ].

Definition is_roman_letter (c : char) : bool :=
  existsb (fun a => (c =? a)%N) (u "IVXLCDMivxlcdm").

(** The pattern "^(?P<roman>[IVXLCDMivxlcdm]{1,8})(?P<tail>\d{1,tail_max})?$"
    with the groups roman and tail numbered 1 and 3. *)
Definition roman_re (tail : regex) : regex :=
  cat [ Caret; Grp 1 (Rep 1 (Some 8%N) is_roman_letter);
        Opt (Grp 3 tail);
        Dollar ].

(** The pattern "[A-Za-z0-9]+" *)
Definition token_re : regex := Rep 1 None is_ascii_alnum.

Definition group_or_empty (text : str) (m : rmatch) (k : nat) : str :=
  match group text m k with
  | Some g => g
  | None => []
  end.

(** The third strategy of [normalize_article_number], on the tokens of
    [rest]; [None] when it does not apply. *)
Definition from_tokens (prefix : str) (tail : regex) (toks : list str)
    : option (str * option str) :=
  match toks with
  | [] => None
  | t0 :: ts =>
    if re_fullmatch (Rep 1 (Some 3%N) is_decimal) t0 then
      let num := str_of_N (int_of_digits t0) in
      match ts with
      | t1 :: ts' =>
        if re_fullmatch (Chr is_ascii_letter) t1 then
          let letter := map ascii_lower t1 in
          let tl := match ts' with
                    | t2 :: _ => if re_fullmatch tail t2 then Some t2 else None
                    | [] => None
                    end in
          Some (prefix ++ u " " ++ num ++ letter, tl)
        else if re_fullmatch tail t1 then Some (prefix ++ u " " ++ num, Some t1)
        else Some (prefix ++ u " " ++ num, None)
      | [] => Some (prefix ++ u " " ++ num, None)
      end
    else if _is_roman t0 then
      let roman := map ascii_upper t0 in
      let tl := match ts with
                | t1 :: _ => if re_fullmatch tail t1 then Some t1 else None
                | [] => None
                end in
      Some (prefix ++ u " " ++ roman, tl)
    else None
  end.

(** [normalize_article_number] from the compilation of the first pattern
    with a tail on (lines 81 to 122); [None] stands for the exception
    that [re] raises on a [tail_max] it cannot compile. *)
Definition normalize_rest (prefix rest : str) (tail_max : Z) : option (str * option str) :=
  let rest_compact := remove_char 32 rest in
  match tail_body tail_max with
  | None => None
  | Some tail =>
    match re_match (arabic_re tail) rest_compact with
    | Some m_ar =>
      let num := str_of_N (int_of_digits (group_or_empty rest_compact m_ar 1)) in
      let letter := map ascii_lower (group_or_empty rest_compact m_ar 2) in
      Some (prefix ++ u " " ++ num ++ letter, group rest_compact m_ar 3)
    | None =>
      let m_ro :=
        match re_match (roman_re tail) rest_compact with
        | Some m => if _is_roman (group_or_empty rest_compact m 1) then Some m else None
        | None => None
        end in
      match m_ro with
      | Some m =>
        let roman := map ascii_upper (group_or_empty rest_compact m 1) in
        Some (prefix ++ u " " ++ roman, group rest_compact m 3)
      | None =>
        match from_tokens prefix tail (re_findall token_re (translate rest)) with
        | Some r => Some r
        | None => Some (prefix ++ u " " ++ strip rest, None)
        end
      end
    end
  end.

(** [normalize_article_number(raw, tail_max)]: the canonical number and the
    footnote, [None] for the footnote being Python's [None]. *)
Definition normalize_article_number (raw : str) (tail_max : Z)
    : option (str * option str) :=
  match raw with
  | [] => Some ([], None)
  | _ :: _ =>
    let s := re_sub (Rep 1 None is_space) (u " ") (strip raw) in
    let s := translate s in
    match re_match prefix_re s with
    | None => Some (s, None)
    | Some m =>
      let prefix := _tidy_prefix (group_or_empty s m 1) in
      normalize_rest prefix (group_or_empty s m 2) tail_max
    end
  end.

(** An Article node of the graph, with the properties that [main] reads
    and writes: [node_id] is the value of [id(a)], and a property that
    the node does not have is [None]. *)
Record article : Type := Article {
  node_id : N;
  doc_id : option str;
  article_number : option str;
  article_footnote : option str
}.

(** The condition [toLower(a.article_number) STARTS WITH 'art'] of the
    query of [main]; it is not met by a node without a number.  No
    character other than the capital of a letter has that letter as its
    lower case, for the letters a, r and t. *)
Definition starts_with_art (a : article) : bool :=
  match article_number a with
  | Some art => starts_with (fun l x => (ascii_lower x =? l)%N) (u "art") art
  | None => false
  end.

(** The records [doc_id], [art] and [id] of the query of [main], one for
    every node that meets its condition.  The query returns them in the
    order of [doc_id] and [article_number]. *)
Definition query (store : list article) : list (option str * str * N) :=
  flat_map (fun a => match article_number a with
                     | Some art =>
                       if starts_with_art a then [(doc_id a, art, node_id a)] else []
                     | None => []
                     end) store.

(** The update of [main]:
    MATCH (a:Article) WHERE id(a) = $id
    SET a.article_number = $new_art, a.article_footnote = $foot
    where a footnote that is null removes the property. *)
Definition set_article (id : N) (new_art : str) (foot : option str)
    (store : list article) : list article :=
  map (fun a => if (node_id a =? id)%N
                then Article (node_id a) (doc_id a) (Some new_art) foot
                else a) store.

(** The loop of [main] over the records [res] of the query, with the
    flag [--dry] and the value of [--tail_max]: the nodes after the loop
    and the counters [fixed] and [unchanged], which are [None] when
    [normalize_article_number] raises; the nodes are then as the records
    before the one that raises leave them. *)
Fixpoint main_loop (dry : bool) (tail_max : Z) (res : list (option str * str * N))
    (store : list article) (fixed unchanged : nat)
    : list article * option (nat * nat) :=
  match res with
  | [] => (store, Some (fixed, unchanged))
  | (_, art, id) :: res' =>
    match normalize_article_number art tail_max with
    | None => (store, None)
    | Some (new_art, foot) =>
      if negb (str_eqb new_art art)
         || match foot with Some (_ :: _) => true | _ => false end
      then
        main_loop dry tail_max res'
          (if dry then store else set_article id new_art foot store)
          (fixed + 1) unchanged
      else main_loop dry tail_max res' store fixed (unchanged + 1)
    end
  end.

(** [main] on the nodes [store], where [res] lists the records of the
    query in the order in which the database returns them. *)
Definition main (dry : bool) (tail_max : Z) (res : list (option str * str * N))
    (store : list article) : list article * option (nat * nat) :=
  main_loop dry tail_max res store 0 0.

End Superscripts.


(** ** pdf2articles.py *)

Module Pdf2Articles.

(** [ART_HEADING_RE], the pattern "^\s*Art\.\s*(\d+[a-zA-Z]?)\s*$" under
    [re.IGNORECASE | re.MULTILINE]. *)
Definition ART_HEADING_RE : regex :=
  cat [ CaretM; Rep 0 None is_space;
        lit_ci (u "Art"); Chr (is_char 46);
        Rep 0 None is_space;
        Grp 1 (cat [Rep 1 None is_decimal; Opt (Chr is_letter_ci)]);
        Rep 0 None is_space; DollarM ].

(** [DOC_ID_RE], the pattern "\b\d{1,3}\.\d{1,3}\.\d{1,3}\b". *)
Definition DOC_ID_RE : regex :=
  cat [ WordB;
        Rep 1 (Some 3%N) is_decimal; Chr (is_char 46);
        Rep 1 (Some 3%N) is_decimal; Chr (is_char 46);
        Rep 1 (Some 3%N) is_decimal;
        WordB ].

Definition guess_doc_id_from_first_page (page_text : str) : option str :=
  match re_search DOC_ID_RE page_text 0 with
  | Some m => Some (group0 page_text m)
  | None => None
  end.

(** The document id of [process_pdf] (line 192):
    [guess_doc_id_from_first_page(first_page_text) or pdf_path.stem]. *)
Definition process_pdf_doc_id (first_page_text stem : str) : str :=
  match guess_doc_id_from_first_page first_page_text with
  | Some (c :: d) => c :: d
  | Some [] => stem
  | None => stem
  end.

(** The pattern "texte\s+original" under [re.IGNORECASE]. *)
Definition start_pat : regex :=
  cat [lit_ci (u "texte"); Rep 1 None is_space; lit_ci (u "original")].

(** The pattern "\bconclu(e)?\b" under [re.IGNORECASE]. *)
Definition end_pat : regex :=
  cat [WordB; lit_ci (u "conclu"); Opt (Grp 1 (Chr (ci 101))); WordB].

(** [DOC_ID_LINE], the pattern "^\s*\d{1,3}\.\d{1,3}\.\d{1,3}\s*$". *)
Definition DOC_ID_LINE : regex :=
  cat [ Caret; Rep 0 None is_space;
        Rep 1 (Some 3%N) is_decimal; Chr (is_char 46);
        Rep 1 (Some 3%N) is_decimal; Chr (is_char 46);
        Rep 1 (Some 3%N) is_decimal;
        Rep 0 None is_space; Dollar ].

(** The search for the two markers (lines 76 to 86 and 106 to 115).  The
    markers are looked for in [norm], the value of [_norm(text)], and
    their offsets cut [text] itself.  [_norm] drops the combining marks
    of the NFKD form that [unicodedata] computes; its value is an
    argument here.  [None] is the branch in which no segment is cut. *)
Definition marker_segment (norm text : str) : option str :=
  let ms := re_search start_pat norm 0 in
  let me := match ms with
            | Some m => re_search end_pat norm (m_end m)
            | None => re_search end_pat norm 0
            end in
  match ms, me with
  | Some s, Some e =>
    if m_end s <? m_start e then Some (slice text (m_end s) (m_start e)) else None
  | None, Some e => Some (slice text 0 (m_start e))
  | _, None => None
  end.

Definition nonempty (s : str) : bool :=
  match s with
  | [] => false
  | _ :: _ => true
  end.

(** The cleaning of a segment (lines 89 to 92 and 117 to 120). *)
Definition clean_segment (segment : str) : str :=
  let seg := join (u "
") (filter nonempty (map strip (splitlines segment))) in
  let seg := strip (re_sub (Rep 1 None is_space) (u " ") seg) in
  let seg := remove_char 173 seg in
  re_sub (cat [Rep 0 None is_space; Chr (is_char 45); Rep 1 None is_space]) (u "-") seg.

(** [t.lower().startswith("texte original")].  The lower case of a
    character is an ASCII letter of the phrase only for the upper case of
    that letter and for U+0130, whose lower case is "i" and U+0307, after
    which the phrase does not go on. *)
Definition starts_with_texte_original (t : str) : bool :=
  starts_with (fun a x => (ascii_lower x =? a)%N) (u "texte original") t.

Definition is_title_line (t : str) : bool :=
  nonempty t
  && negb (match re_match DOC_ID_LINE t with Some _ => true | None => false end)
  && negb (starts_with_texte_original t).

(** The loop of lines 125 to 128. *)
Fixpoint first_title_line (lines : list str) : option str :=
  match lines with
  | [] => None
  | line :: lines' =>
    let t := strip line in
    if is_title_line t then Some t else first_title_line lines'
  end.

Definition TITRE_INCONNU : str := u "Titre inconnu".

(** [_title_between_markers_fallback(raw_page_text)], where [norm] is the
    value of [_norm(raw_page_text)]. *)
Definition _title_between_markers_fallback (norm raw_page_text : str) : str :=
  let seg := match marker_segment norm raw_page_text with
             | Some seg => seg
             | None => []
             end in
  match clean_segment seg with
  | c :: seg' => c :: seg'
  | [] =>
    match first_title_line (splitlines raw_page_text) with
    | Some t => t
    | None => TITRE_INCONNU
    end
  end.

(** [guess_doc_title_from_first_page(page)] from line 66 on.  [lines] are
    the texts of the lines of the upper half of the page in the order of
    their vertical position, [norm_top] is the value of [_norm(top_text)],
    [page_text] the value of [page.get_text() or ""] and [norm_page] the
    value of [_norm] on it. *)
Definition guess_doc_title_from_first_page
    (lines : list str) (norm_top page_text norm_page : str) : str :=
  match lines with
  | [] => _title_between_markers_fallback norm_page page_text
  | _ :: _ =>
    let top_text := join (u "
") lines in
    match marker_segment norm_top top_text with
    | Some segment =>
      match clean_segment segment with
      | c :: seg => c :: seg
      | [] => _title_between_markers_fallback norm_page page_text
      end
    | None => _title_between_markers_fallback norm_page page_text
    end
  end.

(** [find_articles_segments(full_text)]: for every heading its number, its
    start and the start of the next heading, or the length of the text. *)
Fixpoint segments_of (full_text : str) (matches : list rmatch) : list (str * nat * nat) :=
  match matches with
  | [] => []
  | m :: matches' =>
    let art_num := match group full_text m 1 with Some g => g | None => [] end in
    let e := match matches' with
             | m' :: _ => m_start m'
             | [] => length full_text
             end in
    (art_num, m_start m, e) :: segments_of full_text matches'
  end.

Definition find_articles_segments (full_text : str) : list (str * nat * nat) :=
  segments_of full_text (re_finditer ART_HEADING_RE full_text).

(** The loop of [pos_to_page]: [i] is the index of [offs] in the list of
    page offsets and [p] the page found so far. *)
Fixpoint pos_to_page_loop (pos : Z) (offs : list Z) (i p : Z) : Z :=
  match offs with
  | [] => p
  | off :: offs' =>
    if (off <=? pos)%Z then pos_to_page_loop pos offs' (i + 1)%Z i else p
  end.

Definition pos_to_page (page_offsets : list Z) (pos : Z) : Z :=
  (pos_to_page_loop pos page_offsets 0 0 + 1)%Z.

Definition span_to_page_range (start_idx end_idx : Z) (page_offsets : list Z) : Z * Z :=
  let p1 := pos_to_page page_offsets start_idx in
  let p2 := pos_to_page page_offsets (if (0 <? end_idx)%Z then (end_idx - 1)%Z else 0%Z) in
  (p1, p2).

(** The page marker of [load_pdf_text_with_pages] for the page of index
    [i]: a line feed, "<<<PAGE_BREAK_", the number [i + 1], ">>>" and a
    line feed. *)
Definition page_break (i : nat) : str :=
  10%N :: u "<<<PAGE_BREAK_" ++ str_of_N (N.of_nat (i + 1)) ++ u ">>>" ++ [10%N].

(** The loop of [load_pdf_text_with_pages] from the page of index [i] on:
    [doc] lists the value of [page.get_text()] for the pages that are
    left. *)
Fixpoint load_pages (i : nat) (doc : list str)
    (full_text : str) (page_texts : list str) (page_offsets : list Z)
    : str * list str * list Z :=
  match doc with
  | [] => (full_text, page_texts, page_offsets)
  | txt :: doc' =>
    load_pages (S i) doc'
      (full_text ++ txt ++ page_break i)
      (page_texts ++ [txt])
      (page_offsets ++ [Z.of_nat (length full_text)])
  end.

(** [load_pdf_text_with_pages(pdf_path)]: the full text, the page texts
    and the page offsets of the document whose pages have the texts
    [doc]. *)
Definition load_pdf_text_with_pages (doc : list str) : str * list str * list Z :=
  load_pages 0 doc [] [] [].

(** [make_preview(s, n)], the value of [s.strip()[:n]]: a negative [n]
    counts from the end of the stripped text. *)
Definition make_preview (s : str) (n : Z) : str :=
  let s := strip s in
  if (0 <=? n)%Z then firstn (Z.to_nat n) s
  else firstn (length s - Z.to_nat (- n)) s.

(** The pattern "<<<PAGE_BREAK_\d+>>>" of [process_pdf]. *)
Definition PAGE_BREAK_RE : regex :=
  cat [lit (u "<<<PAGE_BREAK_"); Rep 1 None is_decimal; lit (u ">>>")].

(** A record that [process_pdf] yields. *)
Record record : Type := Rec {
  doc_id : str;
  article_number : str;
  title : str;
  page_start : Z;
  page_end : Z;
  text_full : str;
  text_full_ascii : str;
  text_preview : str;
  text_preview_ascii : str;
  text_chars : nat;
  pdf_path : str
}.

(** [process_pdf(pdf_path)], the records in the order in which they are
    yielded.  [doc] lists the value of [page.get_text()] for the pages of
    the file, [stem] is [pdf_path.stem] and [path] is
    [str(pdf_path.resolve())]; [lines], [norm_top] and [norm_page] are the
    arguments of [guess_doc_title_from_first_page] for the first page, and
    [strip_accents] stands for the function of that name, which lowers the
    case of the NFKD form without its combining marks. *)
Definition process_pdf (strip_accents : str -> str)
    (doc : list str) (stem path : str) (lines : list str) (norm_top norm_page : str)
    : list record :=
  let '(full_text, page_texts, page_offsets) := load_pdf_text_with_pages doc in
  let first_page_text := match page_texts with
                         | t :: _ => t
                         | [] => []
                         end in
  let doc_id := process_pdf_doc_id first_page_text stem in
  let doc_title := match doc with
                   | page0 :: _ =>
                     guess_doc_title_from_first_page lines norm_top page0 norm_page
                   | [] => TITRE_INCONNU
                   end in
  let segments := match find_articles_segments full_text with
                  | seg :: segs => seg :: segs
                  | [] => [(u "1", 0, length full_text)]
                  end in
  map (fun '(art_num, start, stop) =>
         let raw := strip (slice full_text start stop) in
         let body := strip (re_sub PAGE_BREAK_RE [] raw) in
         let article_number := u "Art. " ++ art_num in
         let article_title := article_number ++ u ", " ++ doc_title in
         let '(p_start, p_end) :=
           span_to_page_range (Z.of_nat start) (Z.of_nat stop) page_offsets in
         let text_full := body in
         let text_preview := make_preview text_full 4000 in
         Rec doc_id article_number article_title p_start p_end
             text_full (strip_accents body)
             text_preview (strip_accents text_preview)
             (length text_full) path)
      segments.

End Pdf2Articles.

(** ** neo4j_fix_docids_titles.py *)

Module Reconciler.

(** An entry of [arts], the articles that [CYPHER_LIST_PDFS] collects for
    a file: [doc_id] is [None] when the article has none. *)
Record art : Type := Art {
  doc_id : option str;
  article_number : str
}.

(** Python's truth value of a string or [None]. *)
Definition truthy (s : option str) : bool :=
  match s with
  | Some (_ :: _) => true
  | _ => false
  end.

(** [[a["doc_id"] for a in arts if a.get("doc_id")]] *)
Definition old_ids (arts : list art) : list str :=
  flat_map (fun a => match doc_id a with
                     | Some (c :: d) => [c :: d]
                     | _ => []
                     end) arts.

(** The target identity of a group (lines 219 to 232): [probe] is the
    value of [probe_pdf_first_page(pdf_path)] and [stem] the value of
    [Path(pdf_path).stem]; [None] when the file is skipped. *)
Definition target_identity (probe : option str * option str) (arts : list art) (stem : str)
    : option (str * str) :=
  let (new_doc_id, doc_title) := probe in
  if negb (truthy new_doc_id) && negb (truthy doc_title) then None
  else
    let new_doc_id :=
      match new_doc_id with
      | Some (c :: d) => c :: d
      | _ => match old_ids arts with
             | d :: _ => d
             | [] => stem
             end
      end in
    let doc_title :=
      match doc_title with
      | Some (c :: t) => c :: t
      | _ => u "Titre inconnu"
      end in
    Some (new_doc_id, doc_title).

(** The Document nodes of the graph: the title of every [doc_id], [None]
    for a node without a title. *)
Definition documents := list (str * option str).

Fixpoint doc_lookup (d : str) (docs : documents) : option (option str) :=
  match docs with
  | [] => None
  | (d', t) :: docs' => if str_eqb d d' then Some t else doc_lookup d docs'
  end.

Fixpoint doc_set (d : str) (t : option str) (docs : documents) : documents :=
  match docs with
  | [] => [(d, t)]
  | (d', t') :: docs' =>
    if str_eqb d d' then (d, t) :: docs' else (d', t') :: doc_set d t docs'
  end.

Definition coalesce (a b : option str) : option str :=
  match a with
  | Some _ => a
  | None => b
  end.

(** The first clause of [CYPHER_UPDATE_GROUP], the only one that writes a
    Document title:
    MERGE (d2:Document {doc_id: $newDocId})
    ON CREATE SET d2.title = $docTitle
    ON MATCH  SET d2.title = coalesce($docTitle, d2.title) *)
Definition merge_document (docs : documents) (newDocId : str) (docTitle : option str)
    : documents :=
  match doc_lookup newDocId docs with
  | None => doc_set newDocId docTitle docs
  | Some old => doc_set newDocId (coalesce docTitle old) docs
  end.

(** The Document nodes after the update of a group in a commit run. *)
Definition update_group (docs : documents) (probe : option str * option str)
    (arts : list art) (stem : str) : documents :=
  match target_identity probe arts stem with
  | None => docs
  | Some (new_doc_id, doc_title) => merge_document docs new_doc_id (Some doc_title)
  end.

(** The first page of a PDF as [probe_pdf_first_page] reads it:
    [page_text] is the value of [page0.get_text()], and [top_lines],
    [norm_top] and [norm_page] are the arguments of
    [guess_doc_title_from_first_page], whose text in this file is the text
    that it has in [pdf2articles.py]. *)
Record first_page : Type := Page {
  page_text : str;
  top_lines : list str;
  norm_top : str;
  norm_page : str
}.

(** [guess_doc_id_from_first_page_text(text)], with the pattern [DOC_ID_RE]
    of this file, which is the pattern of [pdf2articles.py]. *)
Definition guess_doc_id_from_first_page_text (text : option str) : option str :=
  let text := match text with
              | Some (c :: t) => c :: t
              | _ => []
              end in
  match re_search Pdf2Articles.DOC_ID_RE text 0 with
  | Some m => Some (group0 text m)
  | None => None
  end.

(** [probe_pdf_first_page(pdf_path)]: [file] is [None] when the path does
    not exist or the file cannot be read, and lists the pages of the
    document otherwise. *)
Definition probe_pdf_first_page (file : option (list first_page))
    : option str * option str :=
  match file with
  | Some (page0 :: _) =>
    (guess_doc_id_from_first_page_text (Some (page_text page0)),
     Some (Pdf2Articles.guess_doc_title_from_first_page
             (top_lines page0) (norm_top page0) (page_text page0) (norm_page page0)))
  | _ => (None, None)
  end.

(** An Article node of the graph with the properties that the script
    reads and writes.  Every Article has an [article_number]: the loaders
    create the nodes by a MERGE on it. *)
Record article_node : Type := ArticleNode {
  node_pdf_path : option str;
  node_number : str;
  node_doc_id : option str;
  node_title : option str
}.

(** The list [arts] that [CYPHER_LIST_PDFS] collects for a [pdf_path]
    that is not empty, in the order of the nodes; the query leaves out the
    nodes without a [pdf_path] and those with an empty one. *)
Definition collect_arts (pdf_path : str) (articles : list article_node) : list art :=
  flat_map (fun a => match node_pdf_path a with
                     | Some p =>
                       if str_eqb p pdf_path then [Art (node_doc_id a) (node_number a)]
                       else []
                     | None => []
                     end) articles.

(** What the second clause of [CYPHER_UPDATE_GROUP] sets on the Article
    nodes:
    UNWIND arts AS art
    MATCH (a:Article {pdf_path: pdf_path, article_number: art.article_number})
    SET a.doc_id = newDocId, a.title = a.article_number + ', ' + docTitle *)
Definition set_articles (pdf_path newDocId docTitle : str) (arts : list art)
    (articles : list article_node) : list article_node :=
  map (fun a =>
         let hit := match node_pdf_path a with
                    | Some p =>
                      str_eqb p pdf_path
                      && existsb (fun r => str_eqb (article_number r) (node_number a)) arts
                    | None => false
                    end in
         if hit
         then ArticleNode (node_pdf_path a) (node_number a) (Some newDocId)
                          (Some (node_number a ++ u ", " ++ docTitle))
         else a) articles.

(** A record of [CYPHER_LIST_PDFS]. *)
Record pdf_group : Type := PdfGroup {
  group_pdf_path : str;
  group_arts : list art
}.

(** [groups[: args.limit]] under [if args.limit]: no limit and a limit of
    zero keep every group, and a negative limit drops groups from the
    end. *)
Definition limited (limit : option Z) (groups : list pdf_group) : list pdf_group :=
  match limit with
  | None => groups
  | Some n =>
    if (n =? 0)%Z then groups
    else if (0 <? n)%Z then firstn (Z.to_nat n) groups
    else firstn (length groups - Z.to_nat (- n)) groups
  end.

(** The loop of [main] over the groups: the Article nodes after it and the
    counters [total], [fixed] and [skipped].  [files] gives what
    [probe_pdf_first_page] finds at a path and [stem_of] the value of
    [Path(pdf_path).stem]. *)
Fixpoint main_loop (commit : bool)
    (files : str -> option (list first_page)) (stem_of : str -> str)
    (groups : list pdf_group) (articles : list article_node)
    (total fixed skipped : nat) : list article_node * (nat * nat * nat) :=
  match groups with
  | [] => (articles, (total, fixed, skipped))
  | g :: groups' =>
    let pdf_path := group_pdf_path g in
    let arts := group_arts g in
    let total := total + 1 in
    match target_identity (probe_pdf_first_page (files pdf_path)) arts (stem_of pdf_path) with
    | None => main_loop commit files stem_of groups' articles total fixed (skipped + 1)
    | Some (new_doc_id, doc_title) =>
      if commit
      then main_loop commit files stem_of groups'
             (set_articles pdf_path new_doc_id doc_title arts articles)
             total (fixed + 1) skipped
      else main_loop commit files stem_of groups' articles total fixed skipped
    end
  end.

(** [main], where [groups] is the value of
    [session.run(CYPHER_LIST_PDFS).data()]. *)
Definition main (commit : bool) (limit : option Z)
    (files : str -> option (list first_page)) (stem_of : str -> str)
    (groups : list pdf_group) (articles : list article_node)
    : list article_node * (nat * nat * nat) :=
  main_loop commit files stem_of (limited limit groups) articles 0 0 0.

End Reconciler.

(** ** Vocabulary of the statements and of their proofs *)

Import Superscripts Pdf2Articles Reconciler.

(** The character before the position reached after [w]. *)
Fixpoint last_or (w : str) (pv : option char) : option char :=
  match w with
  | [] => pv
  | x :: w' => last_or w' (Some x)
  end.

(** [steps s w s']: the matcher goes from [s] to [s'] over the characters [w]. *)
Definition steps (s : state) (w : str) (s' : state) : Prop :=
  rest s = w ++ rest s' /\ pos s' = pos s + List.length w /\ prev s' = last_or w (prev s).

(** The groups of a pattern. *)
Fixpoint groups (r : regex) : list nat :=
  match r with
  | Seq r1 r2 | Alt r1 r2 => groups r1 ++ groups r2
  | Opt r1 => groups r1
  | Grp k r1 => k :: groups r1
  | _ => []
  end.

(** Where a greedy repetition stops: at the end of the subject, before a
    character outside the class, or at its upper bound. *)
Definition rep_stop (p : char -> bool) (hi : option N) (n : N) (l : str) : Prop :=
  l = [] \/ (exists y l', l = y :: l' /\ p y = false) \/ hi = Some n.

(** [first_run r s s']: [s'] is the first success of [r] from [s], the one
    that [re] reports. *)
Definition first_run (r : regex) (s s' : state) : Prop :=
  exists Y, run r s = s' :: Y.

(** The match of a pattern at offset [k] of a text. *)
Definition match_at (r : regex) (text : str) (k : nat) : option rmatch :=
  match_here r k (last_or (firstn k text) None) (skipn k text).

(** The least number of characters that a pattern takes. *)
Fixpoint min_len (r : regex) : nat :=
  match r with
  | Chr _ => 1
  | Seq r1 r2 => min_len r1 + min_len r2
  | Alt r1 r2 => Nat.min (min_len r1) (min_len r2)
  | Rep lo _ _ => N.to_nat lo
  | Grp _ r1 => min_len r1
  | _ => 0
  end.

(** The text of a span of [find_articles_segments]. *)
Definition span_text (text : str) (seg : str * nat * nat) : str :=
  slice text (snd (fst seg)) (snd seg).

(** Spans that are not empty, each ending where the next one starts and
    the last one at [stop]. *)
Fixpoint chained (stop : nat) (segs : list (str * nat * nat)) : Prop :=
  match segs with
  | [] => True
  | (_, a, b) :: segs' =>
    a < b
    /\ b = match segs' with
           | (_, a', _) :: _ => a'
           | [] => stop
           end
    /\ chained stop segs'
  end.

(** A group of one to three decimal digits, three groups joined by
    periods, and an occurrence of such an id between [pre] and [post]
    with a word boundary on both sides. *)
Definition digits13 (g : str) : Prop :=
  1 <= List.length g <= 3 /\ Forall (fun c => is_decimal c = true) g.

Definition dotted3 (d : str) : Prop :=
  exists g1 g2 g3, d = g1 ++ 46%N :: g2 ++ 46%N :: g3
    /\ digits13 g1 /\ digits13 g2 /\ digits13 g3.

Definition doc_id_at (text pre d post : str) : Prop :=
  text = pre ++ d ++ post /\ dotted3 d
  /\ word_at (last_or pre None) = false /\ word_at (hd_error post) = false.

(** Page offsets that do not decrease. *)
Definition nondecreasing (l : list Z) : Prop :=
  forall i j, (i <= j < length l)%nat -> (nth i l 0 <= nth j l 0)%Z.

(** [page_of offs p page]: [page], counted from 1, is the highest page
    whose start offset is at most [p]. *)
Definition page_of (page_offsets : list Z) (p : Z) (page : Z) : Prop :=
  (1 <= page <= Z.of_nat (length page_offsets))%Z
  /\ (nth (Z.to_nat (page - 1)) page_offsets 0 <= p)%Z
  /\ forall j, (Z.to_nat page <= j < length page_offsets)%nat -> (p < nth j page_offsets 0)%Z.

(** The number of occurrences of an id in a list of ids. *)
Definition count_id (d : str) (ids : list str) : nat :=
  List.length (filter (str_eqb d) ids).

(** One to three groups of one to three decimal digits joined by periods. *)
Definition dotted_upto3 (d : str) : Prop :=
  exists gs, 1 <= List.length gs <= 3 /\ Forall digits13 gs /\ d = join (u ".") gs.

(** The segment that the markers cut, empty when they cut none. *)
Definition marker_text (norm text : str) : str :=
  match marker_segment norm text with
  | Some seg => seg
  | None => []
  end.

(** Every run of whitespace replaced by one space; [in_run] tells that the
    character before was whitespace. *)
Fixpoint collapse (in_run : bool) (s : str) : str :=
  match s with
  | [] => []
  | x :: s' =>
    if is_space x then (if in_run then collapse true s' else 32%N :: collapse true s')
    else x :: collapse false s'
  end.

(** The number of whitespace characters at the head of a string. *)
Fixpoint lead (s : str) : nat :=
  match s with
  | [] => 0
  | x :: s' => if is_space x then S (lead s') else 0
  end.

(** A string after a character that is no whitespace, in which every
    whitespace character is one space between two others. *)
Fixpoint tidy_tail (s : str) : bool :=
  match s with
  | [] => true
  | x :: s' =>
    if is_space x
    then (x =? 32)%N
         && match s' with
            | y :: _ => negb (is_space y)
            | [] => false
            end
         && tidy_tail s'
    else tidy_tail s'
  end.

Definition tidy (s : str) : bool :=
  match s with
  | [] => true
  | x :: s' => negb (is_space x) && tidy_tail s'
  end.

(** The last character is no whitespace. *)
Fixpoint ends_ok (s : str) : bool :=
  match s with
  | [] => true
  | x :: s' =>
    match s' with
    | [] => negb (is_space x)
    | _ :: _ => ends_ok s'
    end
  end.

(** The pattern "\s+". *)
Definition ws_plus : regex := Rep 1 None is_space.

(** The first character is no whitespace. *)
Definition head_ok (s : str) : bool :=
  match s with
  | [] => true
  | x :: _ => negb (is_space x)
  end.

(** Membership in a table of ranges, as a proposition. *)
Fixpoint in_ranges_P (t : list (N * N)) (c : N) : Prop :=
  match t with
  | [] => False
  | r :: t' => (fst r <= c <= snd r)%N \/ in_ranges_P t' c
  end.

(** A string without superscript digits. *)
Definition sup_free (s : str) : Prop := Forall (fun c => _SUP_MAP c = c) s.

(** [str] and [int] agree on a number, which has one to three ASCII digits. *)
Definition small_ok (n : N) : bool :=
  let d := str_of_N n in
  (1 <=? List.length d) && (List.length d <=? 3)
  && forallb is_ascii_digit d
  && (int_of_digits d =? n)%N.

(** What follows an optional period. *)
Definition drop_dot (s : str) : str :=
  match s with
  | x :: s' => if (x =? 46)%N then s' else s
  | [] => []
  end.

(** The third group of a match: absent, or the text of a run of the tail. *)
Definition tail_group (tail : regex) (text : str) (g3 : option str) : Prop :=
  g3 = None
  \/ exists s3 s4 w, In s4 (run tail s3) /\ rest s3 = w ++ rest s4
       /\ pos s4 = pos s3 + List.length w /\ g3 = Some w.

(** A state and a pattern under a map of the characters: [compat f r]
    tells that the classes of [r] do not see the difference. *)
Definition map_state (f : N -> N) (s : state) : state :=
  St (pos s) (option_map f (prev s)) (map f (rest s)) (caps s).

Fixpoint compat (f : N -> N) (r : regex) : Prop :=
  match r with
  | Chr p => forall c, p (f c) = p c
  | Rep _ _ p => forall c, p (f c) = p c
  | Seq r1 r2 | Alt r1 r2 => compat f r1 /\ compat f r2
  | Opt r1 | Grp _ r1 | Ahead r1 => compat f r1
  | WordB => forall c, is_word (f c) = is_word c
  | _ => True
  end.

(** The characters of the class "[IVXLCDMivxlcdm]". *)
Definition roman_letters : list N :=
  [73; 86; 88; 76; 67; 68; 77; 105; 118; 120; 108; 99; 100; 109]%N.

(** The body of a canonical number: a numeral of at most three digits
    with at most one lower-case letter, or a roman numeral in capitals. *)
Definition arabic_body (body : str) : Prop :=
  exists n l, (n < 1000)%N /\ body = str_of_N n ++ l
    /\ (l = [] \/ exists x, l = [x] /\ is_ascii_letter x = true /\ ascii_lower x = x).

Definition roman_body (body : str) : Prop :=
  1 <= List.length body <= 8 /\ Forall (fun c => is_roman_letter c = true) body
  /\ map ascii_upper body = body /\ _is_roman body = true.

(** A footnote is the text of a run of the tail pattern. *)
Definition foot_ok (tail : regex) (foot : option (list N)) : Prop :=
  match foot with
  | None => True
  | Some f =>
    (exists s3 s4, In s4 (run tail s3) /\ rest s3 = f ++ rest s4
       /\ pos s4 = pos s3 + List.length f)
    \/ re_fullmatch tail f = true
  end.

(** Lines 69 and 70 of [normalize_article_number]. *)
Definition preprocess (raw : str) : str :=
  translate (re_sub (Rep 1 None is_space) (u " ") (strip raw)).






(** The text that the pages from the index [i] on add to the full text,
    and the offsets at which they start when the first of them starts at
    [start]. *)
Fixpoint text_from (i : nat) (doc : list (list N)) : list N :=
  match doc with
  | [] => []
  | txt :: doc' => txt ++ page_break i ++ text_from (S i) doc'
  end.

Fixpoint offsets_from (i start : nat) (doc : list (list N)) : list Z :=
  match doc with
  | [] => []
  | txt :: doc' =>
    Z.of_nat start
    :: offsets_from (S i) (start + List.length txt + List.length (page_break i)) doc'
  end.

(** The spans that [process_pdf] turns into records: the segments of the
    headings, or the whole text under the number 1 when there is no
    heading. *)
Definition spans_of (full_text : list N) : list (list N * nat * nat) :=
  match find_articles_segments full_text with
  | seg :: segs => seg :: segs
  | [] => [(u "1", 0, List.length full_text)]
  end.

(** The position of the last character of a span for [span_to_page_range]. *)
Definition last_pos (stop : nat) : Z :=
  if (0 <? Z.of_nat stop)%Z then (Z.of_nat stop - 1)%Z else 0%Z.

(** What [process_pdf] computes for a span. *)
Definition record_of_span (full_text : list N) (page_offsets : list Z)
    (seg : list N * nat * nat) (r : record) : Prop :=
  Pdf2Articles.article_number r = u "Art. " ++ fst (fst seg)
  /\ page_start r = pos_to_page page_offsets (Z.of_nat (snd (fst seg)))
  /\ page_end r = pos_to_page page_offsets (last_pos (snd seg))
  /\ text_full r
     = strip (re_sub PAGE_BREAK_RE [] (strip (slice full_text (snd (fst seg)) (snd seg))))
  /\ text_preview r = make_preview (text_full r) 4000
  /\ text_chars r = List.length (text_full r).

(** Page ranges that follow each other: a record starts on the page on
    which the record before it ends or on the next one, and the last
    record ends on the page [last]. *)
Fixpoint pages_chained (last : Z) (recs : list record) : Prop :=
  match recs with
  | [] => True
  | r :: recs' =>
    match recs' with
    | r' :: _ => (page_end r <= page_start r' <= page_end r + 1)%Z
    | [] => page_end r = last
    end
    /\ pages_chained last recs'
  end.

(** The number of a heading: decimal digits, at least one, and at most
    one letter of the class "[a-zA-Z]" under [re.IGNORECASE]. *)
Definition heading_number (g : list N) : Prop :=
  exists ds l, g = ds ++ l /\ ds <> [] /\ Forall (fun c => is_decimal c = true) ds
    /\ (l = [] \/ exists x, l = [x] /\ is_letter_ci x = true).

(** Whether [main] counts a record as fixed. *)
Definition needs_fix (tail_max : Z) (r : option (list N) * list N * N) : bool :=
  match normalize_article_number (snd (fst r)) tail_max with
  | Some (new_art, foot) =>
    negb (str_eqb new_art (snd (fst r)))
    || match foot with Some (_ :: _) => true | _ => false end
  | None => false
  end.

(** What a pass that writes makes of a node. *)
Definition fixed_node (tail_max : Z) (a : article) : article :=
  match Superscripts.article_number a with
  | Some art =>
    if starts_with_art a then
      match normalize_article_number art tail_max with
      | Some (new_art, foot) =>
        if needs_fix tail_max (Superscripts.doc_id a, art, node_id a)
        then Article (node_id a) (Superscripts.doc_id a) (Some new_art) foot
        else a
      | None => a
      end
    else a
  | None => a
  end.

(** What a record of the query makes of a node. *)
Definition fix_by (tail_max : Z) (a : article) (r : option (list N) * list N * N) : article :=
  if (node_id a =? snd r)%N then
    match normalize_article_number (snd (fst r)) tail_max with
    | Some (new_art, foot) =>
      if needs_fix tail_max r
      then Article (node_id a) (Superscripts.doc_id a) (Some new_art) foot
      else a
    | None => a
    end
  else a.

(** A PDF that cannot be read, or that has no page. *)
Definition no_first_page (file : option (list first_page)) : bool :=
  match file with
  | Some (_ :: _) => false
  | _ => true
  end.

(** Whether the update of a group reaches a node. *)
Definition reached (path : list N) (arts : list art) (a : article_node) : bool :=
  match node_pdf_path a with
  | Some p =>
    str_eqb p path
    && existsb (fun r => str_eqb (Reconciler.article_number r) (node_number a)) arts
  | None => false
  end.

(** The offset [a] is the start of a line of [text]: the start of the
    text, or the offset after a line feed. *)
Definition at_line_start (text : list N) (a : nat) : Prop :=
  a = 0 \/ nth_error text (a - 1) = Some 10%N.

(** A text that starts with a heading: whitespace, the letters a, r and t
    in any case and a period. *)
Definition starts_with_heading (w : list N) : Prop :=
  exists ws x y z tl,
    w = ws ++ x :: y :: z :: 46%N :: tl
    /\ Forall (fun c => is_space c = true) ws
    /\ ascii_lower x = 97%N /\ ascii_lower y = 114%N /\ ascii_lower z = 116%N.

(** The text of a decimal digit in a roman numeral, with the letters of
    one, five and ten units of its rank. *)
Definition digit_text (one five ten : N) (d : nat) : list N :=
  match d with
  | 0 => []
  | 1 => [one]
  | 2 => [one; one]
  | 3 => [one; one; one]
  | 4 => [one; five]
  | 5 => [five]
  | 6 => [five; one]
  | 7 => [five; one; one]
  | 8 => [five; one; one; one]
  | _ => [one; ten]
  end.

(** The numeral of the ranks [k], [h], [t] and [i]: thousands, hundreds,
    tens and units. *)
Definition roman_of (k h t i : nat) : list N :=
  repeat 77%N k ++ digit_text 67 68 77 h ++ digit_text 88 76 67 t ++ digit_text 73 86 88 i.

(** The roman numeral of [n], in capitals, with M repeated for the
    thousands. *)
Definition to_roman (n : nat) : list N :=
  roman_of (n / 1000) (n / 100 mod 10) (n / 10 mod 10) (n mod 10).

(** A capital ASCII letter. *)
Definition capital (c : N) : Prop := (65 <= c <= 90)%N.

(** The Article node of a record of [process_pdf] for the file [path]:
    its number, its document id and its title. *)
Definition node_of_record (path : list N) (r : record) : article_node :=
  ArticleNode (Some path) (Pdf2Articles.article_number r)
              (Some (Pdf2Articles.doc_id r)) (Some (title r)).

(** The identity that [main] computes for a group. *)
Definition identity_of (files : list N -> option (list first_page))
    (stem_of : list N -> list N) (g : pdf_group) : option (list N * list N) :=
  target_identity (probe_pdf_first_page (files (group_pdf_path g))) (group_arts g)
                  (stem_of (group_pdf_path g)).

(** What [main] does to the Article nodes for a group when it commits. *)
Definition commit_group (files : list N -> option (list first_page))
    (stem_of : list N -> list N) (articles : list article_node) (g : pdf_group)
    : list article_node :=
  match identity_of files stem_of g with
  | Some (id, ttl) => set_articles (group_pdf_path g) id ttl (group_arts g) articles
  | None => articles
  end.

(** The nodes of the file [p] carry the id [id] and a title made of their
    number and of [ttl]. *)
Definition settled (p id ttl : list N) (articles : list article_node) : Prop :=
  Forall (fun a => node_pdf_path a = Some p ->
                   node_doc_id a = Some id
                   /\ node_title a = Some (node_number a ++ u ", " ++ ttl))
         articles.

(** The paths and the numbers of the nodes, which no update changes. *)
Definition shape (articles : list article_node) : list (option (list N) * list N) :=
  map (fun a => (node_pdf_path a, node_number a)) articles.

(** The number of groups that [limited] keeps, from the limit and the
    number of groups. *)
Definition limit_count (limit : option Z) (n : nat) : nat :=
  match limit with
  | None => n
  | Some k =>
    if (k =? 0)%Z then n
    else if (0 <? k)%Z then Z.to_nat k
    else n - Z.to_nat (- k)
  end.

(** A digit of a footnote as the OCR leaves it: an ASCII digit or one of
    the superscript digits of [_SUP_MAP]. *)
Definition digit_like (c : N) : bool := is_ascii_digit (_SUP_MAP c).

(** The footnote that a tail gives: none for an empty tail. *)
Definition footnote_of (t : list N) : option (list N) :=
  match t with
  | [] => None
  | _ :: _ => Some t
  end.

(** ** Facts *)

(** *** The matcher *)
Lemma last_or_app w1 w2 pv : last_or (w1 ++ w2) pv = last_or w2 (last_or w1 pv).
Proof. revert pv. induction w1; simpl; auto. Qed.

Lemma steps_refl s : steps s [] s.
Proof. unfold steps. simpl. auto with arith. Qed.

Lemma steps_trans s1 w1 s2 w2 s3 :
  steps s1 w1 s2 -> steps s2 w2 s3 -> steps s1 (w1 ++ w2) s3.
Proof.
  intros (R1 & P1 & V1) (R2 & P2 & V2). unfold steps.
  rewrite R1, R2, P2, P1, V2, V1, length_app, last_or_app, app_assoc. repeat split; lia.
Qed.

Lemma rep_run_inv p lo hi : forall l n ps pv cs s',
  In s' (rep_run p lo hi n ps pv cs l) ->
  exists w, l = w ++ rest s' /\ Forall (fun c => p c = true) w
    /\ pos s' = ps + List.length w /\ prev s' = last_or w pv /\ caps s' = cs
    /\ (lo <= n + N.of_nat (List.length w))%N
    /\ (forall h, hi = Some h -> (n <= h)%N -> (n + N.of_nat (List.length w) <= h)%N).
Proof.
  induction l as [|x l IH]; intros n ps pv cs s' H; simpl in H.
  - destruct (lo <=? n)%N eqn:E; simpl in H; [|now simpl in H].
    destruct H as [<-|[]]. exists []. simpl. apply N.leb_le in E.
    repeat split; auto; try lia; intros; lia.
  - apply in_app_or in H. destruct H as [H|H].
    + destruct (p x) eqn:Px; simpl in H; [|contradiction].
      destruct (below n hi) eqn:B; [|contradiction].
      apply IH in H. destruct H as (w & -> & Hw & Hp & Hv & Hc & Hlo & Hhi).
      exists (x :: w). simpl. repeat split; auto; try lia.
      intros h Hh Hn. subst hi. simpl in B. apply N.ltb_lt in B.
      specialize (Hhi h eq_refl). lia.
    + destruct (lo <=? n)%N eqn:E; simpl in H; [|now simpl in H].
      destruct H as [<-|[]]. exists []. simpl. apply N.leb_le in E.
      repeat split; auto; try lia; intros; lia.
Qed.

Lemma run_steps r : forall s s', In s' (run r s) -> exists w, steps s w s'.
Proof.
  induction r; intros s s' H; simpl in H.
  - destruct H as [<-|[]]. exists []. apply steps_refl.
  - destruct (rest s) as [|x l] eqn:E; [now simpl in H|]. destruct (p x); [|now simpl in H].
    destruct H as [<-|[]]. exists [x]. unfold steps. simpl. rewrite E. repeat split; lia.
  - apply in_flat_map in H. destruct H as (s1 & H1 & H2).
    apply IHr1 in H1. apply IHr2 in H2. destruct H1 as (w1 & H1). destruct H2 as (w2 & H2).
    exists (w1 ++ w2). eapply steps_trans; eauto.
  - apply in_app_or in H. destruct H; auto.
  - apply in_app_or in H. destruct H as [H|[<-|[]]]; auto. exists []. apply steps_refl.
  - apply rep_run_inv in H. destruct H as (w & R & _ & P & V & _).
    exists w. unfold steps. auto.
  - apply in_map_iff in H. destruct H as (s1 & <- & H). apply IHr in H.
    destruct H as (w & H). exists w. exact H.
  - destruct (prev s); [now simpl in H|]. destruct H as [<-|[]]. exists []. apply steps_refl.
  - destruct (prev s) as [c|]; [destruct (c =? 10)%N|]; try (now simpl in H);
      destruct H as [<-|[]]; exists []; apply steps_refl.
  - destruct (rest s) as [|c [|]]; try (now simpl in H); [|destruct (c =? 10)%N; try (now simpl in H)];
      destruct H as [<-|[]]; exists []; apply steps_refl.
  - destruct (rest s) as [|c ?]; [|destruct (c =? 10)%N; try (now simpl in H)];
      destruct H as [<-|[]]; exists []; apply steps_refl.
  - destruct (rest s); [|now simpl in H]. destruct H as [<-|[]]. exists []. apply steps_refl.
  - destruct (xorb _ _); [|now simpl in H]. destruct H as [<-|[]]. exists []. apply steps_refl.
  - destruct (run r s); [now simpl in H|]. destruct H as [<-|[]]. exists []. apply steps_refl.
Qed.

Lemma run_caps r : forall s s', In s' (run r s) ->
  exists new, caps s' = new ++ caps s /\ Forall (fun kv => In (fst kv) (groups r)) new.
Proof.
  induction r; intros s s' H; simpl in H; simpl groups.
  - destruct H as [<-|[]]. exists []. auto.
  - destruct (rest s) as [|x l] eqn:E; [now simpl in H|]. destruct (p x); [|now simpl in H].
    destruct H as [<-|[]]. exists []. auto.
  - apply in_flat_map in H. destruct H as (s1 & H1 & H2).
    apply IHr1 in H1. apply IHr2 in H2.
    destruct H1 as (n1 & E1 & F1). destruct H2 as (n2 & E2 & F2).
    exists (n2 ++ n1). rewrite E2, E1, app_assoc. split; auto.
    apply Forall_app. split; eapply Forall_impl; try eassumption;
      intros a Ha; apply in_or_app; auto.
  - apply in_app_or in H. destruct H as [H|H]; [apply IHr1 in H|apply IHr2 in H];
      destruct H as (n & E & F); exists n; split; auto;
      eapply Forall_impl; try eassumption; intros a Ha; apply in_or_app; auto.
  - apply in_app_or in H. destruct H as [H|[<-|[]]]; auto. exists []. auto.
  - apply rep_run_inv in H. destruct H as (w & _ & _ & _ & _ & C & _).
    exists []. auto.
  - apply in_map_iff in H. destruct H as (s1 & <- & H). apply IHr in H.
    destruct H as (n & E & F). exists ((k, (pos s, pos s1)) :: n). simpl. rewrite E.
    split; auto. constructor; simpl; auto.
    eapply Forall_impl; try eassumption. intros a Ha. simpl. auto.
  - destruct (prev s); [now simpl in H|]. destruct H as [<-|[]]. exists []. auto.
  - destruct (prev s) as [c|]; [destruct (c =? 10)%N|]; try (now simpl in H);
      destruct H as [<-|[]]; exists []; auto.
  - destruct (rest s) as [|c [|]]; try (now simpl in H); [|destruct (c =? 10)%N; try (now simpl in H)];
      destruct H as [<-|[]]; exists []; auto.
  - destruct (rest s) as [|c ?]; [|destruct (c =? 10)%N; try (now simpl in H)];
      destruct H as [<-|[]]; exists []; auto.
  - destruct (rest s); [|now simpl in H]. destruct H as [<-|[]]. exists []. auto.
  - destruct (xorb _ _); [|now simpl in H]. destruct H as [<-|[]]. exists []. auto.
  - destruct (run r s); [now simpl in H|]. destruct H as [<-|[]]. exists []. auto.
Qed.

(** *** Greedy repetition *)
Lemma rep_run_eq p lo hi n ps pv cs l :
  rep_run p lo hi n ps pv cs l =
  (match l with
   | x :: l' =>
     if p x && below n hi then rep_run p lo hi (n + 1) (S ps) (Some x) cs l' else []
   | [] => []
   end)
  ++ (if (lo <=? n)%N then [St ps pv l cs] else []).
Proof. destruct l; reflexivity. Qed.

Lemma rep_run_complete p lo hi : forall w l' n ps pv cs,
  Forall (fun c => p c = true) w ->
  (lo <= n + N.of_nat (List.length w))%N ->
  (forall h, hi = Some h -> (n + N.of_nat (List.length w) <= h)%N) ->
  In (St (ps + List.length w) (last_or w pv) l' cs) (rep_run p lo hi n ps pv cs (w ++ l')).
Proof.
  induction w as [|x w IH]; intros l' n ps pv cs Hw Hlo Hhi.
  - simpl in *. rewrite rep_run_eq. apply in_or_app. right.
    replace (lo <=? n)%N with true by (symmetry; apply N.leb_le; lia).
    rewrite Nat.add_0_r. left. reflexivity.
  - simpl. apply in_or_app. left. inversion Hw as [|? ? Px Hw']; subst.
    rewrite Px. simpl List.length in *.
    assert (B : below n hi = true).
    { destruct hi as [h|]; simpl; auto. apply N.ltb_lt. specialize (Hhi h eq_refl). lia. }
    rewrite B. simpl andb. cbv iota.
    replace (ps + S (List.length w)) with (S ps + List.length w) by lia.
    apply IH; auto; [lia|]. intros h Hh. specialize (Hhi h Hh). lia.
Qed.

Lemma rep_run_greedy p lo hi : forall w l' n ps pv cs,
  Forall (fun c => p c = true) w ->
  (lo <= n + N.of_nat (List.length w))%N ->
  (forall h, hi = Some h -> (n + N.of_nat (List.length w) <= h)%N) ->
  rep_stop p hi (n + N.of_nat (List.length w)) l' ->
  exists Y, rep_run p lo hi n ps pv cs (w ++ l')
            = St (ps + List.length w) (last_or w pv) l' cs :: Y.
Proof.
  induction w as [|x w IH]; intros l' n ps pv cs Hw Hlo Hhi Hstop.
  - simpl in *. rewrite N.add_0_r in *. rewrite Nat.add_0_r. rewrite rep_run_eq.
    replace (lo <=? n)%N with true by (symmetry; apply N.leb_le; lia).
    exists []. destruct Hstop as [->|[(y & l'' & -> & Py)| ->]].
    + reflexivity.
    + rewrite Py. reflexivity.
    + destruct l' as [|y l'']; [reflexivity|]. simpl below.
      rewrite N.ltb_irrefl, andb_false_r. reflexivity.
  - inversion Hw as [|? ? Px Hw']; subst. simpl List.length in *.
    assert (B : below n hi = true).
    { destruct hi as [h|]; simpl; auto. apply N.ltb_lt. specialize (Hhi h eq_refl). lia. }
    destruct (IH l' (n + 1)%N (S ps) (Some x) cs Hw') as (Y & EY).
    + lia.
    + intros h Hh. specialize (Hhi h Hh). lia.
    + replace (n + 1 + N.of_nat (List.length w))%N
        with (n + N.of_nat (S (List.length w)))%N by lia. exact Hstop.
    + simpl. rewrite Px, B. simpl andb. cbv iota. rewrite EY.
      replace (ps + S (List.length w)) with (S ps + List.length w) by lia.
      eexists. reflexivity.
Qed.

Lemma first_run_seq r1 r2 s s1 s2 :
  first_run r1 s s1 -> first_run r2 s1 s2 -> first_run (Seq r1 r2) s s2.
Proof.
  intros (Y1 & E1) (Y2 & E2). unfold first_run. simpl. rewrite E1. simpl. rewrite E2.
  simpl. eexists. reflexivity.
Qed.

Lemma first_run_cat_nil s : first_run (cat []) s s.
Proof. exists []. reflexivity. Qed.

Lemma first_run_cat_cons r rs s s1 s2 :
  first_run r s s1 -> first_run (cat rs) s1 s2 -> first_run (cat (r :: rs)) s s2.
Proof. apply first_run_seq. Qed.

Lemma first_run_opt r s s' : first_run r s s' -> first_run (Opt r) s s'.
Proof. intros (Y & E). unfold first_run. simpl. rewrite E. simpl. eexists. reflexivity. Qed.

Lemma first_run_opt_skip r s : run r s = [] -> first_run (Opt r) s s.
Proof. intros E. unfold first_run. simpl. rewrite E. simpl. eexists. reflexivity. Qed.

Lemma first_run_grp k r s s' :
  first_run r s s' ->
  first_run (Grp k r) s (St (pos s') (prev s') (rest s') ((k, (pos s, pos s')) :: caps s')).
Proof. intros (Y & E). unfold first_run. simpl. rewrite E. simpl. eexists. reflexivity. Qed.

Lemma first_run_chr p ps pv x l cs :
  p x = true -> first_run (Chr p) (St ps pv (x :: l) cs) (St (S ps) (Some x) l cs).
Proof. intros Px. unfold first_run. simpl. rewrite Px. eexists. reflexivity. Qed.

Lemma first_run_rep p lo hi ps pv cs w l' :
  Forall (fun c => p c = true) w ->
  (lo <= N.of_nat (List.length w))%N ->
  (forall h, hi = Some h -> (N.of_nat (List.length w) <= h)%N) ->
  rep_stop p hi (N.of_nat (List.length w)) l' ->
  first_run (Rep lo hi p) (St ps pv (w ++ l') cs)
            (St (ps + List.length w) (last_or w pv) l' cs).
Proof.
  intros Hw Hlo Hhi Hstop. unfold first_run. simpl.
  apply rep_run_greedy; auto.
Qed.

Lemma first_run_match r ps pv l s' :
  first_run r (St ps pv l []) s' ->
  match_here r ps pv l = Some (Match ps (pos s') (caps s')).
Proof. intros (Y & E). unfold match_here. rewrite E. reflexivity. Qed.

Lemma match_here_inv r ps pv l m :
  match_here r ps pv l = Some m ->
  exists s', first_run r (St ps pv l []) s' /\ m = Match ps (pos s') (caps s').
Proof.
  unfold match_here. destruct (run r (St ps pv l [])) as [|s' Y] eqn:E; [discriminate|].
  intros [= <-]. exists s'. split; auto. exists Y. exact E.
Qed.

Lemma first_run_in r s s' : first_run r s s' -> In s' (run r s).
Proof. intros (Y & E). rewrite E. left. reflexivity. Qed.

(** *** Search *)
Lemma search_from_spec r : forall l ps pv,
  match search_from r ps pv l with
  | Some m =>
    exists k, k <= List.length l
      /\ match_here r (ps + k) (last_or (firstn k l) pv) (skipn k l) = Some m
      /\ forall j, j < k ->
           match_here r (ps + j) (last_or (firstn j l) pv) (skipn j l) = None
  | None =>
    forall j, j <= List.length l ->
      match_here r (ps + j) (last_or (firstn j l) pv) (skipn j l) = None
  end.
Proof.
  induction l as [|x l IH]; intros ps pv; simpl.
  - destruct (match_here r ps pv []) eqn:E.
    + exists 0. simpl. rewrite Nat.add_0_r. repeat split; auto; intros j Hj; lia.
    + intros j Hj. assert (j = 0) by lia. subst j. simpl. rewrite Nat.add_0_r. exact E.
  - destruct (match_here r ps pv (x :: l)) eqn:E.
    + exists 0. simpl. rewrite Nat.add_0_r. repeat split; auto; try lia; intros j Hj; lia.
    + specialize (IH (S ps) (Some x)).
      destruct (search_from r (S ps) (Some x) l) as [m|].
      * destruct IH as (k & Hk & Hm & Hn). exists (S k). simpl.
        replace (ps + S k) with (S ps + k) by lia.
        split; [lia|]. split; [exact Hm|].
        intros j Hj. destruct j as [|j]; simpl.
        -- rewrite Nat.add_0_r. exact E.
        -- replace (ps + S j) with (S ps + j) by lia. apply Hn. lia.
      * intros j Hj. destruct j as [|j]; simpl.
        -- rewrite Nat.add_0_r. exact E.
        -- replace (ps + S j) with (S ps + j) by lia. apply IH. lia.
Qed.

Lemma search_skip_spec r : forall start l ps pv,
  match search_skip r start ps pv l with
  | Some m =>
    exists k, start <= k <= List.length l
      /\ match_here r (ps + k) (last_or (firstn k l) pv) (skipn k l) = Some m
      /\ forall j, start <= j < k ->
           match_here r (ps + j) (last_or (firstn j l) pv) (skipn j l) = None
  | None =>
    forall j, start <= j <= List.length l ->
      match_here r (ps + j) (last_or (firstn j l) pv) (skipn j l) = None
  end.
Proof.
  induction start as [|start IH]; intros l ps pv; simpl.
  - pose proof (search_from_spec r l ps pv) as H.
    destruct (search_from r ps pv l) as [m|].
    + destruct H as (k & Hk & Hm & Hn). exists k.
      split; [lia|]. split; [exact Hm|].
      intros j Hj. apply Hn. lia.
    + intros j Hj. apply H. lia.
  - destruct l as [|x l].
    + intros j Hj. simpl in Hj. lia.
    + specialize (IH l (S ps) (Some x)).
      destruct (search_skip r start (S ps) (Some x) l) as [m|].
      * destruct IH as (k & Hk & Hm & Hn). exists (S k). simpl.
        replace (ps + S k) with (S ps + k) by lia.
        split; [lia|]. split; [exact Hm|].
        intros j Hj. destruct j as [|j]; [lia|]. simpl.
        replace (ps + S j) with (S ps + j) by lia. apply Hn. lia.
      * intros j Hj. destruct j as [|j]; [lia|]. simpl in *.
        replace (ps + S j) with (S ps + j) by lia. apply IH. lia.
Qed.

Lemma re_search_some r text start m :
  re_search r text start = Some m ->
  exists k, start <= k <= List.length text /\ match_at r text k = Some m
    /\ forall j, start <= j < k -> match_at r text j = None.
Proof.
  intros H. pose proof (search_skip_spec r start text 0 None) as S.
  unfold re_search in H. rewrite H in S. exact S.
Qed.

Lemma re_search_none r text start :
  re_search r text start = None ->
  forall j, start <= j <= List.length text -> match_at r text j = None.
Proof.
  intros H. pose proof (search_skip_spec r start text 0 None) as S.
  unfold re_search in H. rewrite H in S. exact S.
Qed.

Lemma match_at_start r text k m : match_at r text k = Some m -> m_start m = k.
Proof.
  intros H. apply match_here_inv in H. destruct H as (s' & _ & ->). reflexivity.
Qed.

Lemma steps_pos s w s' : steps s w s' -> pos s' = pos s + List.length w.
Proof. intros (_ & H & _). exact H. Qed.

Lemma run_min_len r : forall s s', In s' (run r s) -> pos s + min_len r <= pos s'.
Proof.
  induction r; intros s s' H;
    try (apply run_steps in H; destruct H as (w & H); apply steps_pos in H; simpl; lia).
  - simpl in H. destruct (rest s) as [|x l]; [now simpl in H|].
    destruct (p x); [|now simpl in H]. destruct H as [<-|[]]. simpl. lia.
  - simpl in H. apply in_flat_map in H. destruct H as (s1 & H1 & H2).
    apply IHr1 in H1. apply IHr2 in H2. simpl. lia.
  - simpl in H. apply in_app_or in H. destruct H as [H|H];
      [apply IHr1 in H|apply IHr2 in H]; simpl; lia.
  - simpl in H. apply rep_run_inv in H. destruct H as (w & _ & _ & P & _ & _ & L & _).
    simpl in *. lia.
  - simpl in H. apply in_map_iff in H. destruct H as (s1 & <- & H). apply IHr in H.
    simpl. exact H.
Qed.

Lemma steps_bound s w s' : steps s w s' ->
  pos s' + List.length (rest s') = pos s + List.length (rest s).
Proof. intros (R & P & _). rewrite R, P, length_app. lia. Qed.

Lemma match_here_span r ps pv l m :
  match_here r ps pv l = Some m ->
  m_start m = ps /\ ps + min_len r <= m_end m <= ps + List.length l.
Proof.
  intros H. apply match_here_inv in H. destruct H as (s' & F & ->). simpl.
  apply first_run_in in F. split; [reflexivity|]. split.
  - apply run_min_len in F. exact F.
  - apply run_steps in F. destruct F as (w & F). apply steps_bound in F. simpl in F. lia.
Qed.

(** *** The segments of a document *)
Lemma finditer_aux_starts r : forall l skip ps pv,
  Forall (fun m => ps <= m_start m /\ m_start m + min_len r <= m_end m <= ps + List.length l)
         (finditer_aux r skip ps pv l)
  /\ StronglySorted (fun a b => m_start a < m_start b) (finditer_aux r skip ps pv l).
Proof.
  induction l as [|x l IH]; intros skip ps pv.
  - destruct skip as [|k]; simpl.
    + destruct (match_here r ps pv []) as [m|] eqn:E.
      * apply match_here_span in E. split; repeat constructor; simpl in *; lia.
      * split; constructor.
    + split; constructor.
  - assert (T : forall k, 
      Forall (fun m => S ps <= m_start m /\ m_start m + min_len r <= m_end m <= ps + S (List.length l))
             (finditer_aux r k (S ps) (Some x) l)).
    { intros k. destruct (IH k (S ps) (Some x)) as [F _].
      eapply Forall_impl; [|exact F]. simpl. intros m Hm. lia. }
    destruct skip as [|k]; simpl.
    + destruct (match_here r ps pv (x :: l)) as [m|] eqn:E.
      * apply match_here_span in E. simpl in E. split.
        -- constructor; [lia|]. eapply Forall_impl; [|apply T]. simpl. intros. lia.
        -- constructor; [apply IH|]. eapply Forall_impl; [|apply T]. simpl. intros. lia.
      * split; [|apply IH]. eapply Forall_impl; [|apply T]. simpl. intros. lia.
    + split; [|apply IH]. eapply Forall_impl; [|apply T]. simpl. intros. lia.
Qed.

Lemma re_finditer_starts r text :
  Forall (fun m => m_start m + min_len r <= m_end m <= List.length text) (re_finditer r text)
  /\ StronglySorted (fun a b => m_start a < m_start b) (re_finditer r text).
Proof.
  destruct (finditer_aux_starts r text 0 0 None) as [F S]. split; [|exact S].
  eapply Forall_impl; [|exact F]. simpl. intros. lia.
Qed.

Lemma slice_to_end text a : slice text a (List.length text) = skipn a text.
Proof.
  unfold slice. apply firstn_all2. rewrite length_skipn. lia.
Qed.

Lemma slice_skipn text a b :
  a <= b -> slice text a b ++ skipn b text = skipn a text.
Proof.
  intros H. unfold slice.
  replace (skipn b text) with (skipn (b - a) (skipn a text)).
  - apply firstn_skipn.
  - rewrite skipn_skipn. f_equal. lia.
Qed.

Lemma segments_of_chained text : forall ms,
  Forall (fun m => m_start m < List.length text) ms ->
  StronglySorted (fun a b => m_start a < m_start b) ms ->
  chained (List.length text) (segments_of text ms)
  /\ map (fun seg => snd (fst seg)) (segments_of text ms) = map m_start ms
  /\ match ms with
     | [] => True
     | m :: _ => concat (map (span_text text) (segments_of text ms)) = skipn (m_start m) text
     end.
Proof.
  induction ms as [|m ms IH]; intros F S; simpl.
  - auto.
  - inversion F as [|? ? Fm F']; subst. inversion S as [|? ? S' Hm]; subst.
    destruct (IH F' S') as (C & M & K). split; [|split].
    + split; [|split; [|exact C]].
      * destruct ms as [|m' ms']; [exact Fm|]. inversion Hm; subst. assumption.
      * destruct ms as [|m' ms']; reflexivity.
    + simpl. f_equal. exact M.
    + unfold span_text at 1. simpl. destruct ms as [|m' ms'].
      * simpl. rewrite app_nil_r. apply slice_to_end.
      * rewrite K. apply slice_skipn. inversion Hm; subst. lia.
Qed.

Lemma heading_min_len : min_len ART_HEADING_RE = 5.
Proof. reflexivity. Qed.

(** Claim C3, as amended.  No span of [find_articles_segments] is empty; a
    span ends where the next one starts and the last one at the end of the
    text; the spans start where the heading matches start; and their
    concatenation is the text from the start of the first heading on, so
    that the text is what precedes the first heading followed by the
    spans. *)
Theorem find_articles_segments_partition (full_text : str) :
  let segs := find_articles_segments full_text in
  chained (List.length full_text) segs
  /\ map (fun seg => snd (fst seg)) segs = map m_start (re_finditer ART_HEADING_RE full_text)
  /\ match segs with
     | [] => True
     | (_, a, _) :: _ =>
       concat (map (span_text full_text) segs) = skipn a full_text
       /\ full_text = firstn a full_text ++ concat (map (span_text full_text) segs)
     end.
Proof.
  intros segs. subst segs. unfold find_articles_segments.
  destruct (re_finditer_starts ART_HEADING_RE full_text) as [F S].
  rewrite heading_min_len in F.
  destruct (segments_of_chained full_text (re_finditer ART_HEADING_RE full_text)) as (C & M & K).
  - eapply Forall_impl; [|exact F]. simpl. intros. lia.
  - exact S.
  - split; [exact C|]. split; [exact M|].
    destruct (re_finditer ART_HEADING_RE full_text) as [|m ms]; simpl; [exact I|].
    simpl in K. split; [exact K|]. rewrite K. symmetry. apply firstn_skipn.
Qed.

(** The text before the first heading is in no span. *)
Lemma find_articles_segments_preamble :
  let full_text := u "x
Art. 1
foo" in
  find_articles_segments full_text = [(u "1", 2, 12)]
  /\ concat (map (span_text full_text) (find_articles_segments full_text)) <> full_text.
Proof.
  split; [vm_compute; reflexivity|]. vm_compute. discriminate.
Qed.

(** *** The successes of the constructs *)
Lemma in_run_cat_cons r rs s s' :
  In s' (run (cat (r :: rs)) s) <-> exists s1, In s1 (run r s) /\ In s' (run (cat rs) s1).
Proof.
  simpl. rewrite in_flat_map. reflexivity.
Qed.

Lemma in_run_cat_nil s s' : In s' (run (cat []) s) <-> s' = s.
Proof. simpl. split; [intros [<-|[]]; reflexivity|intros ->; auto]. Qed.

Lemma in_run_wordb s s' :
  In s' (run WordB s) <->
  s' = s /\ xorb (word_at (prev s)) (word_at (hd_error (rest s))) = true.
Proof.
  simpl. destruct (xorb _ _); simpl; split.
  - intros [<-|[]]. auto.
  - intros [-> _]. auto.
  - intros [].
  - intros [_ H]. discriminate.
Qed.

Lemma in_run_chr p s s' :
  In s' (run (Chr p) s) <->
  exists x l, rest s = x :: l /\ p x = true /\ s' = St (S (pos s)) (Some x) l (caps s).
Proof.
  simpl. destruct (rest s) as [|x l]; simpl.
  - split; [intros []|intros (x & l & H & _); discriminate].
  - destruct (p x) eqn:Px; simpl; split.
    + intros [<-|[]]. exists x, l. auto.
    + intros (x' & l' & [= <- <-] & _ & ->). auto.
    + intros [].
    + intros (x' & l' & [= <- <-] & Px' & _). congruence.
Qed.

Lemma in_run_rep lo hi p s s' :
  In s' (run (Rep lo hi p) s) <->
  exists w, rest s = w ++ rest s' /\ Forall (fun c => p c = true) w
    /\ pos s' = pos s + List.length w /\ prev s' = last_or w (prev s) /\ caps s' = caps s
    /\ (lo <= N.of_nat (List.length w))%N
    /\ (forall h, hi = Some h -> (N.of_nat (List.length w) <= h)%N).
Proof.
  simpl. split.
  - intros H. apply rep_run_inv in H.
    destruct H as (w & R & F & P & V & C & L & U). exists w.
    repeat split; auto; try lia. intros h Hh. specialize (U h Hh). lia.
  - intros (w & R & F & P & V & C & L & U). rewrite R.
    replace s' with (St (pos s + List.length w) (last_or w (prev s)) (rest s') (caps s)).
    + apply rep_run_complete; auto.
    + destruct s'. simpl in *. congruence.
Qed.

Lemma in_run_grp k r s s' :
  In s' (run (Grp k r) s) <->
  exists s1, In s1 (run r s)
    /\ s' = St (pos s1) (prev s1) (rest s1) ((k, (pos s, pos s1)) :: caps s1).
Proof.
  simpl. rewrite in_map_iff. split; intros (s1 & A & B); exists s1; auto.
Qed.

Lemma in_run_opt r s s' : In s' (run (Opt r) s) <-> In s' (run r s) \/ s' = s.
Proof.
  simpl. rewrite in_app_iff. simpl. intuition.
Qed.

Lemma in_run_caret s s' : In s' (run Caret s) <-> s' = s /\ prev s = None.
Proof.
  simpl. destruct (prev s); simpl; split.
  - intros [].
  - intros [_ H]. discriminate.
  - intros [<-|[]]. auto.
  - intros [-> _]. auto.
Qed.

Lemma in_run_dollar s s' :
  In s' (run Dollar s) <-> s' = s /\ (rest s = [] \/ rest s = [10%N]).
Proof.
  simpl. destruct (rest s) as [|c [|c' l]]; simpl.
  - split; [intros [<-|[]]; auto|intros [-> _]; auto].
  - destruct (c =? 10)%N eqn:E; simpl.
    + apply N.eqb_eq in E. subst c. split; [intros [<-|[]]; auto|intros [-> _]; auto].
    + apply N.eqb_neq in E. split; [intros []|intros [_ [H|H]]; congruence].
  - split; [intros []|intros [_ [H|H]]; discriminate].
Qed.

Lemma in_run_endz s s' : In s' (run EndZ s) <-> s' = s /\ rest s = [].
Proof.
  simpl. destruct (rest s); simpl.
  - split; [intros [<-|[]]; auto|intros [-> _]; auto].
  - split; [intros []|intros [_ H]; discriminate].
Qed.

(** *** The document id *)
Lemma in_ranges_sub t1 t2 :
  forallb (fun r => existsb (fun r' => (fst r' <=? fst r)%N && (snd r <=? snd r')%N) t2) t1 = true ->
  forall c, in_ranges t1 c = true -> in_ranges t2 c = true.
Proof.
  intros H c Hc. unfold in_ranges in *. rewrite forallb_forall in H.
  apply existsb_exists in Hc. destruct Hc as (r & Hr & Hc).
  apply H in Hr. apply existsb_exists in Hr. destruct Hr as (r' & Hr' & Hs).
  apply existsb_exists. exists r'. split; auto.
  apply andb_true_iff in Hc. apply andb_true_iff in Hs.
  rewrite !N.leb_le in *. apply andb_true_iff. rewrite !N.leb_le. lia.
Qed.

Lemma is_decimal_word c : is_decimal c = true -> is_word c = true.
Proof.
  apply in_ranges_sub. vm_compute. reflexivity.
Qed.

Lemma last_or_forall (P : char -> Prop) : forall w pv,
  w <> [] -> Forall P w -> exists x, last_or w pv = Some x /\ P x.
Proof.
  induction w as [|x w IH]; intros pv Hne F; [congruence|].
  inversion F as [|? ? Px F']; subst. destruct w as [|y w'].
  - exists x. simpl. auto.
  - simpl. apply (IH (Some x)); [discriminate|exact F'].
Qed.

Lemma is_char_eq a c : is_char a c = true <-> c = a.
Proof. unfold is_char. apply N.eqb_eq. Qed.

Lemma doc_id_run_sound s s' :
  In s' (run DOC_ID_RE s) ->
  exists d, rest s = d ++ rest s' /\ pos s' = pos s + List.length d /\ dotted3 d
    /\ word_at (prev s) = false /\ word_at (hd_error (rest s')) = false.
Proof.
  unfold DOC_ID_RE. intros H.
  apply in_run_cat_cons in H. destruct H as (s0 & H0 & H). apply in_run_wordb in H0.
  destruct H0 as [-> B0].
  apply in_run_cat_cons in H. destruct H as (s1 & H1 & H). apply in_run_rep in H1.
  destruct H1 as (g1 & R1 & F1 & P1 & V1 & _ & L1 & U1).
  apply in_run_cat_cons in H. destruct H as (s2 & H2 & H). apply in_run_chr in H2.
  destruct H2 as (x2 & l2 & R2 & X2 & ->). apply is_char_eq in X2. subst x2.
  apply in_run_cat_cons in H. destruct H as (s3 & H3 & H). apply in_run_rep in H3.
  destruct H3 as (g2 & R3 & F3 & P3 & V3 & _ & L3 & U3). simpl in R3, P3, V3.
  apply in_run_cat_cons in H. destruct H as (s4 & H4 & H). apply in_run_chr in H4.
  destruct H4 as (x4 & l4 & R4 & X4 & ->). apply is_char_eq in X4. subst x4.
  apply in_run_cat_cons in H. destruct H as (s5 & H5 & H). apply in_run_rep in H5.
  destruct H5 as (g3 & R5 & F5 & P5 & V5 & _ & L5 & U5). simpl in R5, P5, V5.
  apply in_run_cat_cons in H. destruct H as (s6 & H6 & H). apply in_run_wordb in H6.
  destruct H6 as [-> B6]. apply in_run_cat_nil in H. subst s'.
  specialize (U1 3%N eq_refl). specialize (U3 3%N eq_refl). specialize (U5 3%N eq_refl).
  assert (D1 : digits13 g1) by (split; [lia|exact F1]).
  assert (D2 : digits13 g2) by (split; [lia|exact F3]).
  assert (D3 : digits13 g3) by (split; [lia|exact F5]).
  exists (g1 ++ 46%N :: g2 ++ 46%N :: g3). repeat split.
  - rewrite R1, R2, R3, R4, R5. rewrite <- !app_assoc. simpl. rewrite <- !app_assoc.
    reflexivity.
  - rewrite P5, P3, P1. rewrite !length_app. simpl. rewrite !length_app. simpl. lia.
  - exists g1, g2, g3. auto.
  - rewrite R1 in B0. destruct g1 as [|c g1']; [simpl in L1; lia|]. simpl in B0.
    inversion F1; subst. rewrite (is_decimal_word c) in B0 by assumption.
    destruct (word_at (prev s)); [discriminate|reflexivity].
  - destruct (last_or_forall (fun c => is_decimal c = true) g3 (Some 46%N)) as (x & E & Dx);
      [destruct g3; [simpl in L5; lia|discriminate]|exact F5|].
    rewrite V5, E in B6. simpl in B6. rewrite (is_decimal_word x Dx) in B6.
    destruct (word_at (hd_error (rest s5))); [discriminate|reflexivity].
Qed.

Lemma doc_id_run_complete s d post :
  rest s = d ++ post -> dotted3 d ->
  word_at (prev s) = false -> word_at (hd_error post) = false ->
  run DOC_ID_RE s <> [].
Proof.
  intros R (g1 & g2 & g3 & -> & (L1 & F1) & (L2 & F2) & (L3 & F3)) B0 B6.
  set (s1 := St (pos s + List.length g1) (last_or g1 (prev s))
                (46%N :: g2 ++ 46%N :: g3 ++ post) (caps s)).
  set (s2 := St (S (pos s1)) (Some 46%N) (g2 ++ 46%N :: g3 ++ post) (caps s)).
  set (s3 := St (pos s2 + List.length g2) (last_or g2 (prev s2)) (46%N :: g3 ++ post) (caps s)).
  set (s4 := St (S (pos s3)) (Some 46%N) (g3 ++ post) (caps s)).
  set (s5 := St (pos s4 + List.length g3) (last_or g3 (prev s4)) post (caps s)).
  assert (H : In s5 (run DOC_ID_RE s)).
  { unfold DOC_ID_RE.
    apply in_run_cat_cons. exists s. split.
    { apply in_run_wordb. split; auto. rewrite R, B0.
      destruct g1 as [|c g1']; [simpl in L1; lia|]. simpl. inversion F1; subst.
      rewrite is_decimal_word; auto. }
    apply in_run_cat_cons. exists s1. split.
    { apply in_run_rep. exists g1. simpl. rewrite R.
      repeat (rewrite <- app_assoc; simpl).
      repeat split; auto; try lia; try (intros h [= <-]; lia). }
    apply in_run_cat_cons. exists s2. split.
    { apply in_run_chr. exists 46%N, (g2 ++ 46%N :: g3 ++ post). simpl. auto. }
    apply in_run_cat_cons. exists s3. split.
    { apply in_run_rep. exists g2. simpl.
      repeat split; auto; try lia; try (intros h [= <-]; lia). }
    apply in_run_cat_cons. exists s4. split.
    { apply in_run_chr. exists 46%N, (g3 ++ post). simpl. auto. }
    apply in_run_cat_cons. exists s5. split.
    { apply in_run_rep. exists g3. simpl.
      repeat split; auto; try lia; try (intros h [= <-]; lia). }
    apply in_run_cat_cons. exists s5. split.
    { apply in_run_wordb. split; auto. simpl.
      destruct (last_or_forall (fun c => is_decimal c = true) g3 (Some 46%N)) as (x & E & Dx);
        [destruct g3; [simpl in L3; lia|discriminate]|exact F3|].
      rewrite E, B6. simpl. rewrite is_decimal_word; auto. }
    apply in_run_cat_nil. reflexivity. }
  intros E. rewrite E in H. exact H.
Qed.

(** *** Pages of a span *)
Lemma nondecreasing_tail {o offs} : nondecreasing (o :: offs) -> nondecreasing offs.
Proof.
  intros H i j Hij. apply (H (S i) (S j)). simpl. lia.
Qed.

Lemma pos_to_page_loop_spec pos : forall offs i p r,
  nondecreasing offs ->
  pos_to_page_loop pos offs i p = r ->
  (r = p /\ match offs with [] => True | o :: _ => (pos < o)%Z end)
  \/ exists k, (k < length offs)%nat /\ r = (i + Z.of_nat k)%Z
       /\ (nth k offs 0 <= pos)%Z
       /\ forall j, (k < j < length offs)%nat -> (pos < nth j offs 0)%Z.
Proof.
  induction offs as [|o offs IH]; intros i p r Hs Hr; simpl in Hr.
  - left. auto.
  - destruct (o <=? pos)%Z eqn:E.
    + right. apply Z.leb_le in E.
      destruct (IH _ _ _ (nondecreasing_tail Hs) Hr) as [[-> Hhd]|(k & Hk & -> & Hn & Hj)].
      * exists 0%nat. simpl. repeat split; try lia.
        intros j Hj. destruct offs as [|o' offs']; [simpl in Hj; lia|].
        simpl in Hj, Hhd.
        assert (H1 := Hs 1%nat j ltac:(simpl; lia)). simpl in H1.
        destruct j; [lia|]. simpl. lia.
      * exists (S k). simpl. repeat split; try lia.
        intros j Hj'. destruct j; [lia|]. simpl in Hj'. apply Hj. lia.
    + left. apply Z.leb_gt in E. auto.
Qed.

Lemma pos_to_page_loop_mono offs : forall pos pos' i p,
  (pos <= pos')%Z -> (p <= i)%Z ->
  (p <= pos_to_page_loop pos offs i p <= pos_to_page_loop pos' offs i p)%Z.
Proof.
  induction offs as [|o offs IH]; intros pos pos' i p Hp Hi; simpl.
  - lia.
  - destruct (o <=? pos)%Z eqn:E.
    + apply Z.leb_le in E. assert (E' : (o <=? pos')%Z = true) by (apply Z.leb_le; lia).
      rewrite E'. specialize (IH pos pos' (i + 1)%Z i Hp ltac:(lia)). lia.
    + destruct (o <=? pos')%Z eqn:E'.
      * specialize (IH pos' pos' (i + 1)%Z i ltac:(lia) ltac:(lia)). lia.
      * lia.
Qed.

Lemma pos_to_page_mono offs pos pos' :
  (pos <= pos')%Z -> (pos_to_page offs pos <= pos_to_page offs pos')%Z.
Proof.
  intros H. unfold pos_to_page.
  pose proof (pos_to_page_loop_mono offs pos pos' 0 0 H ltac:(lia)). lia.
Qed.

Lemma pos_to_page_rule rest pos :
  nondecreasing (0%Z :: rest) -> (0 <= pos)%Z ->
  page_of (0%Z :: rest) pos (pos_to_page (0%Z :: rest) pos).
Proof.
  intros Hs Hpos. unfold pos_to_page.
  destruct (pos_to_page_loop_spec pos _ 0 0 _ Hs eq_refl) as [[_ Hhd]|(k & Hk & Hr & Hn & Hj)].
  - simpl in Hhd. lia.
  - rewrite Hr. unfold page_of. repeat split; try lia.
    + replace (Z.to_nat (0 + Z.of_nat k + 1 - 1)) with k by lia. exact Hn.
    + intros j Hjr. apply Hj. lia.
Qed.

(** Claim C4, as amended.  For page offsets that start with 0 and do not
    decrease, and for 0 <= start <= end: page_start and page_end are the
    pages of start and of max(end - 1, 0), a page of an offset being the
    highest page whose start offset is at most the offset; both lie
    between 1 and the number of pages; and page_start <= page_end when
    the span is not empty or starts at offset 0. *)
Theorem span_to_page_range_pages (start_idx end_idx : Z) (rest : list Z) :
  nondecreasing (0%Z :: rest) ->
  (0 <= start_idx <= end_idx)%Z ->
  let offs := (0%Z :: rest) in
  let p1 := fst (span_to_page_range start_idx end_idx offs) in
  let p2 := snd (span_to_page_range start_idx end_idx offs) in
  page_of offs start_idx p1
  /\ page_of offs (Z.max (end_idx - 1) 0) p2
  /\ (1 <= p1 <= Z.of_nat (length offs))%Z
  /\ (1 <= p2 <= Z.of_nat (length offs))%Z
  /\ ((start_idx < end_idx)%Z \/ start_idx = 0%Z -> (p1 <= p2)%Z).
Proof.
  intros Hs Hse offs p1 p2. subst p1 p2. unfold span_to_page_range. simpl fst. simpl snd.
  replace (if (0 <? end_idx)%Z then (end_idx - 1)%Z else 0%Z) with (Z.max (end_idx - 1) 0)
    by (destruct (0 <? end_idx)%Z eqn:E; [apply Z.ltb_lt in E|apply Z.ltb_ge in E]; lia).
  assert (H1 := pos_to_page_rule rest start_idx Hs ltac:(lia)).
  assert (H2 := pos_to_page_rule rest (Z.max (end_idx - 1) 0) Hs ltac:(lia)).
  split; [exact H1|]. split; [exact H2|].
  split; [apply H1|]. split; [apply H2|].
  intros Hlt. apply pos_to_page_mono. lia.
Qed.

(** The span from 3 to 25 over pages that start at 0, 10 and 20. *)
Lemma span_to_page_range_pages_witness :
  span_to_page_range 3 25 [0; 10; 20]%Z = (1, 3)%Z
  /\ page_of [0; 10; 20]%Z 3 1 /\ page_of [0; 10; 20]%Z 24 3.
Proof.
  assert (Hs : nondecreasing [0; 10; 20]%Z).
  { intros i j Hij. simpl in Hij.
    destruct i as [|[|[|i]]]; destruct j as [|[|[|j]]]; simpl; lia. }
  pose proof (span_to_page_range_pages 3 25 [10; 20]%Z Hs ltac:(lia)) as H.
  split; [reflexivity|]. split; apply H.
Defined.

(** An empty span at the start of the second page has page_start = 2 and
    page_end = 1. *)
Lemma span_to_page_range_empty_span :
  span_to_page_range 10 10 [0; 10]%Z = (2, 1)%Z
  /\ ~ (fst (span_to_page_range 10 10 [0; 10]%Z) <= snd (span_to_page_range 10 10 [0; 10]%Z))%Z.
Proof.
  split; [reflexivity|]. vm_compute. intros H. apply H. reflexivity.
Qed.

(** Claim C2.  With a tail bound of 2 the input "Art.7064" gives the number
    "Art. 706" and the footnote "4", where the docstring of the module
    announces "Art. 70" and "64": the three digits of the numeral are taken
    first.  The four other examples of the docstring give what it
    announces. *)
Theorem normalize_article_number_examples :
  normalize_article_number (u "Art.7064") 2 = Some (u "Art. 706", Some (u "4"))
  /\ normalize_article_number (u "Art. 70a³") 2 = Some (u "Art. 70a", Some (u "3"))
  /\ normalize_article_number (u "Art. IV²") 2 = Some (u "Art. IV", Some (u "2"))
  /\ normalize_article_number (u "Art. 70a") 2 = Some (u "Art. 70a", None)
  /\ normalize_article_number (u "art  70A 12") 2 = Some (u "Art. 70a", Some (u "12")).
Proof.
  repeat split; vm_compute; reflexivity.
Qed.

(** Claim C5.  When the first page gives a title and no id, the new doc_id
    is the doc_id of the first article of the group that has one: for the
    ids A, B, B it is A, although B occurs twice and A once. *)
Theorem fallback_doc_id_takes_first :
  let arts := [Art (Some (u "A")) (u "Art. 1"); Art (Some (u "B")) (u "Art. 2");
               Art (Some (u "B")) (u "Art. 3")] in
  target_identity (None, Some (u "Loi")) arts (u "file") = Some (u "A", u "Loi")
  /\ count_id (u "A") (old_ids arts) = 1
  /\ count_id (u "B") (old_ids arts) = 2.
Proof.
  repeat split; vm_compute; reflexivity.
Qed.

(** *** The update of a group *)
Lemma str_eqb_refl d : str_eqb d d = true.
Proof. unfold str_eqb. destruct (list_eq_dec N.eq_dec d d); congruence. Qed.

Lemma doc_lookup_set d t docs : doc_lookup d (doc_set d t docs) = Some t.
Proof.
  induction docs as [|[d' t'] docs IH]; simpl.
  - now rewrite str_eqb_refl.
  - destruct (str_eqb d d') eqn:E; simpl.
    + now rewrite str_eqb_refl.
    + now rewrite E.
Qed.

(** Claim C6.  When the title recomputed for a file is the placeholder
    "Titre inconnu", the update of the group writes the placeholder over
    the title of the Document that exists for the recomputed doc_id. *)
Theorem update_group_overwrites_title
    (docs : documents) (c : char) (d : str) (old : option str) (arts : list art) (stem : str) :
  doc_lookup (c :: d) docs = Some old ->
  doc_lookup (c :: d)
    (update_group docs (Some (c :: d), Some (u "Titre inconnu")) arts stem)
  = Some (Some (u "Titre inconnu")).
Proof.
  intros H. unfold update_group, target_identity, merge_document.
  change (truthy (Some (c :: d))) with true. cbn [negb andb].
  change (u "Titre inconnu") with (84%N :: tl (u "Titre inconnu")).
  cbv iota beta. rewrite H. unfold coalesce. apply doc_lookup_set.
Qed.

Lemma firstn_app_exact {A} (l1 l2 : list A) : firstn (List.length l1) (l1 ++ l2) = l1.
Proof.
  rewrite firstn_app, Nat.sub_diag, firstn_all. simpl. apply app_nil_r.
Qed.

Lemma skipn_app_exact {A} (l1 l2 : list A) : skipn (List.length l1) (l1 ++ l2) = l2.
Proof.
  rewrite skipn_app, Nat.sub_diag, skipn_all. reflexivity.
Qed.

Lemma slice_app_mid (w0 w l : list N) :
  slice (w0 ++ w ++ l) (List.length w0) (List.length w0 + List.length w) = w.
Proof.
  unfold slice. rewrite skipn_app_exact.
  replace (List.length w0 + List.length w - List.length w0) with (List.length w) by lia.
  apply firstn_app_exact.
Qed.

Lemma doc_id_match_sound text k m :
  k <= List.length text ->
  match_at DOC_ID_RE text k = Some m ->
  exists pre post, List.length pre = k /\ doc_id_at text pre (group0 text m) post.
Proof.
  intros Hk H. unfold match_at in H. apply match_here_inv in H.
  destruct H as (s' & F & ->). apply first_run_in in F.
  apply doc_id_run_sound in F. simpl in F.
  destruct F as (d & R & P & D & B0 & B6).
  exists (firstn k text), (rest s').
  assert (L : List.length (firstn k text) = k) by (rewrite length_firstn; lia).
  assert (T : text = firstn k text ++ d ++ rest s').
  { rewrite <- R. symmetry. apply firstn_skipn. }
  split; [exact L|]. unfold group0. simpl. rewrite P.
  replace (slice text k (k + List.length d)) with d.
  - repeat split; auto.
  - pose proof (slice_app_mid (firstn k text) d (rest s')) as Q.
    rewrite <- T, L in Q. symmetry. exact Q.
Qed.

Lemma doc_id_match_complete text pre d post :
  doc_id_at text pre d post -> match_at DOC_ID_RE text (List.length pre) <> None.
Proof.
  intros (T & D & B0 & B6). unfold match_at, match_here. subst text.
  rewrite firstn_app_exact, skipn_app_exact.
  pose proof (doc_id_run_complete (St (List.length pre) (last_or pre None) (d ++ post) [])
                d post eq_refl D B0 B6) as H.
  destruct (run DOC_ID_RE _); [congruence|discriminate].
Qed.

(** Claim C8, as amended.  [guess_doc_id_from_first_page] returns the
    leftmost occurrence of three groups of one to three decimal digits
    joined by periods, with no word character before it and none after
    it, and this is then the doc_id; it returns [None] exactly when the
    text has no such occurrence, and the doc_id is then the stem of the
    file name. *)
Theorem guess_doc_id_spec (page_text stem : str) :
  (forall d, guess_doc_id_from_first_page page_text = Some d ->
     process_pdf_doc_id page_text stem = d
     /\ exists pre post, doc_id_at page_text pre d post
          /\ forall pre' d' post', doc_id_at page_text pre' d' post' ->
               List.length pre <= List.length pre')
  /\ (guess_doc_id_from_first_page page_text = None <->
      forall pre d post, ~ doc_id_at page_text pre d post)
  /\ (guess_doc_id_from_first_page page_text = None ->
      process_pdf_doc_id page_text stem = stem).
Proof.
  assert (S : forall d, guess_doc_id_from_first_page page_text = Some d ->
     exists pre post, doc_id_at page_text pre d post
          /\ forall pre' d' post', doc_id_at page_text pre' d' post' ->
               List.length pre <= List.length pre').
  { intros d H. unfold guess_doc_id_from_first_page in H.
    destruct (re_search DOC_ID_RE page_text 0) as [m|] eqn:E; [|discriminate].
    injection H as <-. apply re_search_some in E.
    destruct E as (k & Hk & Hm & Hn).
    destruct (doc_id_match_sound page_text k m ltac:(lia) Hm) as (pre & post & L & D).
    exists pre, post. split; [exact D|].
    intros pre' d' post' D'. rewrite L.
    destruct (Nat.le_gt_cases k (List.length pre')) as [|Hlt]; [assumption|].
    exfalso. apply (doc_id_match_complete _ _ _ _ D'). apply Hn. lia. }
  split; [|split].
  - intros d H. split; [|apply S; exact H].
    destruct (S d H) as (pre & post & (_ & (g1 & g2 & g3 & -> & (L1 & _) & _) & _) & _).
    unfold process_pdf_doc_id. rewrite H.
    destruct g1 as [|c g1]; [simpl in L1; lia|]. reflexivity.
  - split.
    + intros H pre d post D. unfold guess_doc_id_from_first_page in H.
      destruct (re_search DOC_ID_RE page_text 0) as [m|] eqn:E; [discriminate|].
      apply (doc_id_match_complete _ _ _ _ D).
      apply (re_search_none _ _ _ E). split; [lia|].
      destruct D as (-> & _). rewrite length_app. lia.
    + intros H. destruct (guess_doc_id_from_first_page page_text) as [d|] eqn:E; [|reflexivity].
      destruct (S d eq_refl) as (pre & post & D & _). exfalso. exact (H _ _ _ D).
  - intros H. unfold process_pdf_doc_id. rewrite H. reflexivity.
Qed.

(** Two groups of digits joined by a period are no document id. *)
Lemma guess_doc_id_two_groups :
  guess_doc_id_from_first_page (u "12.34") = None
  /\ dotted_upto3 (u "12.34")
  /\ process_pdf_doc_id (u "12.34") (u "loi") = u "loi".
Proof.
  split; [vm_compute; reflexivity|]. split; [|vm_compute; reflexivity].
  exists [u "12"; u "34"]. split; [simpl; lia|]. split; [|vm_compute; reflexivity].
  repeat constructor; vm_compute; try reflexivity; discriminate.
Qed.

(** The id of a page that starts with "RS 0.747.205". *)
Lemma guess_doc_id_spec_witness :
  guess_doc_id_from_first_page (u "RS 0.747.205 Texte original") = Some (u "0.747.205")
  /\ process_pdf_doc_id (u "RS 0.747.205 Texte original") (u "loi") = u "0.747.205"
  /\ exists pre post, doc_id_at (u "RS 0.747.205 Texte original") pre (u "0.747.205") post.
Proof.
  assert (E : guess_doc_id_from_first_page (u "RS 0.747.205 Texte original")
              = Some (u "0.747.205")) by (vm_compute; reflexivity).
  destruct (guess_doc_id_spec (u "RS 0.747.205 Texte original") (u "loi")) as (H & _ & _).
  destruct (H _ E) as (P & pre & post & D & _).
  split; [exact E|]. split; [exact P|]. exists pre, post. exact D.
Defined.

(** *** The title of the first page *)
Lemma first_title_line_some : forall lines t,
  first_title_line lines = Some t ->
  exists l1 line l2, lines = l1 ++ line :: l2 /\ t = strip line
    /\ is_title_line t = true
    /\ Forall (fun l => is_title_line (strip l) = false) l1.
Proof.
  induction lines as [|line lines IH]; intros t H; simpl in H; [discriminate|].
  destruct (is_title_line (strip line)) eqn:E.
  - injection H as <-. exists [], line, lines. repeat split; auto.
  - destruct (IH t H) as (l1 & line' & l2 & -> & -> & T & F).
    exists (line :: l1), line', l2. repeat split; auto.
Qed.

Lemma first_title_line_first : forall l1 line l2,
  Forall (fun l => is_title_line (strip l) = false) l1 ->
  is_title_line (strip line) = true ->
  first_title_line (l1 ++ line :: l2) = Some (strip line).
Proof.
  induction l1 as [|l l1 IH]; intros line l2 F T; simpl.
  - rewrite T. reflexivity.
  - inversion F as [|? ? Hl F']; subst. rewrite Hl. apply IH; assumption.
Qed.

Lemma first_title_line_none : forall lines,
  Forall (fun l => is_title_line (strip l) = false) lines ->
  first_title_line lines = None.
Proof.
  induction lines as [|l lines IH]; intros F; simpl; [reflexivity|].
  inversion F as [|? ? Hl F']; subst. rewrite Hl. apply IH. assumption.
Qed.

Lemma is_title_line_nonempty t : is_title_line t = true -> t <> [].
Proof.
  unfold is_title_line. destruct t; simpl; [discriminate|discriminate].
Qed.

Lemma slice_nil a b : slice [] a b = [].
Proof. unfold slice. rewrite skipn_nil. apply firstn_nil. Qed.

Lemma title_fallback_nonempty (norm raw_page_text : list N) :
  _title_between_markers_fallback norm raw_page_text <> [].
Proof.
  unfold _title_between_markers_fallback.
  destruct (clean_segment _) as [|c seg]; [|discriminate].
  destruct (first_title_line (splitlines raw_page_text)) as [t|] eqn:E.
  - apply first_title_line_some in E. destruct E as (_ & _ & _ & _ & _ & T & _).
    apply is_title_line_nonempty. exact T.
  - discriminate.
Qed.

Lemma guess_doc_title_nonempty lines norm_top page_text norm_page :
  guess_doc_title_from_first_page lines norm_top page_text norm_page <> [].
Proof.
  pose proof (title_fallback_nonempty norm_page page_text) as F.
  unfold guess_doc_title_from_first_page.
  destruct lines; [exact F|].
  destruct (marker_segment norm_top _); [|exact F].
  destruct (clean_segment _); [exact F|discriminate].
Qed.

(** Claim C9.  The title detector returns a string that is not empty, for
    every text of the page and also for the empty one.  When the markers
    cut a segment that the cleaning does not empty, the title is that
    segment cleaned.  Otherwise it is the first line which, stripped, is
    not empty, is no bare document id and does not start with "texte
    original" in any case, and it is the placeholder when no line is such
    a line. *)
Theorem title_fallback_total (norm raw_page_text : list N) :
  let title := _title_between_markers_fallback norm raw_page_text in
  title <> []
  /\ (forall lines norm_top,
        guess_doc_title_from_first_page lines norm_top raw_page_text norm <> [])
  /\ (clean_segment (marker_text norm raw_page_text) <> [] ->
      title = clean_segment (marker_text norm raw_page_text))
  /\ (clean_segment (marker_text norm raw_page_text) = [] ->
      (forall l1 line l2,
         splitlines raw_page_text = l1 ++ line :: l2 ->
         Forall (fun l => is_title_line (strip l) = false) l1 ->
         is_title_line (strip line) = true ->
         title = strip line)
      /\ (Forall (fun l => is_title_line (strip l) = false) (splitlines raw_page_text) ->
          title = TITRE_INCONNU))
  /\ (raw_page_text = [] -> title = TITRE_INCONNU).
Proof.
  intros title. subst title.
  split; [apply title_fallback_nonempty|].
  split; [intros; apply guess_doc_title_nonempty|].
  unfold _title_between_markers_fallback.
  fold (marker_text norm raw_page_text).
  split; [|split].
  - intros H. destruct (clean_segment (marker_text norm raw_page_text)); congruence.
  - intros ->. split.
    + intros l1 line l2 E F T. rewrite E, (first_title_line_first l1 line l2 F T). reflexivity.
    + intros F. rewrite (first_title_line_none _ F). reflexivity.
  - intros ->. unfold marker_text, marker_segment.
    assert (C : clean_segment [] = []) by reflexivity.
    destruct (re_search start_pat norm 0) as [ms|];
      [destruct (re_search end_pat norm (m_end ms)) as [me|];
         [destruct (m_end ms <? m_start me)|]
      |destruct (re_search end_pat norm 0) as [me|]];
      rewrite ?slice_nil, C; reflexivity.
Qed.

(** A page without markers, and the empty page. *)
Lemma title_fallback_total_witness :
  let raw := u "0.747.205
Texte original
  Loi sur la navigation  
suite" in
  _title_between_markers_fallback raw raw = u "Loi sur la navigation"
  /\ _title_between_markers_fallback [] [] = u "Titre inconnu".
Proof.
  intros raw.
  destruct (title_fallback_total raw raw) as (_ & _ & _ & H & _).
  destruct (title_fallback_total [] []) as (_ & _ & _ & _ & H0).
  split; [|exact (H0 eq_refl)].
  destruct (H ltac:(vm_compute; reflexivity)) as (H1 & _).
  apply (H1 [u "0.747.205"; u "Texte original"] (u "  Loi sur la navigation  ") [u "suite"]).
  - vm_compute. reflexivity.
  - repeat constructor.
  - vm_compute. reflexivity.
Defined.

Lemma in_run_seq r1 r2 s s' :
  In s' (run (Seq r1 r2) s) <-> exists s1, In s1 (run r1 s) /\ In s' (run r2 s1).
Proof. simpl. rewrite in_flat_map. reflexivity. Qed.

Lemma lit_ci_inv : forall w s s',
  In s' (run (lit_ci w) s) ->
  exists w', rest s = w' ++ rest s' /\ Forall2 (fun a x => ci a x = true) w w'
    /\ pos s' = pos s + List.length w' /\ prev s' = last_or w' (prev s) /\ caps s' = caps s.
Proof.
  induction w as [|a w IH]; intros s s' H.
  - simpl in H. destruct H as [<-|[]]. exists []. simpl. repeat split; auto.
  - change (lit_ci (a :: w)) with (Seq (Chr (ci a)) (lit_ci w)) in H.
    apply in_run_seq in H. destruct H as (s1 & H1 & H2).
    apply in_run_chr in H1. destruct H1 as (x & l & R & X & ->).
    apply IH in H2. simpl in H2. destruct H2 as (w' & R' & F & P & V & C).
    exists (x :: w'). simpl. rewrite R, R'. repeat split; auto. lia.
Qed.

Lemma ci_plain l x :
  ascii_lower l <> 105%N -> ascii_lower l <> 115%N -> ascii_lower l <> 107%N ->
  ci l x = true -> ascii_lower x = ascii_lower l.
Proof.
  intros H1 H2 H3. unfold ci.
  apply N.eqb_neq in H1, H2, H3. rewrite H1, H2, H3. simpl.
  rewrite !orb_false_r. apply N.eqb_eq.
Qed.

Lemma ascii_lower_cases x l : ascii_lower x = l -> x = l \/ (x + 32)%N = l.
Proof.
  unfold ascii_lower. destruct ((65 <=? x)%N && (x <=? 90)%N); auto.
Qed.

Lemma ci_l_word x : ci 108 x = true -> is_word x = true.
Proof.
  intros H. apply ci_plain in H; [|discriminate|discriminate|discriminate].
  change (ascii_lower 108) with 108%N in H. apply ascii_lower_cases in H.
  destruct H as [->|H]; [vm_compute; reflexivity|].
  assert (x = 76%N) by lia. subst x. vm_compute. reflexivity.
Qed.

Lemma ci_c_word x : ci 99 x = true -> is_word x = true.
Proof.
  intros H. apply ci_plain in H; [|discriminate|discriminate|discriminate].
  change (ascii_lower 99) with 99%N in H. apply ascii_lower_cases in H.
  destruct H as [->|H]; [vm_compute; reflexivity|].
  assert (x = 67%N) by lia. subst x. vm_compute. reflexivity.
Qed.

(** After the start marker comes no word boundary before a "c". *)
Lemma start_pat_prev s s' :
  In s' (run start_pat s) -> word_at (prev s') = true.
Proof.
  unfold start_pat. intros H.
  apply in_run_cat_cons in H. destruct H as (s1 & _ & H).
  apply in_run_cat_cons in H. destruct H as (s2 & _ & H).
  apply in_run_cat_cons in H. destruct H as (s3 & H3 & H).
  apply in_run_cat_nil in H. subst s3.
  change (u "original") with [111; 114; 105; 103; 105; 110; 97; 108]%N in H3.
  apply lit_ci_inv in H3. destruct H3 as (w' & _ & F & _ & V & _).
  change [111; 114; 105; 103; 105; 110; 97; 108]%N
    with ([111; 114; 105; 103; 105; 110; 97]%N ++ [108%N]) in F.
  apply Forall2_app_inv_l in F. destruct F as (w0 & w1 & _ & F & ->).
  inversion F as [|? x ? ? Hx F']; subst. inversion F'; subst.
  rewrite V, last_or_app. simpl. apply ci_l_word. exact Hx.
Qed.

Lemma end_pat_prev s s' :
  In s' (run end_pat s) -> word_at (prev s) = false.
Proof.
  unfold end_pat. intros H.
  apply in_run_cat_cons in H. destruct H as (s0 & H0 & H).
  apply in_run_wordb in H0. destruct H0 as [-> B].
  apply in_run_cat_cons in H. destruct H as (s1 & H1 & _).
  change (u "conclu") with [99; 111; 110; 99; 108; 117]%N in H1.
  apply lit_ci_inv in H1. destruct H1 as (w' & R & F & _).
  inversion F as [|? y ? ? Hy F']; subst. rewrite R in B. simpl in B.
  rewrite (ci_c_word y Hy) in B. destruct (word_at (prev s)); [discriminate|reflexivity].
Qed.

Lemma last_or_firstn_steps text k w l' :
  skipn k text = w ++ l' -> k <= List.length text ->
  last_or w (last_or (firstn k text) None) = last_or (firstn (k + List.length w) text) None
  /\ skipn (k + List.length w) text = l'.
Proof.
  intros R Hk.
  assert (T : text = (firstn k text ++ w) ++ l').
  { rewrite <- app_assoc, <- R. symmetry. apply firstn_skipn. }
  assert (L : List.length (firstn k text ++ w) = k + List.length w).
  { rewrite length_app, length_firstn. lia. }
  pose proof (firstn_app_exact (firstn k text ++ w) l') as A.
  pose proof (skipn_app_exact (firstn k text ++ w) l') as B.
  rewrite <- T, L in A, B. rewrite A, B, last_or_app. auto.
Qed.

Lemma end_after_start norm ms me :
  re_search start_pat norm 0 = Some ms ->
  re_search end_pat norm (m_end ms) = Some me ->
  m_end ms < m_start me.
Proof.
  intros Hs He.
  apply re_search_some in Hs. destruct Hs as (k0 & Hk0 & Hm0 & _).
  apply re_search_some in He. destruct He as (k & Hk & Hm & _).
  rewrite (match_at_start _ _ _ _ Hm).
  destruct (Nat.eq_dec k (m_end ms)) as [->|]; [exfalso|lia].
  unfold match_at in Hm0, Hm.
  apply match_here_inv in Hm0. destruct Hm0 as (s0 & F0 & ->).
  apply match_here_inv in Hm. destruct Hm as (s1 & F1 & _).
  apply first_run_in in F0, F1. simpl in F1.
  pose proof (start_pat_prev _ _ F0) as W0.
  pose proof (end_pat_prev _ _ F1) as W1. simpl in W1.
  apply run_steps in F0. destruct F0 as (w & R & P & V). simpl in R, P, V.
  destruct (last_or_firstn_steps norm k0 w (rest s0) R ltac:(lia)) as (E & _).
  simpl in W1. rewrite P, <- E, <- V in W1. congruence.
Qed.

(** *** Whitespace *)
Lemma lead_split s :
  exists w l, s = w ++ l /\ Forall (fun c => is_space c = true) w
    /\ List.length w = lead s /\ rep_stop is_space None (N.of_nat (List.length w)) l
    /\ l = dropwhile is_space s.
Proof.
  induction s as [|x s IH]; simpl.
  - exists [], []. repeat split; auto. left. reflexivity.
  - destruct (is_space x) eqn:E.
    + destruct IH as (w & l & -> & F & L & S & D). exists (x :: w), l. simpl.
      repeat split; auto.
      destruct S as [S|[S|S]]; [left; auto|right; left; auto|discriminate].
    + exists [], (x :: s). simpl. repeat split; auto.
      right. left. exists x, s. auto.
Qed.

Lemma ws_plus_match ps pv x l :
  is_space x = true ->
  exists cs, match_here ws_plus ps pv (x :: l) = Some (Match ps (S ps + lead l) cs).
Proof.
  intros E. destruct (lead_split l) as (w & l' & -> & F & L & S & _).
  exists []. rewrite <- L.
  pose proof (first_run_rep is_space 1 None ps pv [] (x :: w) l') as H.
  simpl List.length in H.
  apply first_run_match in H.
  - simpl in H. unfold ws_plus. simpl app. rewrite H. f_equal. f_equal. lia.
  - constructor; assumption.
  - lia.
  - intros h Hh. discriminate.
  - destruct S as [S|[S|S]]; [left; auto|right; left; auto|discriminate].
Qed.

Lemma ws_plus_nomatch ps pv l :
  match l with x :: _ => is_space x = false | [] => True end ->
  match_here ws_plus ps pv l = None.
Proof.
  intros H. unfold match_here, ws_plus. simpl. rewrite rep_run_eq.
  destruct l as [|x l]; simpl; [reflexivity|]. rewrite H. reflexivity.
Qed.

Lemma sub_ws_collapse : forall l ps pv,
  sub_aux ws_plus [32%N] 0 ps pv l = collapse false l
  /\ sub_aux ws_plus [32%N] (lead l) ps pv l = collapse true l.
Proof.
  induction l as [|x l IH]; intros ps pv.
  - cbn [sub_aux lead]. rewrite ws_plus_nomatch; simpl; auto.
  - destruct (is_space x) eqn:E.
    + split.
      * cbn [sub_aux]. destruct (ws_plus_match ps pv x l E) as (cs & ->).
        cbn [m_end]. simpl collapse. rewrite E.
        replace (Nat.eqb (S ps + lead l) ps) with false
          by (symmetry; apply Nat.eqb_neq; lia).
        replace (S ps + lead l - ps - 1) with (lead l) by lia.
        simpl. f_equal. apply IH.
      * simpl lead. rewrite E. cbn [sub_aux]. simpl collapse. rewrite E. apply IH.
    + assert (H0 : sub_aux ws_plus [32%N] 0 ps pv (x :: l) = collapse false (x :: l)).
      { cbn [sub_aux]. rewrite ws_plus_nomatch by exact E. simpl collapse. rewrite E.
        f_equal. apply IH. }
      split; [exact H0|]. simpl lead. rewrite E. rewrite H0. simpl. rewrite E. reflexivity.
Qed.

Lemma re_sub_ws s : re_sub (Rep 1 None is_space) (u " ") s = collapse false s.
Proof. unfold re_sub. apply (sub_ws_collapse s 0 None). Qed.

Lemma dropwhile_head p s :
  match dropwhile p s with x :: _ => p x = false | [] => True end.
Proof.
  induction s as [|x s IH]; simpl; auto. destruct (p x) eqn:E; auto.
Qed.

Lemma dropwhile_split p s :
  exists w, s = w ++ dropwhile p s /\ Forall (fun c => p c = true) w.
Proof.
  induction s as [|x s IH]; simpl.
  - exists []. auto.
  - destruct (p x) eqn:E.
    + destruct IH as (w & Hs & F). exists (x :: w). simpl. split; [congruence|auto].
    + exists []. auto.
Qed.

Lemma dropwhile_id p s :
  match s with x :: _ => p x = false | [] => True end -> dropwhile p s = s.
Proof. destruct s as [|x s]; simpl; auto. intros ->. reflexivity. Qed.

Lemma ends_ok_snoc s y : ends_ok (s ++ [y]) = negb (is_space y).
Proof.
  induction s as [|x s IH]; simpl; auto.
  destruct (s ++ [y]) eqn:E; [destruct s; discriminate|]. exact IH.
Qed.

Lemma ends_ok_rev_head s :
  ends_ok s = true -> match rev s with x :: _ => is_space x = false | [] => True end.
Proof.
  destruct (rev s) as [|x r] eqn:E; auto. intros H.
  assert (S : s = rev r ++ [x]).
  { rewrite <- (rev_involutive s), E. reflexivity. }
  rewrite S, ends_ok_snoc in H. destruct (is_space x); [discriminate|reflexivity].
Qed.

Lemma rstrip_spec s :
  exists w, s = rstrip s ++ w /\ Forall (fun c => is_space c = true) w
    /\ ends_ok (rstrip s) = true.
Proof.
  unfold rstrip. destruct (dropwhile_split is_space (rev s)) as (w & Hs & F).
  exists (rev w). split; [|split].
  - rewrite <- rev_app_distr, <- Hs, rev_involutive. reflexivity.
  - apply Forall_rev. exact F.
  - pose proof (dropwhile_head is_space (rev s)) as H.
    destruct (dropwhile is_space (rev s)) as [|x r]; [reflexivity|].
    simpl rev. rewrite ends_ok_snoc, H. reflexivity.
Qed.

Lemma rstrip_id s : ends_ok s = true -> rstrip s = s.
Proof.
  intros H. unfold rstrip. rewrite dropwhile_id.
  - apply rev_involutive.
  - apply ends_ok_rev_head. exact H.
Qed.

Lemma rstrip_head s : head_ok s = true -> head_ok (rstrip s) = true.
Proof.
  intros H. destruct (rstrip_spec s) as (w & Hs & F & _).
  destruct (rstrip s) as [|x r]; [reflexivity|].
  rewrite Hs in H. exact H.
Qed.

Lemma strip_ok s : head_ok (strip s) = true /\ ends_ok (strip s) = true.
Proof.
  unfold strip. split.
  - apply rstrip_head. unfold lstrip, head_ok.
    pose proof (dropwhile_head is_space s) as H.
    destruct (dropwhile is_space s); auto. rewrite H. reflexivity.
  - destruct (rstrip_spec (lstrip s)) as (_ & _ & _ & H). exact H.
Qed.

Lemma strip_id s : head_ok s = true -> ends_ok s = true -> strip s = s.
Proof.
  intros H E. unfold strip, lstrip. rewrite dropwhile_id.
  - apply rstrip_id. exact E.
  - destruct s; auto. simpl in H. destruct (is_space n); [discriminate|reflexivity].
Qed.

Lemma collapse_tidy : forall s,
  ends_ok s = true ->
  tidy_tail (collapse false s) = true
  /\ tidy_tail (collapse true s) = true
  /\ (s <> [] -> exists y t, collapse true s = y :: t /\ is_space y = false).
Proof.
  induction s as [|x s IH]; intros E.
  - simpl. repeat split; auto. congruence.
  - assert (E' : ends_ok s = true /\ (is_space x = true -> s <> [])).
    { simpl in E. destruct s; [|split; [exact E|discriminate]].
      split; [reflexivity|]. intros S. rewrite S in E. discriminate. }
    destruct E' as [E' N]. destruct (IH E') as (T0 & T1 & H).
    simpl. destruct (is_space x) eqn:S.
    + destruct (H (N eq_refl)) as (y & t & C & Y).
      split; [|split].
      * change (tidy_tail (32%N :: collapse true s))
          with (match collapse true s with
                | y :: _ => negb (is_space y)
                | [] => false
                end && tidy_tail (collapse true s)).
        rewrite T1, C, Y. reflexivity.
      * exact T1.
      * intros _. exists y, t. auto.
    + split; [|split].
      * simpl. rewrite S. exact T0.
      * simpl. rewrite S. exact T0.
      * intros _. exists x, (collapse false s). auto.
Qed.

Lemma collapse_strip_tidy s : tidy (collapse false (strip s)) = true.
Proof.
  destruct (strip_ok s) as [H E]. destruct (strip s) as [|x r]; [reflexivity|].
  simpl in H. simpl. destruct (is_space x) eqn:S; [discriminate|].
  simpl. rewrite S. simpl.
  assert (E' : ends_ok r = true).
  { simpl in E. destruct r; [reflexivity|exact E]. }
  apply (collapse_tidy r E').
Qed.

Lemma tidy_tail_ends : forall s x, is_space x = false -> tidy_tail s = true -> ends_ok (x :: s) = true.
Proof.
  induction s as [|y s IH]; intros x X T.
  - simpl. rewrite X. reflexivity.
  - change (ends_ok (y :: s) = true). simpl in T. destruct (is_space y) eqn:Y.
    + apply andb_true_iff in T. destruct T as [T T2]. apply andb_true_iff in T.
      destruct T as [_ T1]. destruct s as [|z s]; [discriminate|].
      change (ends_ok (z :: z :: s) = true). apply IH; [|exact T2].
      destruct (is_space z); [discriminate|reflexivity].
    + apply IH; assumption.
Qed.

Lemma tidy_ok s : tidy s = true -> head_ok s = true /\ ends_ok s = true.
Proof.
  destruct s as [|x s]; [auto|]. simpl. intros H. apply andb_true_iff in H.
  destruct H as [X T]. split; [exact X|].
  apply tidy_tail_ends; [|exact T]. destruct (is_space x); [discriminate|reflexivity].
Qed.

Lemma tidy_strip s : tidy s = true -> strip s = s.
Proof. intros H. apply tidy_ok in H. apply strip_id; apply H. Qed.

Lemma tidy_tail_collapse : forall s, tidy_tail s = true -> collapse false s = s.
Proof.
  induction s as [|x s IH]; intros T; [reflexivity|].
  simpl in *. destruct (is_space x) eqn:X.
  - apply andb_true_iff in T. destruct T as [T T2]. apply andb_true_iff in T.
    destruct T as [T0 T1]. apply N.eqb_eq in T0. subst x.
    destruct s as [|y s]; [discriminate|]. f_equal.
    specialize (IH T2). simpl in IH. simpl.
    destruct (is_space y); [discriminate|exact IH].
  - f_equal. apply IH. exact T.
Qed.

Lemma tidy_collapse s : tidy s = true -> collapse false s = s.
Proof.
  destruct s as [|x s]; [reflexivity|]. simpl. intros H. apply andb_true_iff in H.
  destruct H as [X T]. destruct (is_space x); [discriminate|].
  f_equal. apply tidy_tail_collapse. exact T.
Qed.

Lemma tidy_tail_dropwhile : forall s, tidy_tail s = true -> tidy (dropwhile is_space s) = true.
Proof.
  destruct s as [|x s]; intros T; [reflexivity|].
  simpl in *. destruct (is_space x) eqn:X.
  - apply andb_true_iff in T. destruct T as [T T2]. apply andb_true_iff in T.
    destruct T as [_ T1]. destruct s as [|y s]; [discriminate|].
    simpl. destruct (is_space y) eqn:Y; [discriminate|]. simpl. rewrite Y.
    simpl in T2. rewrite Y in T2. exact T2.
  - simpl. rewrite X. exact T.
Qed.

Lemma nospace_tidy_tail s : forallb (fun c => negb (is_space c)) s = true -> tidy_tail s = true.
Proof.
  induction s as [|x s IH]; simpl; auto. intros H. apply andb_true_iff in H.
  destruct H as [X H]. destruct (is_space x); [discriminate|]. auto.
Qed.

Lemma nospace_tidy s : forallb (fun c => negb (is_space c)) s = true -> tidy s = true.
Proof.
  destruct s as [|x s]; simpl; auto. intros H. apply andb_true_iff in H.
  destruct H as [X H]. rewrite X. simpl. apply nospace_tidy_tail. exact H.
Qed.

(** *** Character tables *)
Lemma in_ranges_iff t c : in_ranges t c = true <-> in_ranges_P t c.
Proof.
  induction t as [|r t IH]; simpl.
  - split; [discriminate|tauto].
  - rewrite orb_true_iff, andb_true_iff, !N.leb_le, IH. tauto.
Qed.

Lemma is_space_iff c : is_space c = true <-> in_ranges_P space_ranges c.
Proof. apply in_ranges_iff. Qed.

Lemma is_space_false c : ~ in_ranges_P space_ranges c -> is_space c = false.
Proof.
  intros H. destruct (is_space c) eqn:E; auto. apply is_space_iff in E. tauto.
Qed.

Lemma in_ranges_above t b c :
  forallb (fun r => (b <=? fst r)%N) t = true -> (c < b)%N -> in_ranges t c = false.
Proof.
  intros L H. apply not_true_is_false. intros T. unfold in_ranges in T.
  apply existsb_exists in T. destruct T as (r & Hr & Hc).
  rewrite forallb_forall in L. specialize (L r Hr).
  apply N.leb_le in L. apply andb_true_iff in Hc. destruct Hc as [Hc _].
  apply N.leb_le in Hc. lia.
Qed.

(** Below 1632 the decimal digits are the ASCII digits. *)
Lemma is_decimal_low c : (c < 1632)%N -> is_decimal c = is_ascii_digit c.
Proof.
  intros H. unfold is_decimal, is_ascii_digit.
  change nd_ranges with ((48%N, 57%N) :: tl nd_ranges).
  change (in_ranges ((48%N, 57%N) :: tl nd_ranges) c)
    with ((48 <=? c)%N && (c <=? 57)%N || in_ranges (tl nd_ranges) c).
  rewrite (in_ranges_above (tl nd_ranges) 1632 c); [apply orb_false_r| |exact H].
  vm_compute. reflexivity.
Qed.

Lemma decimal_value_low c : is_ascii_digit c = true -> decimal_value c = (c - 48)%N.
Proof.
  intros D. unfold decimal_value.
  change nd_ranges with ((48%N, 57%N) :: tl nd_ranges).
  cbn [find fst snd]. unfold is_ascii_digit in D. rewrite D. cbn [fst].
  apply andb_true_iff in D. rewrite !N.leb_le in D.
  apply N.mod_small. lia.
Qed.

Lemma decimal_value_lt c : (decimal_value c < 10)%N.
Proof.
  unfold decimal_value. destruct (find _ _); [apply N.mod_lt|]; lia.
Qed.

Lemma ascii_letter_facts c :
  is_ascii_letter c = true ->
  is_decimal c = false /\ is_space c = false /\ _SUP_MAP c = c /\ c <> 32%N
  /\ is_ascii_letter (ascii_lower c) = true /\ ascii_lower (ascii_lower c) = ascii_lower c.
Proof.
  unfold is_ascii_letter. intros H. apply orb_true_iff in H.
  rewrite !andb_true_iff, !N.leb_le in H.
  split; [|split; [|split; [|split; [|split]]]].
  - rewrite is_decimal_low by lia. unfold is_ascii_digit.
    apply andb_false_iff. rewrite !N.leb_gt. lia.
  - apply is_space_false. simpl. lia.
  - unfold _SUP_MAP.
    repeat match goal with
           | |- context [(?a =? ?b)%N] => destruct (N.eqb_spec a b); [lia|]
           | |- context [(?a <=? ?b)%N] => destruct (N.leb_spec a b); simpl
           end; try lia; reflexivity.
  - lia.
  - unfold is_ascii_letter, ascii_lower.
    destruct ((65 <=? c)%N && (c <=? 90)%N) eqn:E.
    + apply andb_true_iff in E. rewrite !N.leb_le in E.
      apply orb_true_iff. right. rewrite andb_true_iff, !N.leb_le. lia.
    + apply orb_true_iff. rewrite !andb_true_iff, !N.leb_le.
      apply andb_false_iff in E. rewrite !N.leb_gt in E. lia.
  - unfold ascii_lower.
    destruct ((65 <=? c)%N && (c <=? 90)%N) eqn:E; [|rewrite E; reflexivity].
    apply andb_true_iff in E. rewrite !N.leb_le in E.
    replace ((65 <=? c + 32)%N && (c + 32 <=? 90)%N) with false; [reflexivity|].
    symmetry. apply andb_false_iff. rewrite !N.leb_gt. lia.
Qed.

Lemma sup_space c : is_space (_SUP_MAP c) = is_space c /\ (is_space c = true -> _SUP_MAP c = c).
Proof.
  assert (H : _SUP_MAP c = c \/ (is_space c = false /\ is_space (_SUP_MAP c) = false)).
  { unfold _SUP_MAP.
    destruct (N.eqb_spec c 8304); [subst; right; split; reflexivity|].
    destruct (N.eqb_spec c 185); [subst; right; split; reflexivity|].
    destruct (N.eqb_spec c 178); [subst; right; split; reflexivity|].
    destruct (N.eqb_spec c 179); [subst; right; split; reflexivity|].
    destruct ((8308 <=? c)%N && (c <=? 8313)%N) eqn:E; [|left; reflexivity].
    apply andb_true_iff in E. rewrite !N.leb_le in E.
    right. split; apply is_space_false; simpl; lia. }
  destruct H as [->|[A B]]; [auto|]. rewrite A, B. split; [reflexivity|discriminate].
Qed.

Lemma sup_idem c : _SUP_MAP (_SUP_MAP c) = _SUP_MAP c.
Proof.
  unfold _SUP_MAP at 2 3.
  destruct (N.eqb_spec c 8304); [reflexivity|].
  destruct (N.eqb_spec c 185); [reflexivity|].
  destruct (N.eqb_spec c 178); [reflexivity|].
  destruct (N.eqb_spec c 179); [reflexivity|].
  destruct ((8308 <=? c)%N && (c <=? 8313)%N) eqn:E.
  - apply andb_true_iff in E. rewrite !N.leb_le in E. unfold _SUP_MAP.
    repeat match goal with
           | |- context [(?a =? ?b)%N] => destruct (N.eqb_spec a b); [lia|]
           end.
    replace ((8308 <=? c - 8256)%N && (c - 8256 <=? 8313)%N) with false; [reflexivity|].
    symmetry. apply andb_false_iff. rewrite !N.leb_gt. lia.
  - unfold _SUP_MAP.
    destruct (N.eqb_spec c 8304); [contradiction|].
    destruct (N.eqb_spec c 185); [contradiction|].
    destruct (N.eqb_spec c 178); [contradiction|].
    destruct (N.eqb_spec c 179); [contradiction|].
    rewrite E. reflexivity.
Qed.

Lemma translate_idem s : translate (translate s) = translate s.
Proof.
  unfold translate. rewrite map_map. apply map_ext. intros c. apply sup_idem.
Qed.

Lemma sup_free_translate s : sup_free (translate s).
Proof.
  unfold sup_free, translate. apply Forall_forall. intros c H.
  apply in_map_iff in H. destruct H as (c0 & <- & _). apply sup_idem.
Qed.

Lemma sup_free_id s : sup_free s -> translate s = s.
Proof.
  unfold translate. induction 1; simpl; congruence.
Qed.

Lemma translate_tidy_tail : forall s, tidy_tail (translate s) = tidy_tail s.
Proof.
  induction s as [|x s IH]; [reflexivity|].
  simpl. destruct (sup_space x) as [A B]. rewrite A, IH.
  destruct (is_space x) eqn:X; [|reflexivity].
  rewrite (B eq_refl). destruct s as [|y s]; [reflexivity|].
  simpl. destruct (sup_space y) as [A' _]. rewrite A'. reflexivity.
Qed.

Lemma translate_tidy s : tidy (translate s) = tidy s.
Proof.
  destruct s as [|x s]; [reflexivity|]. simpl.
  destruct (sup_space x) as [A _]. rewrite A.
  change (map _SUP_MAP s) with (translate s). rewrite translate_tidy_tail. reflexivity.
Qed.

Lemma small_ok_all : forallb small_ok (map N.of_nat (seq 0 1000)) = true.
Proof. vm_compute. reflexivity. Qed.

Lemma str_of_N_small n :
  (n < 1000)%N ->
  1 <= List.length (str_of_N n) <= 3
  /\ Forall (fun c => is_ascii_digit c = true) (str_of_N n)
  /\ int_of_digits (str_of_N n) = n.
Proof.
  intros H. pose proof small_ok_all as A. rewrite forallb_forall in A.
  specialize (A n). unfold small_ok in A.
  rewrite !andb_true_iff, Nat.leb_le, Nat.leb_le, N.eqb_eq, forallb_forall in A.
  destruct A as (((A1 & A2) & A3) & A4).
  - apply in_map_iff. exists (N.to_nat n). split; [lia|]. apply in_seq. lia.
  - repeat split; auto. apply Forall_forall. exact A3.
Qed.

Lemma ascii_digit_facts c :
  is_ascii_digit c = true ->
  is_decimal c = true /\ is_space c = false /\ _SUP_MAP c = c /\ c <> 32%N
  /\ is_ascii_letter c = false.
Proof.
  intros H. pose proof H as H'. unfold is_ascii_digit in H'.
  rewrite andb_true_iff, !N.leb_le in H'.
  split; [|split; [|split; [|split]]].
  - rewrite is_decimal_low by lia. exact H.
  - apply is_space_false. simpl. lia.
  - unfold _SUP_MAP.
    repeat match goal with
           | |- context [(?a =? ?b)%N] => destruct (N.eqb_spec a b); [lia|]
           | |- context [(?a <=? ?b)%N] => destruct (N.leb_spec a b); simpl
           end; try lia; reflexivity.
  - lia.
  - unfold is_ascii_letter. apply orb_false_iff. rewrite !andb_false_iff, !N.leb_gt. lia.
Qed.

Lemma int_of_digits_small g :
  List.length g <= 3 -> (int_of_digits g < 1000)%N.
Proof.
  intros H. unfold int_of_digits.
  destruct g as [|a [|b [|c [|d g]]]]; simpl in *; try lia.
  - pose proof (decimal_value_lt a). lia.
  - pose proof (decimal_value_lt a). pose proof (decimal_value_lt b). lia.
  - pose proof (decimal_value_lt a). pose proof (decimal_value_lt b).
    pose proof (decimal_value_lt c). lia.
Qed.

(** *** The prefix of an article number *)
Lemma first_run_caret ps l cs : first_run Caret (St ps None l cs) (St ps None l cs).
Proof. exists []. reflexivity. Qed.

Lemma first_run_dollar ps pv cs : first_run Dollar (St ps pv [] cs) (St ps pv [] cs).
Proof. exists []. reflexivity. Qed.

Lemma first_run_eps s : first_run Eps s s.
Proof. exists []. reflexivity. Qed.

Lemma ci_art_cases l x :
  l = 97%N \/ l = 114%N \/ l = 116%N -> ci l x = true ->
  is_space x = false /\ _SUP_MAP x = x /\ is_ascii_letter x = true.
Proof.
  intros Hl H. apply ci_plain in H; [|destruct Hl as [->|[->| ->]]; discriminate..].
  apply ascii_lower_cases in H.
  destruct Hl as [->|[->| ->]]; change (ascii_lower _) with 97%N in H
    || change (ascii_lower _) with 114%N in H || change (ascii_lower _) with 116%N in H;
    (destruct H as [->|H]; [repeat split; reflexivity|]);
    [assert (x = 65%N) by lia|assert (x = 82%N) by lia|assert (x = 84%N) by lia];
    subst x; repeat split; reflexivity.
Qed.

Lemma prefix_run a r t dot w l :
  ci 97 a = true -> ci 114 r = true -> ci 116 t = true ->
  (dot = [46%N] \/ (dot = [] /\ match w ++ l with x :: _ => x <> 46%N | [] => True end)) ->
  Forall (fun c => is_space c = true) w ->
  match l with x :: _ => is_space x = false | [] => True end ->
  exists pv,
  first_run prefix_re (St 0 None (a :: r :: t :: dot ++ w ++ l) [])
    (St (3 + List.length dot + List.length w + List.length l) pv []
        [(2, (3 + List.length dot + List.length w,
              3 + List.length dot + List.length w + List.length l));
         (1, (0, 3 + List.length dot))]).
Proof.
  intros Ha Hr Ht Hdot Hw Hl.
  destruct (ci_art_cases 97 a (or_introl eq_refl) Ha) as (Sa & _).
  eexists. unfold prefix_re.
  eapply first_run_cat_cons; [apply first_run_caret|].
  eapply first_run_cat_cons.
  { apply (first_run_rep is_space 0 None 0 None [] [] (a :: r :: t :: dot ++ w ++ l)).
    - constructor.
    - simpl. lia.
    - intros h Hh. discriminate.
    - right. left. exists a, (r :: t :: dot ++ w ++ l). auto. }
  simpl last_or. simpl Nat.add.
  eapply first_run_cat_cons.
  { apply first_run_grp. eapply first_run_cat_cons.
    - change (u "art") with [97; 114; 116]%N. unfold lit_ci. simpl fold_right.
      eapply first_run_seq; [apply first_run_chr; exact Ha|].
      eapply first_run_seq; [apply first_run_chr; exact Hr|].
      eapply first_run_seq; [apply first_run_chr; exact Ht|].
      apply first_run_eps.
    - eapply first_run_cat_cons; [|apply first_run_cat_nil].
      instantiate (1 := St (3 + List.length dot) (last_or dot (Some t)) (w ++ l) []).
      destruct Hdot as [->|[-> Hd]].
      + simpl. apply first_run_opt. apply first_run_chr. reflexivity.
      + simpl. apply first_run_opt_skip. simpl.
        destruct (w ++ l) as [|x wl]; [reflexivity|].
        unfold is_char. destruct (N.eqb_spec x 46); [contradiction|reflexivity]. }
  cbn [pos prev rest caps].
  eapply first_run_cat_cons.
  { apply (first_run_rep is_space 0 None); auto.
    - lia.
    - intros h Hh. discriminate.
    - destruct l as [|x l']; [left; reflexivity|right; left; exists x, l'; auto]. }
  eapply first_run_cat_cons.
  { apply first_run_grp.
    pose proof (first_run_rep (fun _ => true) 0 None
                  (3 + List.length dot + List.length w)
                  (last_or w (last_or dot (Some t)))
                  [(1, (0, 3 + List.length dot))] l []) as H.
    rewrite app_nil_r in H. apply H.
    - apply Forall_forall. auto.
    - lia.
    - intros h Hh. discriminate.
    - left. reflexivity. }
  cbn [pos prev rest caps].
  eapply first_run_cat_cons; [apply first_run_dollar|apply first_run_cat_nil].
Qed.

Lemma drop_dot_split s' :
  exists dot, s' = dot ++ drop_dot s'
    /\ (dot = [46%N] \/ (dot = [] /\ match drop_dot s' with x :: _ => x <> 46%N | [] => True end)).
Proof.
  destruct s' as [|x s']; simpl.
  - exists []. auto.
  - destruct (N.eqb_spec x 46).
    + subst. exists [46%N]. auto.
    + exists []. auto.
Qed.

Lemma prefix_match_fwd a r t s' :
  ci 97 a = true -> ci 114 r = true -> ci 116 t = true ->
  exists m, re_match prefix_re (a :: r :: t :: s') = Some m
    /\ group_or_empty (a :: r :: t :: s') m 2 = dropwhile is_space (drop_dot s').
Proof.
  intros Ha Hr Ht.
  destruct (drop_dot_split s') as (dot & Hs & Hdot).
  destruct (lead_split (drop_dot s')) as (w & l & Hwl & Hw & _ & Hstop & Hl).
  assert (Hl' : match l with x :: _ => is_space x = false | [] => True end).
  { rewrite Hl. apply dropwhile_head. }
  assert (Hdot' : dot = [46%N] \/
            (dot = [] /\ match w ++ l with x :: _ => x <> 46%N | [] => True end)).
  { rewrite <- Hwl. exact Hdot. }
  destruct (prefix_run a r t dot w l Ha Hr Ht Hdot' Hw Hl') as (pv & F).
  assert (E : s' = dot ++ w ++ l) by (rewrite <- Hwl; exact Hs).
  rewrite <- Hl. clear Hs Hdot Hwl Hl Hstop. subst s'.
  apply first_run_match in F. unfold re_match. rewrite F.
  eexists. split; [reflexivity|].
  unfold group_or_empty, group. cbn [m_caps caps cap_lookup Nat.eqb].
  pose proof (slice_app_mid (a :: r :: t :: dot ++ w) l []) as Q.
  rewrite app_nil_r in Q.
  replace ((a :: r :: t :: dot ++ w) ++ l) with (a :: r :: t :: dot ++ w ++ l) in Q
    by (simpl; rewrite <- app_assoc; reflexivity).
  cbn [List.length] in Q. rewrite length_app in Q.
  replace (3 + List.length dot + List.length w)
    with (S (S (S (List.length dot + List.length w)))) by lia.
  exact Q.
Qed.

Lemma Forall2_three (P : N -> N -> Prop) a b c w :
  Forall2 P [a; b; c] w -> exists x y z, w = [x; y; z] /\ P a x /\ P b y /\ P c z.
Proof.
  intros F. inversion F as [|? x ? w1 Hx F1]; subst.
  inversion F1 as [|? y ? w2 Hy F2]; subst.
  inversion F2 as [|? z ? w3 Hz F3]; subst. inversion F3; subst.
  exists x, y, z. auto.
Qed.

Lemma prefix_match_inv s m :
  re_match prefix_re s = Some m -> head_ok s = true ->
  exists a r t s', s = a :: r :: t :: s'
    /\ ci 97 a = true /\ ci 114 r = true /\ ci 116 t = true.
Proof.
  intros H Hh. unfold re_match in H. apply match_here_inv in H.
  destruct H as (sf & F & _). apply first_run_in in F. unfold prefix_re in F.
  apply in_run_cat_cons in F. destruct F as (s0 & H0 & F).
  apply in_run_caret in H0. destruct H0 as [-> _].
  apply in_run_cat_cons in F. destruct F as (s1 & H1 & F).
  apply in_run_rep in H1. destruct H1 as (w0 & R1 & F1 & _). simpl in R1.
  apply in_run_cat_cons in F. destruct F as (s2 & H2 & _).
  apply in_run_grp in H2. destruct H2 as (s3 & H3 & _).
  apply in_run_cat_cons in H3. destruct H3 as (s4 & H4 & _).
  change (u "art") with [97; 114; 116]%N in H4.
  apply lit_ci_inv in H4. destruct H4 as (w' & R4 & F4 & _).
  destruct (Forall2_three _ _ _ _ _ F4) as (a & r & t & -> & Ha & Hr & Ht).
  destruct w0 as [|x w0].
  - simpl in R1. rewrite R4 in R1. exists a, r, t, (rest s4). auto.
  - exfalso. rewrite R1 in Hh. simpl in Hh. inversion F1 as [|? ? Hx ?]; subst.
    rewrite Hx in Hh. discriminate.
Qed.

(** *** The patterns of the normaliser *)
Lemma tail_body_cases tm tail :
  tail_body tm = Some tail ->
  tm <> 0%Z /\ (tm < MAXREPEAT)%Z
  /\ ((0 < tm)%Z /\ tail = Rep 1 (Some (Z.to_N tm)) is_decimal
      \/ (tm < 0)%Z /\ tail = cat [Chr is_decimal; lit (u "{1," ++ str_of_Z tm ++ u "}")]).
Proof.
  unfold tail_body. destruct (Z.eqb_spec tm 0); [discriminate|].
  destruct (Z.leb_spec MAXREPEAT tm); [discriminate|].
  destruct (Z.ltb_spec 0 tm); intros [= <-]; repeat split; auto.
  right. split; [lia|reflexivity].
Qed.

Lemma tail_body_total tm :
  tm <> 0%Z -> (tm < MAXREPEAT)%Z -> exists tail, tail_body tm = Some tail.
Proof.
  intros H0 H1. unfold tail_body. destruct (Z.eqb_spec tm 0); [contradiction|].
  destruct (Z.leb_spec MAXREPEAT tm); [lia|].
  destruct (0 <? tm)%Z; eexists; reflexivity.
Qed.

Lemma tail_at_end tm tail ps pv cs :
  tail_body tm = Some tail -> run tail (St ps pv [] cs) = [].
Proof.
  intros H. apply tail_body_cases in H. destruct H as (_ & _ & [[_ ->]|[_ ->]]); reflexivity.
Qed.

Lemma tail_digits tm tail s s' :
  (0 < tm)%Z -> tail_body tm = Some tail -> In s' (run tail s) ->
  exists w, rest s = w ++ rest s' /\ pos s' = pos s + List.length w
    /\ Forall (fun c => is_decimal c = true) w
    /\ 1 <= List.length w /\ (Z.of_nat (List.length w) <= tm)%Z.
Proof.
  intros Hp H Hin. apply tail_body_cases in H.
  destruct H as (_ & _ & [[_ ->]|[Hn _]]); [|lia].
  apply in_run_rep in Hin. destruct Hin as (w & R & F & P & _ & _ & L & U).
  exists w. specialize (U _ eq_refl). repeat split; auto; lia.
Qed.

Lemma app_eq_length {A} (a b c d : list A) :
  a ++ b = c ++ d -> List.length a = List.length c -> a = c /\ b = d.
Proof.
  revert c. induction a as [|x a IH]; intros [|y c] E L; simpl in *; try lia; auto.
  injection E as -> E. destruct (IH c E ltac:(lia)) as [-> ->]. auto.
Qed.

Lemma slice_steps text s w s' :
  text = firstn (pos s) text ++ rest s -> pos s <= List.length text ->
  steps s w s' -> slice text (pos s) (pos s') = w.
Proof.
  intros T L (R & P & _). rewrite P.
  pose proof (slice_app_mid (firstn (pos s) text) w (rest s')) as Q.
  rewrite <- R, <- T in Q. rewrite length_firstn in Q.
  replace (Nat.min (pos s) (List.length text)) with (pos s) in Q by lia. exact Q.
Qed.

Lemma run_caps_nogroups r s s' : groups r = [] -> In s' (run r s) -> caps s' = caps s.
Proof.
  intros G H. apply run_caps in H. destruct H as (new & E & F). rewrite G in F.
  destruct new as [|kv new]; [exact E|]. inversion F as [|? ? K _]; subst. destruct K.
Qed.

Lemma groups_lit w : groups (lit w) = [].
Proof. induction w; simpl; auto. Qed.

Lemma tail_groups tm tail : tail_body tm = Some tail -> groups tail = [].
Proof.
  intros H. apply tail_body_cases in H. destruct H as (_ & _ & [[_ ->]|[_ ->]]).
  - reflexivity.
  - simpl. rewrite groups_lit. reflexivity.
Qed.

Lemma opt_tail_inv tail s3 s5 :
  groups tail = [] ->
  In s5 (run (Opt (Grp 3 tail)) s3) ->
  s5 = s3
  \/ exists s4 w, In s4 (run tail s3) /\ rest s3 = w ++ rest s4
       /\ pos s4 = pos s3 + List.length w
       /\ s5 = St (pos s4) (prev s4) (rest s4) ((3, (pos s3, pos s4)) :: caps s3).
Proof.
  intros G H. apply in_run_opt in H. destruct H as [H|H]; [right|left; exact H].
  apply in_run_grp in H. destruct H as (s4 & H4 & ->).
  destruct (run_steps _ _ _ H4) as (w & R & P & _).
  rewrite (run_caps_nogroups _ _ _ G H4). exists s4, w. auto.
Qed.

Lemma slice_prefix (a c : list N) : slice (a ++ c) 0 (List.length a) = a.
Proof. apply (slice_app_mid [] a c). Qed.

Lemma arabic_inv tail rc m :
  groups tail = [] ->
  re_match (arabic_re tail) rc = Some m ->
  exists g1 l, digits13 g1
    /\ (l = [] \/ exists x, l = [x] /\ is_ascii_letter x = true)
    /\ group_or_empty rc m 1 = g1 /\ group_or_empty rc m 2 = l
    /\ tail_group tail rc (group rc m 3)
    /\ exists tl, rc = g1 ++ l ++ tl.
Proof.
  intros G H. unfold re_match in H. apply match_here_inv in H.
  destruct H as (sf & F & ->). apply first_run_in in F. unfold arabic_re in F.
  match goal with |- exists g1 l, ?A /\ ?B /\ ?C /\ ?D /\ ?E /\ ?T =>
    enough (exists g1 l, (exists tl, rc = g1 ++ l ++ tl) /\ A /\ B /\ C /\ D /\ E)
      as (g1' & l' & X1 & X2 & X3 & X4 & X5 & X6)
      by (exists g1', l'; split; [exact X2|]; split; [exact X3|]; split; [exact X4|];
          split; [exact X5|]; split; [exact X6|exact X1])
  end.
  apply in_run_cat_cons in F. destruct F as (s0 & H0 & F).
  apply in_run_caret in H0. destruct H0 as [-> _].
  apply in_run_cat_cons in F. destruct F as (s1 & H1 & F).
  apply in_run_grp in H1. destruct H1 as (a & Ha & ->).
  apply in_run_rep in Ha. destruct Ha as (g1 & R1 & F1 & P1 & _ & C1 & L1 & U1).
  simpl in R1, P1, C1. specialize (U1 _ eq_refl).
  assert (D1 : digits13 g1) by (split; [lia|exact F1]).
  apply in_run_cat_cons in F. destruct F as (s2 & H2 & F).
  apply in_run_cat_cons in F. destruct F as (s3 & H3 & F).
  apply in_run_cat_cons in F. destruct F as (s4 & H4 & F).
  apply in_run_dollar in H4. destruct H4 as [-> _].
  apply in_run_cat_nil in F. subst sf.
  apply opt_tail_inv in H3; [|exact G].
  exists g1. unfold group_or_empty, group. cbn [m_caps].
  apply in_run_opt in H2. destruct H2 as [H2| ->].
  - (* a letter *)
    apply in_run_grp in H2. destruct H2 as (b & Hb & ->).
    apply in_run_chr in Hb. destruct Hb as (x & lb & Rb & Xb & ->).
    cbn [pos prev rest caps] in *. rewrite C1, P1 in *.
    exists [x].
    assert (T : rc = g1 ++ [x] ++ lb) by (rewrite R1, Rb; reflexivity). clear R1.
    split; [exists lb; exact T|].
    split; [exact D1|]. split; [right; exists x; auto|].
    destruct H3 as [->|(c & w & Hc & Rc & Pc & ->)]; cbn [caps cap_lookup Nat.eqb pos rest] in *.
    + split; [subst rc; apply slice_prefix|]. split; [|left; reflexivity].
      subst rc. replace (S (List.length g1)) with (List.length g1 + List.length [x])
        by (simpl; lia). apply slice_app_mid.
    + split; [subst rc; apply slice_prefix|]. split.
      * subst rc. replace (S (List.length g1)) with (List.length g1 + List.length [x])
          by (simpl; lia). apply slice_app_mid.
      * right. eexists _, c, w. split; [exact Hc|]. cbn [pos rest].
        split; [exact Rc|]. split; [exact Pc|]. f_equal. rewrite Pc, T, Rc.
        pose proof (slice_app_mid (g1 ++ [x]) w (rest c)) as Q.
        rewrite length_app in Q. simpl in Q. rewrite <- app_assoc in Q. simpl in Q.
        replace (S (List.length g1)) with (List.length g1 + 1) by lia. exact Q.
  - (* no letter *)
    cbn [pos prev rest caps] in *. rewrite C1, P1 in *.
    exists []. split; [exists (rest a); exact R1|].
    split; [exact D1|]. split; [left; reflexivity|].
    destruct H3 as [->|(c & w & Hc & Rc & Pc & ->)]; cbn [caps cap_lookup Nat.eqb pos rest] in *.
    + split; [rewrite R1; apply slice_prefix|]. split; [reflexivity|left; reflexivity].
    + split; [rewrite R1; apply slice_prefix|]. split; [reflexivity|].
      right. eexists _, c, w. split; [exact Hc|]. cbn [pos rest].
      split; [exact Rc|]. split; [exact Pc|]. f_equal. rewrite Pc, R1, Rc.
      apply slice_app_mid.
Qed.

Lemma roman_inv tail rc m :
  groups tail = [] ->
  re_match (roman_re tail) rc = Some m ->
  exists g, 1 <= List.length g <= 8 /\ Forall (fun c => is_roman_letter c = true) g
    /\ group_or_empty rc m 1 = g
    /\ tail_group tail rc (group rc m 3).
Proof.
  intros G H. unfold re_match in H. apply match_here_inv in H.
  destruct H as (sf & F & ->). apply first_run_in in F. unfold roman_re in F.
  apply in_run_cat_cons in F. destruct F as (s0 & H0 & F).
  apply in_run_caret in H0. destruct H0 as [-> _].
  apply in_run_cat_cons in F. destruct F as (s1 & H1 & F).
  apply in_run_grp in H1. destruct H1 as (a & Ha & ->).
  apply in_run_rep in Ha. destruct Ha as (g & R1 & F1 & P1 & _ & C1 & L1 & U1).
  simpl in R1, P1, C1. specialize (U1 _ eq_refl).
  apply in_run_cat_cons in F. destruct F as (s3 & H3 & F).
  apply in_run_cat_cons in F. destruct F as (s4 & H4 & F).
  apply in_run_dollar in H4. destruct H4 as [-> _].
  apply in_run_cat_nil in F. subst sf.
  apply opt_tail_inv in H3; [|exact G].
  exists g. unfold group_or_empty, group. cbn [m_caps].
  cbn [pos prev rest caps] in *. rewrite C1, P1 in *.
  split; [lia|]. split; [exact F1|].
  destruct H3 as [->|(c & w & Hc & Rc & Pc & ->)]; cbn [caps cap_lookup Nat.eqb pos rest] in *.
  - split; [rewrite R1; apply slice_prefix|left; reflexivity].
  - split; [rewrite R1; apply slice_prefix|].
    right. eexists _, c, w. split; [exact Hc|]. cbn [pos rest].
    split; [exact Rc|]. split; [exact Pc|]. f_equal. rewrite Pc, R1, Rc.
    apply slice_app_mid.
Qed.

Lemma re_fullmatch_inv r text :
  re_fullmatch r text = true ->
  exists s', In s' (run r (St 0 None text [])) /\ rest s' = [].
Proof.
  unfold re_fullmatch, re_match. intros H.
  destruct (match_here (Seq r EndZ) 0 None text) as [m|] eqn:E; [|discriminate].
  apply match_here_inv in E. destruct E as (s' & F & _). apply first_run_in in F.
  apply in_run_seq in F. destruct F as (s1 & H1 & H2).
  apply in_run_endz in H2. destruct H2 as [-> R]. exists s1. auto.
Qed.

Lemma fullmatch_rep_inv lo hi p text :
  re_fullmatch (Rep lo hi p) text = true ->
  Forall (fun c => p c = true) text
  /\ (lo <= N.of_nat (List.length text))%N
  /\ forall h, hi = Some h -> (N.of_nat (List.length text) <= h)%N.
Proof.
  intros H. apply re_fullmatch_inv in H. destruct H as (s' & H & R).
  apply in_run_rep in H. destruct H as (w & Rw & F & _ & _ & _ & L & U).
  simpl in Rw. rewrite R, app_nil_r in Rw. subst w. auto.
Qed.

Lemma fullmatch_chr_inv p text :
  re_fullmatch (Chr p) text = true -> exists x, text = [x] /\ p x = true.
Proof.
  intros H. apply re_fullmatch_inv in H. destruct H as (s' & H & R).
  apply in_run_chr in H. destruct H as (x & l & Rx & X & ->). simpl in *.
  subst l. exists x. auto.
Qed.

Lemma fullmatch_tail_digits tm tail text :
  (0 < tm)%Z -> tail_body tm = Some tail -> re_fullmatch tail text = true ->
  Forall (fun c => is_decimal c = true) text
  /\ 1 <= List.length text /\ (Z.of_nat (List.length text) <= tm)%Z.
Proof.
  intros Hp Ht H. apply re_fullmatch_inv in H. destruct H as (s' & H & R).
  destruct (tail_digits tm tail _ _ Hp Ht H) as (w & Rw & _ & F & L & U).
  simpl in Rw. rewrite R, app_nil_r in Rw. subst w. auto.
Qed.

Lemma finditer_aux_matches r : forall l skip ps pv,
  Forall (fun m => exists k pv', k <= List.length l /\ m_start m = ps + k
                     /\ match_here r (ps + k) pv' (skipn k l) = Some m)
         (finditer_aux r skip ps pv l).
Proof.
  induction l as [|x l IH]; intros skip ps pv.
  - destruct skip as [|k]; simpl; [|constructor].
    destruct (match_here r ps pv []) as [m|] eqn:E; constructor; [|constructor].
    exists 0, pv. simpl. rewrite Nat.add_0_r. repeat split; auto.
    apply match_here_span in E. apply E.
  - assert (T : forall k, Forall (fun m => exists k0 pv', k0 <= List.length (x :: l)
                     /\ m_start m = ps + k0
                     /\ match_here r (ps + k0) pv' (skipn k0 (x :: l)) = Some m)
                     (finditer_aux r k (S ps) (Some x) l)).
    { intros k. eapply Forall_impl; [|apply (IH k (S ps) (Some x))].
      simpl. intros m (k0 & pv' & Hk & Hs & Hm). exists (S k0), pv'. simpl.
      replace (ps + S k0) with (S (ps + k0)) by lia. repeat split; auto; lia. }
    destruct skip as [|k]; cbn [finditer_aux]; [|apply T].
    destruct (match_here r ps pv (x :: l)) as [m|] eqn:E; [|apply T].
    constructor; [|apply T]. exists 0, pv. simpl. rewrite Nat.add_0_r.
    repeat split; auto; try lia. apply match_here_span in E. apply E.
Qed.

Lemma findall_class p text t :
  In t (re_findall (Rep 1 None p) text) ->
  t <> [] /\ Forall (fun c => p c = true) t.
Proof.
  unfold re_findall, re_finditer. intros H. apply in_map_iff in H.
  destruct H as (m & <- & Hm).
  pose proof (finditer_aux_matches (Rep 1 None p) text 0 0 None) as F.
  rewrite Forall_forall in F. destruct (F m Hm) as (k & pv' & Hk & Hs & Hmm).
  simpl in Hs, Hmm. apply match_here_inv in Hmm. destruct Hmm as (s' & Fr & ->).
  apply first_run_in in Fr. apply in_run_rep in Fr.
  destruct Fr as (w & R & Fw & P & _ & _ & L & _). simpl in R, P.
  unfold group0. simpl. rewrite P. unfold slice.
  replace (k + List.length w - k) with (List.length w) by lia.
  rewrite R, firstn_app_exact. split; [|exact Fw].
  destruct w; [simpl in L; lia|discriminate].
Qed.

Lemma rep_run_map f p lo hi :
  (forall c, p (f c) = p c) ->
  forall l n ps pv cs,
  rep_run p lo hi n ps (option_map f pv) cs (map f l)
  = map (map_state f) (rep_run p lo hi n ps pv cs l).
Proof.
  intros Hp. induction l as [|x l IH]; intros n ps pv cs.
  - simpl. destruct (lo <=? n)%N; reflexivity.
  - simpl. rewrite map_app, Hp. f_equal.
    + destruct (p x && below n hi); [|reflexivity]. apply (IH _ _ (Some x)).
    + destruct (lo <=? n)%N; reflexivity.
Qed.

Lemma flat_map_map {A B C} (g : A -> B) (h : B -> list C) l :
  flat_map h (map g l) = flat_map (fun a => h (g a)) l.
Proof. induction l; simpl; congruence. Qed.

Lemma map_flat_map {A B C} (g : B -> C) (h : A -> list B) l :
  map g (flat_map h l) = flat_map (fun a => map g (h a)) l.
Proof. induction l; simpl; auto. rewrite map_app. congruence. Qed.

Lemma run_map f r :
  (forall c, (f c =? 10)%N = (c =? 10)%N) ->
  compat f r ->
  forall s, run r (map_state f s) = map (map_state f) (run r s).
Proof.
  intros Hn. induction r; intros Hc s; simpl in Hc.
  - reflexivity.
  - simpl. destruct (rest s) as [|x l]; [reflexivity|]. simpl. rewrite Hc.
    destruct (p x); reflexivity.
  - destruct Hc as [H1 H2]. cbn [run]. rewrite (IHr1 H1), flat_map_map, map_flat_map.
    apply flat_map_ext. intros a. apply (IHr2 H2).
  - destruct Hc as [H1 H2]. cbn [run]. rewrite map_app, (IHr1 H1), (IHr2 H2). reflexivity.
  - cbn [run]. rewrite map_app, (IHr Hc). reflexivity.
  - cbn [run]. apply (rep_run_map f p lo hi Hc).
  - cbn [run]. rewrite (IHr Hc), !map_map. reflexivity.
  - simpl. destruct (prev s); reflexivity.
  - simpl. destruct (prev s) as [c|]; [|reflexivity]. simpl. rewrite Hn.
    destruct (c =? 10)%N; reflexivity.
  - simpl. destruct (rest s) as [|c [|c' l]]; try reflexivity. simpl. rewrite Hn.
    destruct (c =? 10)%N; reflexivity.
  - simpl. destruct (rest s) as [|c l]; [reflexivity|]. simpl. rewrite Hn.
    destruct (c =? 10)%N; reflexivity.
  - simpl. destruct (rest s); reflexivity.
  - simpl.
    replace (word_at (option_map f (prev s))) with (word_at (prev s))
      by (destruct (prev s); simpl; auto).
    replace (word_at (hd_error (map f (rest s)))) with (word_at (hd_error (rest s)))
      by (destruct (rest s); simpl; auto).
    destruct (xorb _ _); reflexivity.
  - cbn [run]. rewrite (IHr Hc). destruct (run r s); reflexivity.
Qed.

Lemma compat_lit_ci f w : (forall l c, ci l (f c) = ci l c) -> compat f (lit_ci w).
Proof. intros H. induction w; simpl; auto. Qed.

Lemma upper_lower c : ascii_lower (ascii_upper c) = ascii_lower c.
Proof.
  unfold ascii_lower, ascii_upper.
  destruct ((97 <=? c)%N && (c <=? 122)%N) eqn:E.
  - apply andb_true_iff in E. rewrite !N.leb_le in E.
    replace ((65 <=? c - 32)%N && (c - 32 <=? 90)%N) with true
      by (symmetry; apply andb_true_iff; rewrite !N.leb_le; lia).
    replace ((65 <=? c)%N && (c <=? 90)%N) with false
      by (symmetry; apply andb_false_iff; rewrite !N.leb_gt; lia).
    lia.
  - reflexivity.
Qed.

Lemma upper_eqb c k : (122 < k)%N -> (ascii_upper c =? k)%N = (c =? k)%N.
Proof.
  intros H. unfold ascii_upper.
  destruct ((97 <=? c)%N && (c <=? 122)%N) eqn:E; [|reflexivity].
  apply andb_true_iff in E. rewrite !N.leb_le in E.
  destruct (N.eqb_spec (c - 32) k); destruct (N.eqb_spec c k); auto; lia.
Qed.

Lemma upper_newline c : (ascii_upper c =? 10)%N = (c =? 10)%N.
Proof.
  unfold ascii_upper.
  destruct ((97 <=? c)%N && (c <=? 122)%N) eqn:E; [|reflexivity].
  apply andb_true_iff in E. rewrite !N.leb_le in E.
  destruct (N.eqb_spec (c - 32) 10); destruct (N.eqb_spec c 10); auto; lia.
Qed.

Lemma ci_upper l c : ci l (ascii_upper c) = ci l c.
Proof.
  unfold ci. rewrite upper_lower, !upper_eqb by lia. reflexivity.
Qed.

Lemma is_roman_ci_upper c : is_roman_ci (ascii_upper c) = is_roman_ci c.
Proof. unfold is_roman_ci. rewrite !ci_upper. reflexivity. Qed.

Lemma roman_compat : compat ascii_upper _ROMAN_RE.
Proof.
  unfold _ROMAN_RE. simpl.
  repeat split; try apply compat_lit_ci; try apply ci_upper;
    try apply is_roman_ci_upper; auto.
Qed.

Lemma is_roman_upper tok : _is_roman (map ascii_upper tok) = _is_roman tok.
Proof.
  unfold _is_roman, re_match, match_here.
  change (St 0 None (map ascii_upper tok) [])
    with (map_state ascii_upper (St 0 None tok [])).
  rewrite (run_map ascii_upper _ROMAN_RE upper_newline roman_compat).
  destruct (run _ROMAN_RE (St 0 None tok [])); reflexivity.
Qed.

Lemma in_run_ahead r s s' :
  In s' (run (Ahead r) s) -> s' = s /\ exists s1, In s1 (run r s).
Proof.
  simpl. destruct (run r s) as [|s1 Y]; [intros []|].
  intros [<-|[]]. split; [reflexivity|]. exists s1. left. reflexivity.
Qed.

Lemma is_roman_inv g :
  _is_roman g = true ->
  exists w e, g = w ++ e /\ Forall (fun c => is_roman_ci c = true) w
    /\ 1 <= List.length w <= 8 /\ (e = [] \/ e = [10%N]).
Proof.
  unfold _is_roman, re_match. intros H.
  destruct (match_here _ROMAN_RE 0 None g) as [m|] eqn:E; [|discriminate].
  apply match_here_inv in E. destruct E as (sf & F & _). apply first_run_in in F.
  unfold _ROMAN_RE in F.
  apply in_run_cat_cons in F. destruct F as (s0 & H0 & F).
  apply in_run_caret in H0. destruct H0 as [-> _].
  apply in_run_cat_cons in F. destruct F as (s1 & H1 & _).
  apply in_run_ahead in H1. destruct H1 as [_ (s2 & H2)].
  apply in_run_cat_cons in H2. destruct H2 as (s3 & H3 & H2).
  apply in_run_rep in H3. destruct H3 as (w & R & Fw & _ & _ & _ & L & U).
  apply in_run_cat_cons in H2. destruct H2 as (s4 & H4 & _).
  apply in_run_dollar in H4. destruct H4 as [-> D].
  simpl in R. specialize (U _ eq_refl). exists w, (rest s3).
  repeat split; auto; lia.
Qed.

Lemma roman_letter_in c : is_roman_letter c = true -> In c roman_letters.
Proof.
  unfold is_roman_letter. intros H. apply existsb_exists in H.
  destruct H as (a & Ha & E). apply N.eqb_eq in E. subst a. exact Ha.
Qed.

Lemma roman_letter_facts c :
  is_roman_letter c = true ->
  is_ascii_letter c = true /\ is_roman_letter (ascii_upper c) = true
  /\ is_decimal c = false.
Proof.
  intros H. apply roman_letter_in in H. unfold roman_letters in H. simpl in H.
  repeat (destruct H as [<-|H]; [repeat split; vm_compute; reflexivity|]).
  destruct H.
Qed.

Lemma alnum_roman_all :
  forallb (fun c => implb (is_ascii_alnum c && is_roman_ci c) (is_roman_letter c))
          (map N.of_nat (seq 0 128)) = true.
Proof. vm_compute. reflexivity. Qed.

Lemma alnum_roman c :
  is_ascii_alnum c = true -> is_roman_ci c = true -> is_roman_letter c = true.
Proof.
  intros A R. pose proof alnum_roman_all as H. rewrite forallb_forall in H.
  specialize (H c). rewrite A, R in H. apply H.
  apply in_map_iff. exists (N.to_nat c). split; [lia|]. apply in_seq.
  unfold is_ascii_alnum, is_ascii_letter, is_ascii_digit in A.
  rewrite !orb_true_iff, !andb_true_iff, !N.leb_le in A. lia.
Qed.

Lemma roman_token t0 :
  Forall (fun c => is_ascii_alnum c = true) t0 -> _is_roman t0 = true ->
  1 <= List.length t0 <= 8 /\ Forall (fun c => is_roman_letter c = true) t0.
Proof.
  intros A R. apply is_roman_inv in R. destruct R as (w & e & -> & Fw & L & E).
  assert (e = []).
  { destruct E as [->| ->]; [reflexivity|]. apply Forall_app in A. destruct A as [_ A].
    inversion A as [|? ? X _]; subst. vm_compute in X. discriminate. }
  subst e. rewrite app_nil_r in *. split; [exact L|].
  rewrite Forall_forall in *. intros c Hc. apply alnum_roman; auto.
Qed.

(** *** The second pass over a canonical number *)
Lemma remove_char_id c s : Forall (fun x => x <> c) s -> remove_char c s = s.
Proof.
  unfold remove_char. induction 1 as [|x s Hx _ IH]; simpl; [reflexivity|].
  destruct (N.eqb_spec x c); [contradiction|]. simpl. congruence.
Qed.

Lemma arabic_fwd tm tail d l :
  tail_body tm = Some tail ->
  1 <= List.length d <= 3 -> Forall (fun c => is_decimal c = true) d ->
  (l = [] \/ exists x, l = [x] /\ is_ascii_letter x = true) ->
  exists m, re_match (arabic_re tail) (d ++ l) = Some m
    /\ group_or_empty (d ++ l) m 1 = d /\ group_or_empty (d ++ l) m 2 = l
    /\ group (d ++ l) m 3 = None.
Proof.
  intros Ht Ld Fd Hl.
  assert (F1 : first_run (Grp 1 (Rep 1 (Some 3%N) is_decimal)) (St 0 None (d ++ l) [])
                 (St (List.length d) (last_or d None) l [(1, (0, List.length d))])).
  { pose proof (first_run_grp 1 (Rep 1 (Some 3%N) is_decimal) (St 0 None (d ++ l) [])
                  (St (0 + List.length d) (last_or d None) l [])) as H.
    simpl in H. apply H. apply (first_run_rep is_decimal 1 (Some 3%N) 0 None [] d l).
    - exact Fd.
    - lia.
    - intros h [= <-]. lia.
    - destruct Hl as [->|(x & -> & X)]; [left; reflexivity|].
      right. left. exists x, []. split; [reflexivity|].
      apply (ascii_letter_facts x X). }
  assert (T : forall ps pv cs, first_run (Opt (Grp 3 tail)) (St ps pv [] cs) (St ps pv [] cs)).
  { intros. apply first_run_opt_skip. simpl. rewrite (tail_at_end tm tail _ _ _ Ht). reflexivity. }
  destruct Hl as [->|(x & -> & X)].
  - assert (F : first_run (arabic_re tail) (St 0 None (d ++ []) [])
                  (St (List.length d) (last_or d None) [] [(1, (0, List.length d))])).
    { unfold arabic_re.
      eapply first_run_cat_cons; [apply first_run_caret|].
      eapply first_run_cat_cons; [exact F1|].
      eapply first_run_cat_cons; [apply first_run_opt_skip; reflexivity|].
      eapply first_run_cat_cons; [apply T|].
      eapply first_run_cat_cons; [apply first_run_dollar|apply first_run_cat_nil]. }
    apply first_run_match in F. eexists. split; [exact F|].
    unfold group_or_empty, group. simpl. repeat split; auto. apply slice_prefix.
  - assert (F : first_run (arabic_re tail) (St 0 None (d ++ [x]) [])
                  (St (S (List.length d)) (Some x) []
                      [(2, (List.length d, S (List.length d))); (1, (0, List.length d))])).
    { unfold arabic_re.
      eapply first_run_cat_cons; [apply first_run_caret|].
      eapply first_run_cat_cons; [exact F1|].
      eapply first_run_cat_cons.
      { apply first_run_opt.
        apply (first_run_grp 2 (Chr is_ascii_letter)
                 (St (List.length d) (last_or d None) [x] [(1, (0, List.length d))])
                 (St (S (List.length d)) (Some x) [] [(1, (0, List.length d))])).
        apply first_run_chr. exact X. }
      eapply first_run_cat_cons; [apply T|].
      eapply first_run_cat_cons; [apply first_run_dollar|apply first_run_cat_nil]. }
    apply first_run_match in F. eexists. split; [exact F|].
    unfold group_or_empty, group. simpl. repeat split; auto.
    + apply slice_prefix.
    + pose proof (slice_app_mid d [x] []) as Q. simpl in Q.
      replace (List.length d + 1) with (S (List.length d)) in Q by lia. exact Q.
Qed.

Lemma arabic_no_match tail g :
  groups tail = [] ->
  match g with x :: _ => is_decimal x = false | [] => True end ->
  re_match (arabic_re tail) g = None.
Proof.
  intros G H. destruct (re_match (arabic_re tail) g) as [m|] eqn:E; [|reflexivity].
  apply arabic_inv in E; [|exact G].
  destruct E as (g1 & l & ((L & _) & F) & _ & _ & _ & _ & tl & ->).
  destruct g1 as [|c g1]; [simpl in L; lia|]. simpl in H.
  inversion F; subst. congruence.
Qed.

Lemma roman_fwd tm tail g :
  tail_body tm = Some tail ->
  1 <= List.length g <= 8 -> Forall (fun c => is_roman_letter c = true) g ->
  exists m, re_match (roman_re tail) g = Some m
    /\ group_or_empty g m 1 = g /\ group g m 3 = None.
Proof.
  intros Ht L Fg.
  assert (F : first_run (roman_re tail) (St 0 None (g ++ []) [])
                (St (List.length g) (last_or g None) [] [(1, (0, List.length g))])).
  { unfold roman_re.
    eapply first_run_cat_cons; [apply first_run_caret|].
    eapply first_run_cat_cons.
    { pose proof (first_run_grp 1 (Rep 1 (Some 8%N) is_roman_letter) (St 0 None (g ++ []) [])
                    (St (0 + List.length g) (last_or g None) [] [])) as H.
      simpl in H. apply H. apply (first_run_rep is_roman_letter 1 (Some 8%N) 0 None [] g []).
      - exact Fg.
      - lia.
      - intros h [= <-]. lia.
      - left. reflexivity. }
    eapply first_run_cat_cons.
    { apply first_run_opt_skip. simpl. rewrite (tail_at_end tm tail _ _ _ Ht). reflexivity. }
    eapply first_run_cat_cons; [apply first_run_dollar|apply first_run_cat_nil]. }
  rewrite app_nil_r in F. apply first_run_match in F. eexists. split; [exact F|].
  unfold group_or_empty, group. simpl. split; [|reflexivity].
  pose proof (slice_prefix g []) as Q. rewrite app_nil_r in Q. exact Q.
Qed.

Lemma normalize_rest_arabic P tm body :
  tail_body tm <> None -> arabic_body body ->
  normalize_rest P body tm = Some (P ++ u " " ++ body, None).
Proof.
  intros Ht (n & l & Hn & -> & Hl).
  destruct (tail_body tm) as [tail|] eqn:Et; [|congruence].
  destruct (str_of_N_small n Hn) as (L & Fd & I).
  assert (Fdec : Forall (fun c => is_decimal c = true) (str_of_N n)).
  { eapply Forall_impl; [|exact Fd]. intros c Hc. apply (ascii_digit_facts c Hc). }
  assert (Hl' : l = [] \/ exists x, l = [x] /\ is_ascii_letter x = true).
  { destruct Hl as [->|(x & -> & X & _)]; [left; auto|right; exists x; auto]. }
  destruct (arabic_fwd tm tail (str_of_N n) l Et L Fdec Hl') as (m & Em & G1 & G2 & G3).
  unfold normalize_rest. rewrite Et.
  rewrite remove_char_id.
  - rewrite Em, G1, G2, G3, I. do 4 f_equal.
    destruct Hl as [->|(x & -> & _ & Lx)]; simpl; congruence.
  - apply Forall_app. split.
    + eapply Forall_impl; [|exact Fd]. intros c Hc. apply (ascii_digit_facts c Hc).
    + destruct Hl as [->|(x & -> & X & _)]; constructor; [|constructor].
      apply (ascii_letter_facts x X).
Qed.

Lemma normalize_rest_roman P tm body :
  tail_body tm <> None -> roman_body body ->
  normalize_rest P body tm = Some (P ++ u " " ++ body, None).
Proof.
  intros Ht (L & Fg & U & R).
  destruct (tail_body tm) as [tail|] eqn:Et; [|congruence].
  destruct (roman_fwd tm tail body Et L Fg) as (m & Em & G1 & G3).
  unfold normalize_rest. rewrite Et.
  rewrite remove_char_id.
  - rewrite arabic_no_match.
    + rewrite Em. cbv beta iota zeta. rewrite G1, R. cbv beta iota zeta.
      rewrite G1, G3, U. reflexivity.
    + apply (tail_groups tm tail Et).
    + destruct body as [|c body]; [exact I|]. inversion Fg; subst.
      apply (roman_letter_facts c); assumption.
  - eapply Forall_impl; [|exact Fg]. intros c Hc.
    destruct (roman_letter_facts c Hc) as (A & _). apply (ascii_letter_facts c A).
Qed.

Lemma tail_group_foot tail text g3 : tail_group tail text g3 -> foot_ok tail g3.
Proof.
  intros [->|(s3 & s4 & w & H & R & P & ->)]; simpl; auto.
  left. exists s3, s4. auto.
Qed.

Lemma upper_idem c : ascii_upper (ascii_upper c) = ascii_upper c.
Proof.
  unfold ascii_upper at 2 3.
  destruct ((97 <=? c)%N && (c <=? 122)%N) eqn:E; unfold ascii_upper.
  - apply andb_true_iff in E. rewrite !N.leb_le in E.
    replace ((97 <=? c - 32)%N && (c - 32 <=? 122)%N) with false; [reflexivity|].
    symmetry. apply andb_false_iff. rewrite !N.leb_gt. lia.
  - rewrite E. reflexivity.
Qed.

Lemma roman_body_upper g :
  1 <= List.length g <= 8 -> Forall (fun c => is_roman_letter c = true) g ->
  _is_roman g = true -> roman_body (map ascii_upper g).
Proof.
  intros L F R. unfold roman_body. rewrite length_map, is_roman_upper, map_map.
  split; [exact L|]. split; [|split; [|exact R]].
  - apply Forall_map. eapply Forall_impl; [|exact F]. intros c Hc.
    apply (roman_letter_facts c Hc).
  - apply map_ext. intros c. apply upper_idem.
Qed.

Lemma arabic_body_digits g l :
  1 <= List.length g <= 3 ->
  (l = [] \/ exists x, l = [x] /\ is_ascii_letter x = true) ->
  arabic_body (str_of_N (int_of_digits g) ++ map ascii_lower l).
Proof.
  intros L Hl. exists (int_of_digits g), (map ascii_lower l).
  split; [apply int_of_digits_small; lia|]. split; [reflexivity|].
  destruct Hl as [->|(x & -> & X)]; [left; reflexivity|].
  right. exists (ascii_lower x). split; [reflexivity|]. apply (ascii_letter_facts x X).
Qed.

Lemma from_tokens_inv P tail toks num foot :
  Forall (fun t => Forall (fun c => is_ascii_alnum c = true) t) toks ->
  from_tokens P tail toks = Some (num, foot) ->
  (exists body, (arabic_body body \/ roman_body body) /\ num = P ++ u " " ++ body)
  /\ foot_ok tail foot.
Proof.
  intros A H. destruct toks as [|t0 ts]; [discriminate|]. simpl in H.
  inversion A as [|? ? A0 A']; subst.
  destruct (re_fullmatch (Rep 1 (Some 3%N) is_decimal) t0) eqn:E0.
  - apply fullmatch_rep_inv in E0. destruct E0 as (_ & L0 & U0).
    specialize (U0 _ eq_refl).
    assert (L : 1 <= List.length t0 <= 3) by lia.
    destruct ts as [|t1 ts'].
    + injection H as <- <-. split; [|exact I].
      exists (str_of_N (int_of_digits t0) ++ map ascii_lower []). split.
      * left. apply arabic_body_digits; auto.
      * simpl. rewrite app_nil_r. reflexivity.
    + destruct (re_fullmatch (Chr is_ascii_letter) t1) eqn:E1.
      * apply fullmatch_chr_inv in E1. destruct E1 as (x & -> & X).
        injection H as <- <-. split.
        -- exists (str_of_N (int_of_digits t0) ++ map ascii_lower [x]). split; [|reflexivity].
           left. apply arabic_body_digits; auto. right. exists x. auto.
        -- destruct ts' as [|t2 ts'']; [exact I|].
           destruct (re_fullmatch tail t2) eqn:E2; [|exact I]. right. exact E2.
      * destruct (re_fullmatch tail t1) eqn:E2; injection H as <- <-.
        -- split; [|right; exact E2].
           exists (str_of_N (int_of_digits t0) ++ map ascii_lower []). split.
           ++ left. apply arabic_body_digits; auto.
           ++ simpl. rewrite app_nil_r. reflexivity.
        -- split; [|exact I].
           exists (str_of_N (int_of_digits t0) ++ map ascii_lower []). split.
           ++ left. apply arabic_body_digits; auto.
           ++ simpl. rewrite app_nil_r. reflexivity.
  - destruct (_is_roman t0) eqn:R; [|discriminate]. injection H as <- <-.
    destruct (roman_token t0 A0 R) as (L & F). split.
    + exists (map ascii_upper t0). split; [|reflexivity]. right.
      apply roman_body_upper; auto.
    + destruct ts as [|t1 ts']; [exact I|].
      destruct (re_fullmatch tail t1) eqn:E2; [|exact I]. right. exact E2.
Qed.

Lemma tokens_alnum text :
  Forall (fun t => Forall (fun c => is_ascii_alnum c = true) t) (re_findall token_re text).
Proof.
  apply Forall_forall. intros t Ht. apply (findall_class is_ascii_alnum text t Ht).
Qed.

(** The ways in which [normalize_rest] returns. *)
Lemma normalize_rest_cases P rest tm num foot :
  normalize_rest P rest tm = Some (num, foot) ->
  exists tail, tail_body tm = Some tail /\ foot_ok tail foot
    /\ ((exists body, (arabic_body body \/ roman_body body) /\ num = P ++ u " " ++ body)
        \/ (num = P ++ u " " ++ strip rest /\ foot = None)).
Proof.
  intros H. unfold normalize_rest in H.
  destruct (tail_body tm) as [tail|] eqn:Et; [|discriminate].
  exists tail. split; [reflexivity|].
  pose proof (tail_groups tm tail Et) as G.
  assert (K : forall num foot,
    match from_tokens P tail (re_findall token_re (translate rest)) with
    | Some r => Some r
    | None => Some (P ++ u " " ++ strip rest, None)
    end = Some (num, foot) ->
    foot_ok tail foot
    /\ ((exists body, (arabic_body body \/ roman_body body) /\ num = P ++ u " " ++ body)
        \/ (num = P ++ u " " ++ strip rest /\ foot = None))).
  { intros num' foot' H'.
    destruct (from_tokens P tail (re_findall token_re (translate rest))) as [[n f]|] eqn:E.
    - injection H' as -> ->. apply from_tokens_inv in E; [|apply tokens_alnum].
      destruct E as [B F]. split; [exact F|left; exact B].
    - injection H' as <- <-. split; [exact I|right; auto]. }
  destruct (re_match (arabic_re tail) (remove_char 32 rest)) as [m|] eqn:Ea.
  - injection H as <- <-. apply arabic_inv in Ea; [|exact G].
    destruct Ea as (g1 & l & (L & _) & Hl & -> & -> & T & _).
    split; [apply (tail_group_foot _ _ _ T)|]. left.
    exists (str_of_N (int_of_digits g1) ++ map ascii_lower l). split; [|reflexivity].
    left. apply arabic_body_digits; auto.
  - destruct (re_match (roman_re tail) (remove_char 32 rest)) as [m|] eqn:Er;
      [|apply K; exact H].
    destruct (_is_roman (group_or_empty (remove_char 32 rest) m 1)) eqn:Ei;
      [|apply K; exact H].
    injection H as <- <-. apply roman_inv in Er; [|exact G].
    destruct Er as (g & L & F & Eg & T). rewrite Eg in *.
    split; [apply (tail_group_foot _ _ _ T)|]. left.
    exists (map ascii_upper g). split; [|reflexivity]. right.
    apply roman_body_upper; auto.
Qed.

Lemma normalize_rest_total P rest tm :
  tm <> 0%Z -> (tm < MAXREPEAT)%Z -> exists r, normalize_rest P rest tm = Some r.
Proof.
  intros H0 H1. destruct (tail_body_total tm H0 H1) as (tail & Et).
  unfold normalize_rest. rewrite Et.
  destruct (re_match (arabic_re tail) _); [eexists; reflexivity|].
  destruct (match re_match (roman_re tail) _ with Some _ => _ | None => _ end);
    [eexists; reflexivity|].
  destruct (from_tokens _ _ _); eexists; reflexivity.
Qed.

Lemma body_clean body :
  arabic_body body \/ roman_body body -> tidy body = true /\ sup_free body.
Proof.
  intros H.
  assert (F : Forall (fun c => is_space c = false /\ _SUP_MAP c = c) body).
  { destruct H as [(n & l & Hn & -> & Hl)|(L & F & _)].
    - apply Forall_app. split.
      + destruct (str_of_N_small n Hn) as (_ & Fd & _).
        eapply Forall_impl; [|exact Fd]. intros c Hc.
        split; apply (ascii_digit_facts c Hc).
      + destruct Hl as [->|(x & -> & X & _)]; constructor; [|constructor].
        split; apply (ascii_letter_facts x X).
    - eapply Forall_impl; [|exact F]. intros c Hc.
      destruct (roman_letter_facts c Hc) as (A & _).
      split; apply (ascii_letter_facts c A). }
  split.
  - apply nospace_tidy. apply forallb_forall. intros c Hc.
    rewrite Forall_forall in F. destruct (F c Hc) as [-> _]. reflexivity.
  - eapply Forall_impl; [|exact F]. intros c Hc. apply Hc.
Qed.

(** A second pass over the number that a first pass returned. *)
Lemma normalize_rest_again P rest tm num foot :
  tidy rest = true -> sup_free rest ->
  normalize_rest P rest tm = Some (num, foot) ->
  exists body, num = P ++ u " " ++ body /\ tidy body = true /\ sup_free body
    /\ normalize_rest P body tm = Some (num, None).
Proof.
  intros T S H. pose proof H as H'. apply normalize_rest_cases in H'.
  destruct H' as (tail & Et & _ & [(body & B & ->)|(-> & ->)]).
  - exists body. destruct (body_clean body B) as (Tb & Sb).
    split; [reflexivity|]. split; [exact Tb|]. split; [exact Sb|].
    destruct B as [B|B]; [apply normalize_rest_arabic|apply normalize_rest_roman];
      auto; congruence.
  - rewrite (tidy_strip rest T) in *. exists rest. auto.
Qed.

Lemma normalize_unfold raw tm :
  raw <> [] ->
  normalize_article_number raw tm
  = match re_match prefix_re (preprocess raw) with
    | None => Some (preprocess raw, None)
    | Some m => normalize_rest (u "Art.") (group_or_empty (preprocess raw) m 2) tm
    end.
Proof. destruct raw; [congruence|reflexivity]. Qed.

Lemma preprocess_clean raw : tidy (preprocess raw) = true /\ sup_free (preprocess raw).
Proof.
  unfold preprocess. split; [|apply sup_free_translate].
  rewrite translate_tidy, re_sub_ws. apply collapse_strip_tidy.
Qed.

Lemma preprocess_id s : tidy s = true -> sup_free s -> preprocess s = s.
Proof.
  intros T S. unfold preprocess.
  rewrite (tidy_strip s T), re_sub_ws, (tidy_collapse s T). apply sup_free_id. exact S.
Qed.

Lemma tidy_tail_of_tidy x s : tidy (x :: s) = true -> is_space x = false /\ tidy_tail s = true.
Proof.
  simpl. intros H. apply andb_true_iff in H. destruct H as [X T].
  split; [|exact T]. destruct (is_space x); [discriminate|reflexivity].
Qed.

Lemma tidy_tail_cons x s : is_space x = false -> tidy_tail (x :: s) = tidy_tail s.
Proof. intros X. simpl. rewrite X. reflexivity. Qed.

Lemma sup_free_dropwhile p s : sup_free s -> sup_free (dropwhile p s).
Proof.
  unfold sup_free. induction 1 as [|x s Hx Hs IH]; simpl; [constructor|].
  destruct (p x); [exact IH|constructor; assumption].
Qed.

Lemma sup_free_drop_dot s : sup_free s -> sup_free (drop_dot s).
Proof.
  unfold sup_free. destruct s as [|x s]; simpl; auto.
  intros H. destruct (x =? 46)%N; [inversion H; assumption|exact H].
Qed.

Lemma tidy_tail_drop_dot s : tidy_tail s = true -> tidy_tail (drop_dot s) = true.
Proof.
  destruct s as [|x s]; simpl; auto. destruct (N.eqb_spec x 46); [|auto].
  subst x. change (is_space 46) with false. auto.
Qed.

(** The match of the prefix in a tidy string. *)
Lemma prefix_match_tidy s m :
  tidy s = true -> sup_free s -> re_match prefix_re s = Some m ->
  tidy (group_or_empty s m 2) = true /\ sup_free (group_or_empty s m 2).
Proof.
  intros T S H.
  destruct (prefix_match_inv s m H (proj1 (tidy_ok s T))) as (a & r & t & s' & -> & Ha & Hr & Ht).
  destruct (prefix_match_fwd a r t s' Ha Hr Ht) as (m' & Em & G).
  rewrite H in Em. injection Em as <-. rewrite G.
  destruct (ci_art_cases 114 r (or_intror (or_introl eq_refl)) Hr) as (Sr & _).
  destruct (ci_art_cases 116 t (or_intror (or_intror eq_refl)) Ht) as (St & _).
  apply tidy_tail_of_tidy in T. destruct T as [_ T].
  rewrite (tidy_tail_cons r _ Sr), (tidy_tail_cons t _ St) in T.
  split.
  - apply tidy_tail_dropwhile, tidy_tail_drop_dot. exact T.
  - apply sup_free_dropwhile, sup_free_drop_dot.
    inversion S as [|? ? _ S1]; subst. inversion S1 as [|? ? _ S2]; subst.
    inversion S2; subst. assumption.
Qed.

Lemma second_pass body tm :
  tidy body = true -> sup_free body ->
  normalize_article_number (u "Art. " ++ body) tm = normalize_rest (u "Art.") body tm.
Proof.
  intros T S. rewrite normalize_unfold by discriminate.
  destruct body as [|y b].
  - replace (preprocess (u "Art. " ++ [])) with (u "Art.") by (vm_compute; reflexivity).
    destruct (prefix_match_fwd 65 114 116 [46%N] eq_refl eq_refl eq_refl) as (m & Em & G).
    change (u "Art.") with [65; 114; 116; 46]%N. rewrite Em, G. reflexivity.
  - destruct (tidy_tail_of_tidy y b T) as [Y Tb].
    assert (Traw : tidy (u "Art. " ++ y :: b) = true).
    { change (tidy (u "Art. " ++ y :: b))
        with (negb (is_space y) && tidy_tail (y :: b)).
      rewrite (tidy_tail_cons y b Y), Y, Tb. reflexivity. }
    assert (Sraw : sup_free (u "Art. " ++ y :: b)).
    { change (u "Art. " ++ y :: b) with (65 :: 114 :: 116 :: 46 :: 32 :: y :: b)%N.
      repeat (constructor; [reflexivity|]). exact S. }
    rewrite (preprocess_id _ Traw Sraw).
    change (u "Art. " ++ y :: b) with (65 :: 114 :: 116 :: 46 :: 32 :: y :: b)%N.
    destruct (prefix_match_fwd 65 114 116 (46 :: 32 :: y :: b)%N eq_refl eq_refl eq_refl)
      as (m & Em & G).
    rewrite Em, G.
    change (drop_dot (46 :: 32 :: y :: b)%N) with (32 :: y :: b)%N.
    change (dropwhile is_space (32 :: y :: b)%N) with (dropwhile is_space (y :: b)).
    simpl dropwhile. rewrite Y. reflexivity.
Qed.


(** *** Footnote and prefix *)
Lemma foot_digits tm tail foot :
  (0 < tm)%Z -> tail_body tm = Some tail -> foot_ok tail (Some foot) ->
  Forall (fun c => is_decimal c = true) foot
  /\ 1 <= List.length foot /\ (Z.of_nat (List.length foot) <= tm)%Z.
Proof.
  intros Hp Et [(s3 & s4 & H & R & P)|H].
  - destruct (tail_digits tm tail s3 s4 Hp Et H) as (w & Rw & Pw & F & L & U).
    assert (E : foot = w).
    { rewrite Rw in R. apply app_eq_length in R; [symmetry; apply R|lia]. }
    subst w. auto.
  - apply (fullmatch_tail_digits tm tail foot Hp Et H).
Qed.

Lemma dropwhile_app_all p ws l :
  Forall (fun c => p c = true) ws -> dropwhile p (ws ++ l) = dropwhile p l.
Proof. induction 1 as [|x ws Hx _ IH]; simpl; [reflexivity|]. rewrite Hx. exact IH. Qed.

Lemma rstrip_three a r t tl :
  is_space a = false -> is_space r = false -> is_space t = false ->
  exists tl', rstrip (a :: r :: t :: tl) = a :: r :: t :: tl'.
Proof.
  intros A R T. destruct (rstrip_spec (a :: r :: t :: tl)) as (w & E & F & _).
  destruct (rstrip (a :: r :: t :: tl)) as [|x1 [|x2 [|x3 tl']]]; simpl in E.
  - subst w. inversion F; subst. congruence.
  - injection E as <- <-. inversion F; subst. congruence.
  - injection E as <- <- <-. inversion F; subst. congruence.
  - injection E as <- <- <- _. exists tl'. reflexivity.
Qed.

Lemma preprocess_art ws a r t tl :
  Forall (fun c => is_space c = true) ws ->
  ci 97 a = true -> ci 114 r = true -> ci 116 t = true ->
  exists s', preprocess (ws ++ a :: r :: t :: tl) = a :: r :: t :: s'.
Proof.
  intros W Ha Hr Ht.
  destruct (ci_art_cases 97 a (or_introl eq_refl) Ha) as (Sa & Ma & _).
  destruct (ci_art_cases 114 r (or_intror (or_introl eq_refl)) Hr) as (Sr & Mr & _).
  destruct (ci_art_cases 116 t (or_intror (or_intror eq_refl)) Ht) as (St & Mt & _).
  unfold preprocess, strip, lstrip. rewrite (dropwhile_app_all _ _ _ W).
  simpl dropwhile. rewrite Sa.
  destruct (rstrip_three a r t tl Sa Sr St) as (tl' & ->).
  rewrite re_sub_ws. simpl collapse. rewrite Sa, Sr, St.
  unfold translate. simpl map. rewrite Ma, Mr, Mt. eexists. reflexivity.
Qed.

(** Claim C10, as amended.  For a tail bound of at least 1, a footnote that
    [normalize_article_number] returns is not empty, has at most
    [tail_max] characters, and its characters are decimal digits in the
    sense of the class "\d", which are not all ASCII.  For an input that
    starts, after whitespace, with the letters a, r, t in any case, the
    number returned starts with "Art. ". *)
Theorem footnote_and_prefix (raw : str) (tail_max : Z) (num : str) :
  (forall foot, (1 <= tail_max)%Z ->
     normalize_article_number raw tail_max = Some (num, Some foot) ->
     foot <> [] /\ (Z.of_nat (List.length foot) <= tail_max)%Z
     /\ Forall (fun c => is_decimal c = true) foot)
  /\ (forall foot ws a r t tl,
        raw = ws ++ a :: r :: t :: tl ->
        Forall (fun c => is_space c = true) ws ->
        ci 97 a = true -> ci 114 r = true -> ci 116 t = true ->
        normalize_article_number raw tail_max = Some (num, foot) ->
        exists body, num = u "Art. " ++ body).
Proof.
  split.
  - intros foot Hp H. destruct raw as [|c raw]; [discriminate|].
    rewrite normalize_unfold in H by discriminate.
    destruct (re_match prefix_re _) as [m|]; [|discriminate].
    apply normalize_rest_cases in H. destruct H as (tail & Et & F & _).
    destruct (foot_digits tail_max tail foot ltac:(lia) Et F) as (D & L & U).
    split; [destruct foot; [simpl in L; lia|discriminate]|]. auto.
  - intros foot ws a r t tl -> W Ha Hr Ht H.
    rewrite normalize_unfold in H by (destruct ws; discriminate).
    destruct (preprocess_art ws a r t tl W Ha Hr Ht) as (s' & E). rewrite E in H.
    destruct (prefix_match_fwd a r t s' Ha Hr Ht) as (m & Em & _). rewrite Em in H.
    apply normalize_rest_cases in H.
    destruct H as (_ & _ & _ & [(body & _ & ->)|(-> & _)]); eexists; reflexivity.
Qed.

(** The input "  ART70A 12". *)
Lemma footnote_and_prefix_witness :
  normalize_article_number (u "  ART70A 12") 2 = Some (u "Art. 70a", Some (u "12"))
  /\ (u "12" <> [] /\ (Z.of_nat (List.length (u "12")) <= 2)%Z
      /\ Forall (fun c => is_decimal c = true) (u "12"))
  /\ exists body, u "Art. 70a" = u "Art. " ++ body.
Proof.
  assert (E : normalize_article_number (u "  ART70A 12") 2 = Some (u "Art. 70a", Some (u "12")))
    by (vm_compute; reflexivity).
  destruct (footnote_and_prefix (u "  ART70A 12") 2 (u "Art. 70a")) as [H1 H2].
  split; [exact E|]. split.
  - apply H1; [lia|exact E].
  - apply (H2 (Some (u "12")) (u "  ") 65%N 82%N 84%N (u "70A 12"));
      [reflexivity|repeat constructor|reflexivity|reflexivity|reflexivity|exact E].
Defined.

(** A footnote that is an Arabic-Indic digit. *)
Lemma footnote_not_ascii :
  normalize_article_number (u "Art. 5a٣") 2 = Some (u "Art. 5a", Some [1635%N])
  /\ forallb is_ascii_digit [1635%N] = false.
Proof. split; vm_compute; reflexivity. Qed.




(** When the folding changes the length of the text before the markers, the
    offsets found in the folded text cut the text elsewhere: "ﬁ" is one
    character and its folding two. *)
Example title_offsets_shift :
  guess_doc_title_from_first_page
    [u "ﬁ Texte original Foo Conclue"] (u "fi Texte original Foo Conclue") [] []
  = u "Foo C".
Proof. vm_compute. reflexivity. Qed.

(** A Document with a good title, overwritten. *)
Lemma update_group_overwrites_title_witness :
  Reconciler.doc_lookup (u "0.747.205")
    (update_group [(u "0.747.205", Some (u "Convention sur la navigation"))]
       (Some (u "0.747.205"), Some (u "Titre inconnu"))
       [Art (Some (u "0.747.205")) (u "Art. 1")] (u "loi"))
  = Some (Some (u "Titre inconnu")).
Proof.
  apply (update_group_overwrites_title
           [(u "0.747.205", Some (u "Convention sur la navigation"))]
           48%N (tl (u "0.747.205")) (Some (u "Convention sur la navigation"))).
  vm_compute. reflexivity.
Defined.






















(** *** The full text and the page offsets *)
Lemma load_pages_eq : forall doc i full_text page_texts page_offsets,
  load_pages i doc full_text page_texts page_offsets
  = (full_text ++ text_from i doc, page_texts ++ doc,
     page_offsets ++ offsets_from i (List.length full_text) doc).
Proof.
  induction doc as [|txt doc IH]; intros i ft pt po;
    cbn [load_pages text_from offsets_from].
  - now rewrite !app_nil_r.
  - rewrite IH. rewrite <- !app_assoc. cbn [app]. rewrite !length_app.
    rewrite Nat.add_assoc. reflexivity.
Qed.

Lemma load_eq doc :
  load_pdf_text_with_pages doc = (text_from 0 doc, doc, offsets_from 0 0 doc).
Proof. unfold load_pdf_text_with_pages. now rewrite load_pages_eq. Qed.

Lemma page_break_length i : 19 <= List.length (page_break i).
Proof.
  unfold page_break. cbn [List.length]. rewrite !length_app.
  change (List.length (u "<<<PAGE_BREAK_")) with 14.
  change (List.length (u ">>>")) with 3. simpl. lia.
Qed.

Lemma offsets_from_length : forall doc i start,
  List.length (offsets_from i start doc) = List.length doc.
Proof. induction doc; intros; simpl; auto. Qed.

Lemma text_from_length_pos : forall doc i,
  doc <> [] -> 19 <= List.length (text_from i doc).
Proof.
  intros [|txt doc] i H; [congruence|]. cbn [text_from]. rewrite !length_app.
  pose proof (page_break_length i). lia.
Qed.

Lemma offsets_from_bounds : forall doc i start,
  Forall (fun o => (Z.of_nat start <= o < Z.of_nat (start + List.length (text_from i doc)))%Z)
         (offsets_from i start doc).
Proof.
  induction doc as [|txt doc IH]; intros i start; cbn [text_from offsets_from]; constructor.
  - rewrite !length_app. pose proof (page_break_length i). lia.
  - eapply Forall_impl; [|apply IH]. cbv beta. intros o Ho. rewrite !length_app.
    pose proof (page_break_length i). lia.
Qed.

Lemma offsets_from_sorted : forall doc i start,
  StronglySorted Z.lt (offsets_from i start doc).
Proof.
  induction doc as [|txt doc IH]; intros i start; cbn [offsets_from]; constructor.
  - apply IH.
  - eapply Forall_impl; [|apply offsets_from_bounds]. cbv beta. intros o Ho.
    pose proof (page_break_length i). lia.
Qed.

Lemma offsets_from_nth : forall doc i start k txt,
  nth_error doc k = Some txt ->
  exists o, nth_error (offsets_from i start doc) k = Some (Z.of_nat o)
    /\ start <= o
    /\ skipn (o - start) (text_from i doc)
       = txt ++ page_break (i + k) ++ text_from (S (i + k)) (skipn (S k) doc).
Proof.
  induction doc as [|t doc IH]; intros i start k txt H.
  - destruct k; discriminate.
  - destruct k as [|k]; cbn [nth_error] in H.
    + injection H as ->. exists start. cbn [offsets_from text_from nth_error skipn].
      rewrite Nat.sub_diag, Nat.add_0_r. cbn [skipn]. auto.
    + destruct (IH (S i) (start + List.length t + List.length (page_break i)) k txt H)
        as (o & Ho & Hle & Hs).
      exists o. cbn [offsets_from text_from nth_error skipn].
      split; [exact Ho|]. split; [lia|].
      replace (o - start)
        with (List.length (t ++ page_break i)
              + (o - (start + List.length t + List.length (page_break i))))
        by (rewrite length_app; lia).
      rewrite app_assoc, skipn_app.
      rewrite skipn_all2 by lia. cbn [app].
      replace (List.length (t ++ page_break i)
               + (o - (start + List.length t + List.length (page_break i)))
               - List.length (t ++ page_break i))
        with (o - (start + List.length t + List.length (page_break i))) by lia.
      rewrite Hs. replace (S i + k) with (i + S k) by lia. reflexivity.
Qed.

Lemma slice_of_skipn (text : list N) o a b w rest :
  skipn o text = w ++ rest -> a <= b -> b <= List.length w ->
  slice text (o + a) (o + b) = slice w a b.
Proof.
  intros H Hab Hb. unfold slice.
  replace (o + b - (o + a)) with (b - a) by lia.
  replace (o + a) with (a + o) by lia.
  rewrite <- skipn_skipn. rewrite H, skipn_app.
  replace (a - List.length w) with 0 by lia. simpl.
  rewrite firstn_app. rewrite length_skipn.
  replace (b - a - (List.length w - a)) with 0 by lia. simpl. now rewrite app_nil_r.
Qed.

Lemma offsets_from_gap : forall doc i start k txt o j o',
  nth_error doc k = Some txt ->
  nth_error (offsets_from i start doc) k = Some o ->
  k < j -> nth_error (offsets_from i start doc) j = Some o' ->
  (o + Z.of_nat (List.length txt + List.length (page_break (i + k))) <= o')%Z.
Proof.
  induction doc as [|t doc IH]; intros i start k txt o j o' Hk Ho Hj Ho'.
  - destruct k; discriminate.
  - destruct j as [|j]; [lia|]. cbn [offsets_from nth_error] in Ho'.
    destruct k as [|k]; cbn [offsets_from nth_error] in Hk, Ho.
    + injection Hk as ->. injection Ho as <-. rewrite Nat.add_0_r.
      apply nth_error_In in Ho'.
      pose proof (offsets_from_bounds doc (S i)
                    (start + List.length txt + List.length (page_break i))) as B.
      rewrite Forall_forall in B. apply B in Ho'. cbv beta in Ho'.
      rewrite !Nat2Z.inj_add in *. destruct Ho' as [H1 _].
      rewrite Z.add_assoc. exact H1.
    + replace (i + S k) with (S i + k) by lia.
      apply (IH (S i) _ k txt o j o' Hk Ho ltac:(lia) Ho').
Qed.

Lemma sorted_nondecreasing (l : list Z) : StronglySorted Z.lt l -> nondecreasing l.
Proof.
  induction 1 as [|a l S IH F]; intros i j Hij; simpl in Hij.
  - lia.
  - destruct j as [|j]; [replace i with 0 by lia; lia|].
    destruct i as [|i].
    + simpl. rewrite Forall_forall in F.
      assert (In (nth j l 0%Z) l) by (apply nth_In; lia).
      apply F in H. lia.
    + simpl. apply IH. lia.
Qed.

Lemma nth_error_nth_Z (l : list Z) k o : nth_error l k = Some o -> nth k l 0%Z = o.
Proof. intros H. now apply nth_error_nth. Qed.

(** The page of a position in the sense of [pos_to_page], for offsets in
    increasing order: the page of index [k] when the position is at or
    after its offset and before every later offset. *)
Lemma pos_to_page_at (offs : list Z) k o pos :
  StronglySorted Z.lt offs ->
  nth_error offs k = Some o -> (o <= pos)%Z ->
  (forall j o', k < j -> nth_error offs j = Some o' -> (pos < o')%Z) ->
  pos_to_page offs pos = (Z.of_nat k + 1)%Z.
Proof.
  intros S Hk Hle Hlt. unfold pos_to_page.
  pose proof (sorted_nondecreasing offs S) as ND.
  assert (Lk : k < List.length offs) by (apply nth_error_Some; congruence).
  apply nth_error_nth_Z in Hk.
  destruct (pos_to_page_loop_spec pos offs 0 0 _ ND eq_refl)
    as [[_ Hhd]|(k' & Hk' & -> & Hn & Hj)].
  - destruct offs as [|o0 offs']; [simpl in Lk; lia|].
    pose proof (ND 0 k ltac:(lia)) as Q. simpl in Q. simpl in Hk. lia.
  - assert (k' = k); [|subst; lia].
    destruct (Nat.lt_trichotomy k' k) as [L|[E|G]]; [|exact E|].
    + specialize (Hj k ltac:(lia)). lia.
    + assert (exists o', nth_error offs k' = Some o') as (o' & Ho').
      { destruct (nth_error offs k') eqn:E; [eauto|].
        apply nth_error_None in E. lia. }
      specialize (Hlt k' o' G Ho'). apply nth_error_nth_Z in Ho'. lia.
Qed.

Lemma pos_to_page_loop_range pos : forall offs i p,
  pos_to_page_loop pos offs i p = p
  \/ (i <= pos_to_page_loop pos offs i p < i + Z.of_nat (List.length offs))%Z.
Proof.
  induction offs as [|o offs IH]; intros i p; simpl.
  - left. reflexivity.
  - destruct (o <=? pos)%Z; [|left; reflexivity].
    right. destruct (IH (i + 1)%Z i) as [->|H]; lia.
Qed.

Lemma pos_to_page_range offs pos :
  (1 <= pos_to_page offs pos <= Z.max 1 (Z.of_nat (List.length offs)))%Z.
Proof.
  unfold pos_to_page. destruct (pos_to_page_loop_range pos offs 0 0) as [->|H]; lia.
Qed.

(** Property X1.  [load_pdf_text_with_pages] returns the page texts as it
    read them and one offset for every page; the first offset is 0, the
    offsets increase strictly, and every offset is a position of the full
    text. *)
Theorem load_page_offsets (doc : list (list N)) :
  let full_text := fst (fst (load_pdf_text_with_pages doc)) in
  let page_texts := snd (fst (load_pdf_text_with_pages doc)) in
  let page_offsets := snd (load_pdf_text_with_pages doc) in
  page_texts = doc
  /\ List.length page_offsets = List.length doc
  /\ hd_error page_offsets = match doc with [] => None | _ :: _ => Some 0%Z end
  /\ StronglySorted Z.lt page_offsets
  /\ Forall (fun o => (0 <= o < Z.of_nat (List.length full_text))%Z) page_offsets.
Proof.
  rewrite load_eq. cbn [fst snd]. split; [reflexivity|].
  split; [apply offsets_from_length|]. split; [now destruct doc|].
  split; [apply offsets_from_sorted|].
  eapply Forall_impl; [|apply offsets_from_bounds]. cbv beta. intros o Ho.
  rewrite Nat.add_0_l in Ho. exact Ho.
Qed.

(** Property X2.  The text of every page is found again in the full text:
    it is the slice of its length at the offset of the page, and the
    marker of the page follows it. *)
Theorem load_page_round_trip (doc : list (list N)) (k : nat) (txt : list N) :
  nth_error doc k = Some txt ->
  let full_text := fst (fst (load_pdf_text_with_pages doc)) in
  let page_offsets := snd (load_pdf_text_with_pages doc) in
  exists o : nat,
    nth_error page_offsets k = Some (Z.of_nat o)
    /\ slice full_text o (o + List.length txt) = txt
    /\ slice full_text (o + List.length txt)
                       (o + List.length txt + List.length (page_break k))
       = page_break k.
Proof.
  intros H. rewrite load_eq. cbn [fst snd].
  destruct (offsets_from_nth doc 0 0 k txt H) as (o & Ho & _ & Hs).
  rewrite Nat.sub_0_r, Nat.add_0_l in Hs. exists o. split; [exact Ho|]. split.
  - pose proof (slice_of_skipn (text_from 0 doc) o 0 (List.length txt) txt _ Hs
                  ltac:(lia) ltac:(lia)) as Q.
    rewrite Nat.add_0_r in Q. rewrite Q. unfold slice. rewrite Nat.sub_0_r. simpl.
    apply firstn_all.
  - rewrite app_assoc in Hs.
    pose proof (slice_of_skipn (text_from 0 doc) o (List.length txt)
                  (List.length txt + List.length (page_break k)) _ _ Hs
                  ltac:(lia) ltac:(rewrite length_app; lia)) as Q.
    rewrite Nat.add_assoc in Q. rewrite Q. unfold slice.
    rewrite skipn_app, skipn_all, Nat.sub_diag. cbn [skipn app].
    replace (List.length txt + List.length (page_break k) - List.length txt)
      with (List.length (page_break k)) by lia.
    apply firstn_all.
Qed.

Lemma load_page_round_trip_witness :
  exists o : nat,
    nth_error (snd (load_pdf_text_with_pages [u "ab"; u "c"])) 1 = Some (Z.of_nat o)
    /\ slice (fst (fst (load_pdf_text_with_pages [u "ab"; u "c"]))) o (o + 1) = u "c".
Proof.
  destruct (load_page_round_trip [u "ab"; u "c"] 1 (u "c") eq_refl) as (o & H1 & H2 & _).
  exists o. split; [exact H1|exact H2].
Defined.

(** Property X3.  For the offsets that [load_pdf_text_with_pages] returns,
    [pos_to_page] maps every position of the text of a page, and of the
    marker that follows it, to the number of that page. *)
Theorem load_pos_to_page (doc : list (list N)) (k : nat) (txt : list N) (o pos : Z) :
  nth_error doc k = Some txt ->
  nth_error (snd (load_pdf_text_with_pages doc)) k = Some o ->
  (o <= pos < o + Z.of_nat (List.length txt + List.length (page_break k)))%Z ->
  pos_to_page (snd (load_pdf_text_with_pages doc)) pos = (Z.of_nat k + 1)%Z.
Proof.
  rewrite load_eq. cbn [fst snd]. intros Hk Ho Hp.
  apply (pos_to_page_at _ k o); [apply offsets_from_sorted|exact Ho|lia|].
  intros j o' Hj Ho'.
  pose proof (offsets_from_gap doc 0 0 k txt o j o' Hk Ho Hj Ho') as G.
  rewrite Nat.add_0_l in G. lia.
Qed.

Lemma load_pos_to_page_witness :
  pos_to_page (snd (load_pdf_text_with_pages [u "ab"; u "c"])) 25 = 2%Z.
Proof.
  apply (load_pos_to_page [u "ab"; u "c"] 1 (u "c") 22 25); [reflexivity|reflexivity|].
  vm_compute. split; [discriminate|reflexivity].
Defined.

(** *** The records of a document *)
Lemma Forall2_map_right {A B} (R : A -> B -> Prop) (f : A -> B) (l : list A) :
  (forall x, In x l -> R x (f x)) -> Forall2 R l (map f l).
Proof.
  induction l as [|a l IH]; intros H; simpl; constructor.
  - apply H. now left.
  - apply IH. intros x Hx. apply H. now right.
Qed.

Lemma process_pdf_spans strip_accents doc stem path lines norm_top norm_page :
  Forall2 (record_of_span (text_from 0 doc) (offsets_from 0 0 doc))
          (spans_of (text_from 0 doc))
          (process_pdf strip_accents doc stem path lines norm_top norm_page).
Proof.
  unfold process_pdf. rewrite load_eq. cbv beta iota zeta.
  fold (spans_of (text_from 0 doc)).
  apply Forall2_map_right. intros [[n a] b] _. unfold record_of_span, span_to_page_range.
  cbn [fst snd article_number page_start page_end text_full text_preview text_chars
       Pdf2Articles.article_number].
  repeat split.
Qed.

Lemma chained_bounds stop : forall segs,
  chained stop segs -> Forall (fun seg => snd (fst seg) < snd seg <= stop) segs.
Proof.
  induction segs as [|[[n a] b] segs IH]; intros H; constructor.
  - simpl. destruct H as (Hab & Hb & C). split; [exact Hab|].
    destruct segs as [|[[n' a'] b'] segs']; [lia|].
    apply IH in C. inversion C; subst. simpl in *. lia.
  - apply IH. apply H.
Qed.

Lemma segments_chained full_text :
  chained (List.length full_text) (find_articles_segments full_text).
Proof.
  unfold find_articles_segments.
  destruct (re_finditer_starts ART_HEADING_RE full_text) as [F S].
  rewrite heading_min_len in F.
  apply segments_of_chained; [|exact S].
  eapply Forall_impl; [|exact F]. simpl. intros. lia.
Qed.

(** A span of [spans_of] is not empty, or it is the whole of an empty
    text. *)
Lemma spans_of_bounds full_text :
  Forall (fun seg => snd (fst seg) <= snd seg <= List.length full_text
                     /\ (snd (fst seg) < snd seg \/ snd seg = 0))
         (spans_of full_text).
Proof.
  unfold spans_of. pose proof (segments_chained full_text) as C.
  destruct (find_articles_segments full_text) as [|seg segs].
  - constructor; [|constructor]. simpl. lia.
  - apply chained_bounds in C. eapply Forall_impl; [|exact C]. simpl. intros. lia.
Qed.

Lemma last_pos_ge a b : a <= b -> (a < b \/ b = 0) ->
  (Z.of_nat a <= last_pos b)%Z \/ (a = 0 /\ last_pos b = 0%Z).
Proof.
  intros H [L|E]; unfold last_pos.
  - left. destruct (0 <? Z.of_nat b)%Z eqn:Q; [|apply Z.ltb_ge in Q]; lia.
  - right. subst. simpl. split; [lia|reflexivity].
Qed.

(** The bounds of the page range of a span. *)
Lemma record_pages_ok full_text offs seg r :
  record_of_span full_text offs seg r ->
  snd (fst seg) <= snd seg -> (snd (fst seg) < snd seg \/ snd seg = 0) ->
  (1 <= page_start r <= page_end r)%Z
  /\ (page_end r <= Z.max 1 (Z.of_nat (List.length offs)))%Z.
Proof.
  intros (_ & Hs & He & _) Hab Hne. rewrite Hs, He.
  pose proof (pos_to_page_range offs (Z.of_nat (snd (fst seg)))) as R1.
  pose proof (pos_to_page_range offs (last_pos (snd seg))) as R2.
  split; [|lia]. split; [lia|].
  destruct (last_pos_ge _ _ Hab Hne) as [L|[E1 E2]].
  - apply pos_to_page_mono. exact L.
  - rewrite E1, E2. simpl. lia.
Qed.

(** Property X4.  Every record of [process_pdf] has a page range inside
    the document: 1 <= page_start <= page_end <= the number of pages, which
    counts as 1 for a document without a page. *)
Theorem process_pdf_page_ranges strip_accents doc stem path lines norm_top norm_page :
  Forall (fun r => (1 <= page_start r <= page_end r)%Z
                   /\ (page_end r <= Z.max 1 (Z.of_nat (List.length doc)))%Z)
         (process_pdf strip_accents doc stem path lines norm_top norm_page).
Proof.
  pose proof (process_pdf_spans strip_accents doc stem path lines norm_top norm_page) as F.
  pose proof (spans_of_bounds (text_from 0 doc)) as B.
  revert F B. generalize (process_pdf strip_accents doc stem path lines norm_top norm_page).
  generalize (spans_of (text_from 0 doc)).
  induction 1 as [|seg r segs recs H F IH]; intros B; constructor.
  - inversion B as [|? ? (Hab & Hne) B']; subst.
    pose proof (record_pages_ok _ _ _ _ H ltac:(lia) Hne) as Q.
    rewrite offsets_from_length in Q. exact Q.
  - apply IH. inversion B; assumption.
Qed.

Lemma sorted_increasing (l : list Z) : StronglySorted Z.lt l ->
  forall i j, i < j < List.length l -> (nth i l 0 < nth j l 0)%Z.
Proof.
  induction 1 as [|a l S IH F]; intros i j Hij; simpl in Hij.
  - lia.
  - destruct j as [|j]; [lia|]. destruct i as [|i].
    + simpl. rewrite Forall_forall in F. apply F. apply nth_In. lia.
    + simpl. apply IH. lia.
Qed.

Lemma pos_to_page_succ (offs : list Z) (p : Z) :
  StronglySorted Z.lt offs ->
  (pos_to_page offs (p + 1) <= pos_to_page offs p + 1)%Z.
Proof.
  intros Hs. pose proof (sorted_nondecreasing offs Hs) as ND.
  pose proof (sorted_increasing offs Hs) as INC.
  pose proof (pos_to_page_range offs p) as R.
  unfold pos_to_page in *.
  destruct (pos_to_page_loop_spec (p + 1) offs 0 0 _ ND eq_refl)
    as [[E2 _]|(k2 & L2 & E2 & N2 & J2)]; rewrite E2; [lia|].
  destruct (pos_to_page_loop_spec p offs 0 0 _ ND eq_refl)
    as [[E1 H1]|(k1 & L1 & E1 & N1 & J1)]; rewrite E1.
  - destruct offs as [|o offs']; [simpl in L2; lia|].
    destruct k2 as [|k2]; [lia|].
    specialize (INC 0 (S k2) ltac:(lia)). simpl in INC, N2. lia.
  - destruct (Nat.le_gt_cases k2 (S k1)) as [Q|Q]; [lia|].
    specialize (J1 (S k1) ltac:(lia)). specialize (INC (S k1) k2 ltac:(lia)). lia.
Qed.

Lemma pos_to_page_last (doc : list (list N)) :
  pos_to_page (offsets_from 0 0 doc) (last_pos (List.length (text_from 0 doc)))
  = Z.max 1 (Z.of_nat (List.length doc)).
Proof.
  destruct (nth_error doc (List.length doc - 1)) as [txt|] eqn:E.
  - assert (L : List.length doc - 1 < List.length doc)
      by (apply nth_error_Some; congruence).
    destruct (offsets_from_nth doc 0 0 _ txt E) as (o & Ho & _ & _).
    pose proof (offsets_from_bounds doc 0 0) as B. rewrite Forall_forall in B.
    pose proof (B _ (nth_error_In _ _ Ho)) as Bo. rewrite Nat.add_0_l in Bo.
    rewrite (pos_to_page_at _ (List.length doc - 1) (Z.of_nat o)).
    + lia.
    + apply offsets_from_sorted.
    + exact Ho.
    + unfold last_pos. destruct (0 <? _)%Z eqn:Q; [|apply Z.ltb_ge in Q]; lia.
    + intros j o' Hj Ho'. assert (j < List.length (offsets_from 0 0 doc))
        by (apply nth_error_Some; congruence).
      rewrite offsets_from_length in H. lia.
  - apply nth_error_None in E. destruct doc as [|t doc]; [reflexivity|simpl in E; lia].
Qed.

Lemma records_pages_chained full_text offs last stop :
  StronglySorted Z.lt offs ->
  pos_to_page offs (last_pos stop) = last ->
  forall segs recs,
  Forall2 (record_of_span full_text offs) segs recs ->
  match segs with
  | [] => True
  | _ :: _ => chained stop segs \/ exists n, segs = [(n, 0, stop)]
  end ->
  pages_chained last recs.
Proof.
  intros Hs Hlast. induction 1 as [|seg r segs recs H F IH]; intros C; [exact I|].
  cbn [pages_chained]. destruct F as [|seg' r' segs' recs' H' F'].
  - split; [|exact I]. destruct H as (_ & _ & He & _). rewrite He.
    destruct C as [C|(n & C)].
    + destruct seg as [[n a] b]. simpl in C. destruct C as (_ & -> & _). exact Hlast.
    + injection C as ->. exact Hlast.
  - destruct C as [C|(n & C)]; [|discriminate].
    destruct seg as [[n a] b], seg' as [[n' a'] b']. destruct C as (Hab & -> & C).
    split.
    + destruct H as (_ & _ & He & _). destruct H' as (_ & Hs' & _).
      rewrite He, Hs'. cbn [fst snd]. unfold last_pos.
      assert (Q : (0 <? Z.of_nat a')%Z = true) by (apply Z.ltb_lt; lia). rewrite Q.
      split.
      * apply pos_to_page_mono. lia.
      * replace (Z.of_nat a') with (Z.of_nat a' - 1 + 1)%Z at 1 by lia.
        apply pos_to_page_succ. exact Hs.
    + apply IH. left. exact C.
Qed.

(** Property X5.  The page ranges of the records of [process_pdf] follow
    each other without a gap: a record starts on the page on which the
    record before it ends or on the next page, and the last record ends on
    the last page of the document. *)
Theorem process_pdf_pages_chained strip_accents doc stem path lines norm_top norm_page :
  pages_chained (Z.max 1 (Z.of_nat (List.length doc)))
    (process_pdf strip_accents doc stem path lines norm_top norm_page).
Proof.
  apply (records_pages_chained (text_from 0 doc) (offsets_from 0 0 doc) _
           (List.length (text_from 0 doc)) (offsets_from_sorted doc 0 0)
           (pos_to_page_last doc) _ _
           (process_pdf_spans strip_accents doc stem path lines norm_top norm_page)).
  unfold spans_of. pose proof (segments_chained (text_from 0 doc)) as C.
  destruct (find_articles_segments (text_from 0 doc)) as [|seg segs].
  - right. eexists. reflexivity.
  - left. exact C.
Qed.

(** *** The numbers of the headings *)
Lemma steps_text text k pv cs w s :
  k <= List.length text ->
  steps (St k pv (skipn k text) cs) w s ->
  text = firstn (pos s) text ++ rest s /\ pos s <= List.length text.
Proof.
  intros Hk (R & P & _). simpl in R, P.
  remember (firstn k text ++ w) as pre eqn:Epre.
  assert (T : text = pre ++ rest s).
  { subst pre. rewrite <- app_assoc, <- R. symmetry. apply firstn_skipn. }
  assert (L : List.length pre = pos s).
  { subst pre. rewrite length_app, length_firstn. lia. }
  clear Epre R. subst text. rewrite <- L. rewrite firstn_app_exact.
  split; [reflexivity|]. rewrite length_app. lia.
Qed.

Lemma heading_group text k pv m :
  k <= List.length text ->
  match_here ART_HEADING_RE k pv (skipn k text) = Some m ->
  exists g, group text m 1 = Some g /\ heading_number g.
Proof.
  intros Hk H. apply match_here_inv in H. destruct H as (s' & F & ->).
  apply first_run_in in F. unfold ART_HEADING_RE in F.
  apply in_run_cat_cons in F. destruct F as (s1 & F1 & F).
  apply in_run_cat_cons in F. destruct F as (s2 & F2 & F).
  apply in_run_cat_cons in F. destruct F as (s3 & F3 & F).
  apply in_run_cat_cons in F. destruct F as (s4 & F4 & F).
  apply in_run_cat_cons in F. destruct F as (s5 & F5 & F).
  apply in_run_cat_cons in F. destruct F as (s6 & F6 & F).
  apply in_run_cat_cons in F. destruct F as (s7 & F7 & F).
  apply in_run_cat_cons in F. destruct F as (s8 & F8 & F).
  apply in_run_cat_nil in F. subst s8.
  pose proof (run_steps _ _ _ F1) as (w1 & W1).
  pose proof (run_steps _ _ _ F2) as (w2 & W2).
  pose proof (run_steps _ _ _ F3) as (w3 & W3).
  pose proof (run_steps _ _ _ F4) as (w4 & W4).
  pose proof (run_steps _ _ _ F5) as (w5 & W5).
  pose proof (steps_trans _ _ _ _ _ (steps_trans _ _ _ _ _ (steps_trans _ _ _ _ _
                (steps_trans _ _ _ _ _ W1 W2) W3) W4) W5) as W.
  destruct (steps_text text k pv [] _ s5 Hk W) as (T5 & L5).
  apply run_caps_nogroups in F7; [|reflexivity].
  apply run_caps_nogroups in F8; [|reflexivity].
  apply in_run_grp in F6. destruct F6 as (t & Ft & ->).
  simpl in F7. unfold group. cbn [m_caps]. rewrite F8, F7. cbn [cap_lookup Nat.eqb].
  eexists. split; [reflexivity|].
  apply in_run_cat_cons in Ft. destruct Ft as (t1 & G1 & Ft).
  apply in_run_cat_cons in Ft. destruct Ft as (t2 & G2 & Ft).
  apply in_run_cat_nil in Ft. subst t2.
  pose proof (run_steps _ _ _ G1) as (v1 & V1).
  pose proof (run_steps _ _ _ G2) as (v2 & V2).
  rewrite (slice_steps text s5 (v1 ++ v2) t T5 L5 (steps_trans _ _ _ _ _ V1 V2)).
  apply in_run_rep in G1. destruct G1 as (ds & R1 & D1 & _ & _ & _ & Lo & _).
  destruct V1 as (R1' & _). rewrite R1 in R1'. apply app_inv_tail in R1'. subst v1.
  exists ds, v2. split; [reflexivity|]. split; [destruct ds; [simpl in Lo; lia|discriminate]|].
  split; [exact D1|].
  apply in_run_opt in G2. destruct G2 as [G2| ->].
  - apply in_run_chr in G2. destruct G2 as (x & l & R2 & P2 & ->).
    destruct V2 as (R2' & _). simpl in R2'. rewrite R2 in R2'.
    change (x :: l) with ([x] ++ l) in R2'. apply app_inv_tail in R2'. subst v2.
    right. exists x. auto.
  - destruct V2 as (R2' & _). left.
    rewrite <- (app_nil_l (rest t1)) in R2' at 1. apply app_inv_tail in R2'. auto.
Qed.

Lemma segments_of_numbers text : forall ms,
  Forall (fun m => exists g, group text m 1 = Some g /\ heading_number g) ms ->
  Forall (fun seg => heading_number (fst (fst seg))) (segments_of text ms).
Proof.
  induction ms as [|m ms IH]; intros F; cbn [segments_of]; constructor.
  - inversion F as [|? ? (g & Eg & Hg) F']; subst. cbn [fst]. rewrite Eg. exact Hg.
  - apply IH. inversion F; assumption.
Qed.

Lemma find_articles_segments_numbers text :
  Forall (fun seg => heading_number (fst (fst seg))) (find_articles_segments text).
Proof.
  unfold find_articles_segments. apply segments_of_numbers.
  pose proof (finditer_aux_matches ART_HEADING_RE text 0 0 None) as F.
  eapply Forall_impl; [|exact F]. cbv beta.
  intros m (k & pv' & Hk & _ & Hm). simpl in Hm. eapply heading_group; eauto.
Qed.

Lemma one_is_number : heading_number (u "1").
Proof.
  exists (u "1"), []. split; [reflexivity|]. split; [discriminate|].
  split; [|now left]. repeat constructor.
Qed.

(** Property X6.  The article number of every record of [process_pdf]
    is "Art. " followed by decimal digits, at least one, and at most one
    letter: the number of a heading, or 1 for a document without a
    heading. *)
Theorem process_pdf_article_numbers
    strip_accents doc stem path lines norm_top norm_page :
  Forall (fun r => exists g, Pdf2Articles.article_number r = u "Art. " ++ g
                             /\ heading_number g)
         (process_pdf strip_accents doc stem path lines norm_top norm_page).
Proof.
  pose proof (process_pdf_spans strip_accents doc stem path lines norm_top norm_page) as F.
  assert (B : Forall (fun seg => heading_number (fst (fst seg)))
                     (spans_of (text_from 0 doc))).
  { unfold spans_of. pose proof (find_articles_segments_numbers (text_from 0 doc)) as Q.
    destruct (find_articles_segments (text_from 0 doc)); [|exact Q].
    constructor; [apply one_is_number|constructor]. }
  revert F B. generalize (process_pdf strip_accents doc stem path lines norm_top norm_page).
  generalize (spans_of (text_from 0 doc)).
  induction 1 as [|seg r segs recs H F IH]; intros B; constructor.
  - inversion B; subst. destruct H as (Hn & _). eexists. split; [exact Hn|assumption].
  - apply IH. inversion B; assumption.
Qed.

(** *** The text of a record *)
Lemma strip_strip s : strip (strip s) = strip s.
Proof. destruct (strip_ok s) as [H E]. now apply strip_id. Qed.

(** Property X7.  The text of every record of [process_pdf] has no
    whitespace at its ends, its preview is the text cut after 4000
    characters, and the length of the preview is the smaller of 4000 and
    [text_chars]. *)
Theorem process_pdf_text_fields
    strip_accents doc stem path lines norm_top norm_page :
  Forall (fun r => strip (text_full r) = text_full r
                   /\ text_preview r = firstn (Z.to_nat 4000) (text_full r)
                   /\ List.length (text_preview r)
                      = Nat.min (Z.to_nat 4000) (text_chars r))
         (process_pdf strip_accents doc stem path lines norm_top norm_page).
Proof.
  pose proof (process_pdf_spans strip_accents doc stem path lines norm_top norm_page) as F.
  revert F. generalize (process_pdf strip_accents doc stem path lines norm_top norm_page).
  generalize (spans_of (text_from 0 doc)).
  induction 1 as [|seg r segs recs H F IH]; constructor; [|exact IH].
  destruct H as (_ & _ & _ & Ht & Hp & Hc).
  assert (S1 : strip (text_full r) = text_full r) by (rewrite Ht; apply strip_strip).
  assert (P1 : text_preview r = firstn (Z.to_nat 4000) (text_full r)).
  { rewrite Hp. unfold make_preview. rewrite S1. reflexivity. }
  split; [exact S1|]. split; [exact P1|].
  rewrite P1, Hc. apply length_firstn.
Qed.

(** Property X8.  A document in which [find_articles_segments] finds no
    heading gives one record: its number is "Art. 1", it runs from page 1
    to the last page, and its text is the full text of the document,
    stripped and without the page markers that the pattern removes. *)
Theorem process_pdf_without_heading
    strip_accents doc stem path lines norm_top norm_page :
  find_articles_segments (fst (fst (load_pdf_text_with_pages doc))) = [] ->
  exists r,
    process_pdf strip_accents doc stem path lines norm_top norm_page = [r]
    /\ Pdf2Articles.article_number r = u "Art. 1"
    /\ page_start r = 1%Z
    /\ page_end r = Z.max 1 (Z.of_nat (List.length doc))
    /\ text_full r
       = strip (re_sub PAGE_BREAK_RE []
                  (strip (fst (fst (load_pdf_text_with_pages doc))))).
Proof.
  rewrite load_eq. cbn [fst snd]. intros E.
  pose proof (process_pdf_spans strip_accents doc stem path lines norm_top norm_page) as F.
  unfold spans_of in F. rewrite E in F.
  inversion F as [|seg r segs recs H F' E1 E2]; subst. inversion F'; subst.
  exists r. split; [reflexivity|].
  destruct H as (Hn & Hs & He & Ht & _). cbn [fst snd] in *.
  split; [exact Hn|]. split; [|split].
  - rewrite Hs. destruct doc as [|t doc]; [reflexivity|].
    apply (pos_to_page_at _ 0 0%Z); [apply offsets_from_sorted|reflexivity|simpl; lia|].
    intros j o' Hj Ho'. change 0%Z with (Z.of_nat 0).
    pose proof (offsets_from_gap (t :: doc) 0 0 0 t 0%Z j o' eq_refl eq_refl Hj Ho') as G.
    pose proof (page_break_length 0). simpl in G. lia.
  - rewrite He. apply pos_to_page_last.
  - rewrite Ht. unfold slice. rewrite Nat.sub_0_r. simpl. rewrite firstn_all. reflexivity.
Qed.

Lemma process_pdf_without_heading_witness :
  exists r,
    process_pdf (fun s => s) [u "Loi"; u "fin"] (u "loi") (u "/loi.pdf") [] [] [] = [r]
    /\ Pdf2Articles.article_number r = u "Art. 1"
    /\ page_end r = 2%Z.
Proof.
  destruct (process_pdf_without_heading (fun s => s) [u "Loi"; u "fin"] (u "loi")
              (u "/loi.pdf") [] [] [] eq_refl) as (r & H1 & H2 & _ & H4 & _).
  exists r. split; [exact H1|]. split; [exact H2|exact H4].
Defined.

(** *** The pass over the article numbers of the graph *)
Lemma normalize_total raw tm :
  tm <> 0%Z -> (tm < MAXREPEAT)%Z -> exists r, normalize_article_number raw tm = Some r.
Proof.
  intros H0 H1. destruct raw as [|c raw]; [eexists; reflexivity|].
  rewrite normalize_unfold by discriminate.
  destruct (re_match prefix_re _); [|eexists; reflexivity].
  apply normalize_rest_total; assumption.
Qed.

Lemma normalize_again raw tm num foot :
  normalize_article_number raw tm = Some (num, foot) ->
  normalize_article_number num tm = Some (num, None).
Proof.
  intros H. destruct raw as [|c raw].
  - injection H as <- <-. reflexivity.
  - rewrite normalize_unfold in H by discriminate.
    destruct (preprocess_clean (c :: raw)) as [T S].
    destruct (re_match prefix_re (preprocess (c :: raw))) as [m|] eqn:Em.
    + destruct (prefix_match_tidy _ m T S Em) as [Tr Sr].
      destruct (normalize_rest_again _ _ _ _ _ Tr Sr H) as (body & -> & Tb & Sb & Hb).
      change (u "Art." ++ u " " ++ body) with (u "Art. " ++ body).
      rewrite (second_pass body tm Tb Sb). exact Hb.
    + injection H as <- <-. destruct (preprocess (c :: raw)) as [|c' s] eqn:Es.
      * reflexivity.
      * rewrite normalize_unfold by discriminate.
        rewrite (preprocess_id _ T S), Em. reflexivity.
Qed.

Lemma str_eqb_eq a b : str_eqb a b = true <-> a = b.
Proof.
  unfold str_eqb. destruct (list_eq_dec N.eq_dec a b); split; auto; discriminate.
Qed.

(** The loop as a fold of [fix_by] over every node. *)
Lemma main_loop_commit tm : forall res store f n,
  tm <> 0%Z -> (tm < MAXREPEAT)%Z ->
  Superscripts.main_loop false tm res store f n
  = (map (fun a => fold_left (fix_by tm) res a) store,
     Some (f + List.length (filter (needs_fix tm) res),
           n + List.length (filter (fun r => negb (needs_fix tm r)) res))).
Proof.
  induction res as [|[[d art] id] res IH]; intros store f n H0 H1.
  - cbn [Superscripts.main_loop filter List.length fold_left]. rewrite map_id, !Nat.add_0_r. reflexivity.
  - cbn [Superscripts.main_loop fold_left filter].
    destruct (normalize_total art tm H0 H1) as ([new_art foot] & E). rewrite E.
    assert (Nf : needs_fix tm (d, art, id)
                 = negb (str_eqb new_art art)
                   || match foot with Some (_ :: _) => true | _ => false end).
    { unfold needs_fix. cbn [fst snd]. rewrite E. reflexivity. }
    rewrite <- Nf.
    assert (Q : forall a, fix_by tm a (d, art, id)
                = if needs_fix tm (d, art, id)
                  then (if (node_id a =? id)%N
                        then Article (node_id a) (Superscripts.doc_id a) (Some new_art) foot
                        else a)
                  else a).
    { intros a. unfold fix_by. cbn [fst snd]. rewrite E.
      destruct (node_id a =? id)%N, (needs_fix tm (d, art, id)); reflexivity. }
    destruct (needs_fix tm (d, art, id)); cbn [negb List.length].
    + rewrite IH by assumption. unfold set_article. rewrite map_map.
      apply f_equal2; [|apply f_equal; apply f_equal2; lia].
      apply map_ext. intros a. rewrite Q. reflexivity.
    + rewrite IH by assumption.
      apply f_equal2; [|apply f_equal; apply f_equal2; lia].
      apply map_ext. intros a. rewrite Q. reflexivity.
Qed.

Lemma fix_by_id tm a r : node_id (fix_by tm a r) = node_id a.
Proof.
  unfold fix_by. destruct (node_id a =? snd r)%N; [|reflexivity].
  destruct (normalize_article_number _ _) as [[n f]|]; [|reflexivity].
  destruct (needs_fix tm r); reflexivity.
Qed.

Lemma fold_fix_other tm : forall res a,
  Forall (fun r => snd r <> node_id a) res -> fold_left (fix_by tm) res a = a.
Proof.
  induction res as [|r res IH]; intros a F; [reflexivity|]. cbn [fold_left].
  inversion F as [|? ? Hr F']; subst.
  assert (E : fix_by tm a r = a).
  { unfold fix_by. destruct (N.eqb_spec (node_id a) (snd r)); [congruence|reflexivity]. }
  rewrite E. apply IH. exact F'.
Qed.

Lemma fold_fix_filter tm : forall res a,
  fold_left (fix_by tm) res a
  = fold_left (fix_by tm) (filter (fun r => (snd r =? node_id a)%N) res) a.
Proof.
  induction res as [|r res IH]; intros a; [reflexivity|]. cbn [fold_left filter].
  destruct (N.eqb_spec (snd r) (node_id a)) as [E|E].
  - cbn [fold_left]. rewrite IH, fix_by_id. reflexivity.
  - assert (Q : fix_by tm a r = a).
    { unfold fix_by. destruct (N.eqb_spec (node_id a) (snd r)); [congruence|reflexivity]. }
    rewrite Q. apply IH.
Qed.

Lemma permutation_filter {A} (p : A -> bool) (l l' : list A) :
  Permutation l l' -> Permutation (filter p l) (filter p l').
Proof.
  induction 1 as [|x l l' H IH|x y l|l l' l'' H1 IH1 H2 IH2]; simpl.
  - constructor.
  - destruct (p x); [constructor|]; exact IH.
  - destruct (p x), (p y); try apply Permutation_refl. constructor.
  - eapply Permutation_trans; eauto.
Qed.

Lemma query_other i : forall store,
  ~ In i (map node_id store) -> filter (fun r => (snd r =? i)%N) (query store) = [].
Proof.
  induction store as [|b store IH]; intros H; [reflexivity|].
  unfold query. cbn [flat_map]. fold (query store). rewrite filter_app.
  rewrite IH by (intros Q; apply H; now right).
  rewrite app_nil_r.
  destruct (Superscripts.article_number b) as [art|]; [|reflexivity].
  destruct (starts_with_art b); [|reflexivity]. cbn [filter snd].
  destruct (N.eqb_spec (node_id b) i) as [E|E]; [|reflexivity].
  exfalso. apply H. left. exact E.
Qed.

Lemma query_node : forall store a,
  NoDup (map node_id store) -> In a store ->
  filter (fun r => (snd r =? node_id a)%N) (query store)
  = match Superscripts.article_number a with
    | Some art =>
      if starts_with_art a then [(Superscripts.doc_id a, art, node_id a)] else []
    | None => []
    end.
Proof.
  induction store as [|b store IH]; intros a ND Ha; [destruct Ha|].
  cbn [map] in ND. inversion ND as [|? ? Hb ND']; subst.
  unfold query. cbn [flat_map]. fold (query store). rewrite filter_app.
  destruct Ha as [->|Ha].
  - rewrite (query_other (node_id a) store Hb), app_nil_r.
    destruct (Superscripts.article_number a) as [art|]; [|reflexivity].
    destruct (starts_with_art a); [|reflexivity]. cbn [filter snd].
    rewrite N.eqb_refl. reflexivity.
  - rewrite (IH a ND' Ha).
    assert (E : node_id b <> node_id a).
    { intros E. apply Hb. rewrite E. apply in_map. exact Ha. }
    destruct (Superscripts.article_number b) as [art|]; [|reflexivity].
    destruct (starts_with_art b); [|reflexivity]. cbn [filter snd app].
    destruct (N.eqb_spec (node_id b) (node_id a)); [congruence|reflexivity].
Qed.

Lemma fold_fix_node tm res store a :
  NoDup (map node_id store) -> Permutation res (query store) -> In a store ->
  fold_left (fix_by tm) res a = fixed_node tm a.
Proof.
  intros ND P Ha. rewrite fold_fix_filter.
  pose proof (permutation_filter (fun r => (snd r =? node_id a)%N) _ _ P) as Q.
  rewrite (query_node store a ND Ha) in Q. unfold fixed_node.
  destruct (Superscripts.article_number a) as [art|] eqn:Ea.
  - destruct (starts_with_art a).
    + apply Permutation_sym, Permutation_length_1_inv in Q. rewrite Q.
      cbn [fold_left]. unfold fix_by. cbn [fst snd]. rewrite N.eqb_refl.
      destruct (normalize_article_number art tm) as [[n f]|]; reflexivity.
    + apply Permutation_sym, Permutation_nil in Q. rewrite Q. reflexivity.
  - apply Permutation_sym, Permutation_nil in Q. rewrite Q. reflexivity.
Qed.

Lemma needs_fix_normal tm d art i num foot :
  normalize_article_number art tm = Some (num, foot) ->
  needs_fix tm (d, num, i) = false.
Proof.
  intros H. apply normalize_again in H. unfold needs_fix. cbn [fst snd]. rewrite H.
  assert (E : str_eqb num num = true) by now apply str_eqb_eq.
  rewrite E. reflexivity.
Qed.

(** The number of a node after the pass is a number that
    [normalize_article_number] returns, unless the query leaves the node
    out or the normaliser raises. *)
Lemma fixed_node_cases tm a :
  (fixed_node tm a = a /\ starts_with_art a = false)
  \/ (fixed_node tm a = a
      /\ exists art, Superscripts.article_number a = Some art
                     /\ normalize_article_number art tm = None)
  \/ exists art num foot,
       Superscripts.article_number a = Some art
       /\ normalize_article_number art tm = Some (num, foot)
       /\ Superscripts.article_number (fixed_node tm a) = Some num
       /\ node_id (fixed_node tm a) = node_id a.
Proof.
  unfold fixed_node. destruct (Superscripts.article_number a) as [art|] eqn:Ea.
  - destruct (starts_with_art a) eqn:Es; [|left; auto].
    destruct (normalize_article_number art tm) as [[num foot]|] eqn:En.
    + right. right. exists art, num, foot. split; [reflexivity|]. split; [exact En|].
      destruct (needs_fix tm _) eqn:Nf; [split; reflexivity|].
      unfold needs_fix in Nf. cbn [fst snd] in Nf. rewrite En in Nf.
      apply orb_false_iff in Nf. destruct Nf as [Nf _].
      apply negb_false_iff, str_eqb_eq in Nf. subst num. split; [exact Ea|reflexivity].
    + right. left. split; [reflexivity|]. exists art. auto.
  - left. split; [reflexivity|]. unfold starts_with_art. rewrite Ea. reflexivity.
Qed.

Lemma fixed_node_id tm a : node_id (fixed_node tm a) = node_id a.
Proof.
  destruct (fixed_node_cases tm a) as [[-> _]|[[-> _]|(art & num & foot & _ & _ & _ & E)]];
    auto.
Qed.

Lemma fixed_node_stable tm a :
  tm <> 0%Z -> (tm < MAXREPEAT)%Z ->
  fixed_node tm (fixed_node tm a) = fixed_node tm a.
Proof.
  intros H0 H1.
  destruct (fixed_node_cases tm a)
    as [[E _]|[[E _]|(art & num & foot & Ea & En & Eb & Ei)]];
    [rewrite !E; reflexivity|rewrite !E; reflexivity|].
  set (b := fixed_node tm a) in *. unfold fixed_node. rewrite Eb.
  destruct (starts_with_art b); [|reflexivity].
  rewrite (normalize_again _ _ _ _ En).
  rewrite (needs_fix_normal tm _ art _ num foot En). reflexivity.
Qed.

Lemma query_fixed tm store :
  tm <> 0%Z -> (tm < MAXREPEAT)%Z ->
  Forall (fun r => needs_fix tm r = false) (query (map (fixed_node tm) store)).
Proof.
  intros H0 H1. induction store as [|a store IH]; [constructor|].
  cbn [map]. unfold query. cbn [flat_map]. fold (query (map (fixed_node tm) store)).
  apply Forall_app. split; [|exact IH].
  destruct (fixed_node_cases tm a)
    as [[E Es]|[[E (art & Ea & En)]|(art & num & foot & Ea & En & Eb & Ei)]].
  - rewrite E. destruct (Superscripts.article_number a); [|constructor].
    rewrite Es. constructor.
  - destruct (normalize_total art tm H0 H1) as (r & Q). congruence.
  - rewrite Eb. destruct (starts_with_art _); constructor; [|constructor].
    apply (needs_fix_normal tm _ art _ num foot En).
Qed.

Lemma filter_all_false {A} (p : A -> bool) (l : list A) :
  Forall (fun x => p x = false) l ->
  filter p l = [] /\ filter (fun x => negb (p x)) l = l.
Proof.
  induction 1 as [|x l H F [I1 I2]]; [split; reflexivity|].
  simpl. rewrite H. simpl. rewrite I1, I2. split; reflexivity.
Qed.

Lemma permutation_forall {A} (P : A -> Prop) (l l' : list A) :
  Permutation l l' -> Forall P l' -> Forall P l.
Proof.
  intros Hp F. rewrite Forall_forall in *. intros x Hx. apply F.
  eapply Permutation_in; eauto.
Qed.

(** Property X12.  A pass of [main] that writes, with a tail bound that
    the pattern compiler accepts, leaves the same graph whatever the order
    of the records: every node that the query selects has the number that
    [normalize_article_number] returns and, when the number changes or a
    footnote is found, the footnote that it returns; the other nodes are as
    before.  The counters are the number of the records that are rewritten
    and the number of the others. *)
Theorem main_fixes_every_node (tail_max : Z)
    (res : list (option (list N) * list N * N)) (store : list article) :
  tail_max <> 0%Z -> (tail_max < MAXREPEAT)%Z ->
  NoDup (map node_id store) -> Permutation res (query store) ->
  Superscripts.main false tail_max res store
  = (map (fixed_node tail_max) store,
     Some (List.length (filter (needs_fix tail_max) res),
           List.length (filter (fun r => negb (needs_fix tail_max r)) res))).
Proof.
  intros H0 H1 ND P. unfold Superscripts.main. rewrite main_loop_commit by assumption.
  f_equal. apply map_ext_in. intros a Ha.
  apply (fold_fix_node tail_max res store a ND P Ha).
Qed.

(** Property X13.  A second pass of [main] over the graph that a first
    pass leaves counts every record as unchanged and writes nothing. *)
Theorem main_second_pass (tail_max : Z)
    (res res' : list (option (list N) * list N * N)) (store : list article) :
  tail_max <> 0%Z -> (tail_max < MAXREPEAT)%Z ->
  NoDup (map node_id store) -> Permutation res (query store) ->
  Permutation res' (query (fst (Superscripts.main false tail_max res store))) ->
  Superscripts.main false tail_max res' (fst (Superscripts.main false tail_max res store))
  = (fst (Superscripts.main false tail_max res store), Some (0, List.length res')).
Proof.
  intros H0 H1 ND P.
  assert (E : fst (Superscripts.main false tail_max res store)
              = map (fixed_node tail_max) store).
  { unfold Superscripts.main. rewrite main_loop_commit by assumption. cbn [fst].
    apply map_ext_in. intros a Ha. apply (fold_fix_node tail_max res store a ND P Ha). }
  rewrite E. intros P'.
  assert (ND' : NoDup (map node_id (map (fixed_node tail_max) store))).
  { rewrite map_map. erewrite map_ext; [exact ND|]. intros a. apply fixed_node_id. }
  unfold Superscripts.main. rewrite main_loop_commit by assumption.
  pose proof (permutation_forall _ _ _ P' (query_fixed tail_max store H0 H1)) as F.
  destruct (filter_all_false _ _ F) as [-> ->].
  apply f_equal2; [|reflexivity].
  rewrite <- (map_id (map (fixed_node tail_max) store)) at 2.
  apply map_ext_in. intros b Hb.
  rewrite (fold_fix_node tail_max res' _ b ND' P' Hb).
  apply in_map_iff in Hb. destruct Hb as (a & <- & _).
  apply fixed_node_stable; assumption.
Qed.

(** Property X14.  A dry run of [main] leaves the graph as it is and
    reports the counters of a run that writes. *)
Theorem main_dry_run (tail_max : Z)
    (res : list (option (list N) * list N * N)) (store : list article) :
  fst (Superscripts.main true tail_max res store) = store
  /\ snd (Superscripts.main true tail_max res store) = snd (Superscripts.main false tail_max res store).
Proof.
  unfold Superscripts.main. generalize 0 at 1 3 5 as f. generalize 0 as n.
  generalize store at 1 2 3 as st. revert store.
  induction res as [|[[d art] id] res IH]; intros store st n f; cbn [Superscripts.main_loop].
  - split; reflexivity.
  - destruct (normalize_article_number art tail_max) as [[new_art foot]|];
      [|split; reflexivity].
    destruct (negb (str_eqb new_art art) || _); apply IH.
Qed.

Lemma ci_of_lower l x :
  l = 97%N \/ l = 114%N \/ l = 116%N -> (ascii_lower x =? l)%N = true -> ci l x = true.
Proof.
  intros [->|[->| ->]] H; unfold ci;
    [change (ascii_lower 97) with 97%N|change (ascii_lower 114) with 114%N
    |change (ascii_lower 116) with 116%N];
    cbv zeta; rewrite H; reflexivity.
Qed.

Lemma starts_with_art_inv a :
  starts_with_art a = true ->
  exists x y z tl, Superscripts.article_number a = Some (x :: y :: z :: tl)
    /\ ci 97 x = true /\ ci 114 y = true /\ ci 116 z = true.
Proof.
  unfold starts_with_art. destruct (Superscripts.article_number a) as [art|]; [|discriminate].
  change (u "art") with [97%N; 114%N; 116%N].
  destruct art as [|x [|y [|z tl]]]; cbn [starts_with];
    rewrite ?andb_false_r; try discriminate.
  intros H. apply andb_true_iff in H. destruct H as [Hx H].
  apply andb_true_iff in H. destruct H as [Hy H].
  apply andb_true_iff in H. destruct H as [Hz _].
  exists x, y, z, tl. split; [reflexivity|].
  repeat split; apply ci_of_lower; auto.
Qed.

Lemma in_query r store :
  In r (query store) ->
  exists a, In a store /\ starts_with_art a = true
    /\ Superscripts.article_number a = Some (snd (fst r)) /\ snd r = node_id a.
Proof.
  unfold query. intros H. apply in_flat_map in H. destruct H as (a & Ha & H).
  destruct (Superscripts.article_number a) as [art|] eqn:Ea; [|destruct H].
  destruct (starts_with_art a) eqn:Es; [|destruct H].
  destruct H as [<-|[]]. exists a. auto.
Qed.

Lemma normalize_raises art tm x y z tl :
  art = x :: y :: z :: tl ->
  ci 97 x = true -> ci 114 y = true -> ci 116 z = true ->
  tm = 0%Z \/ (MAXREPEAT <= tm)%Z ->
  normalize_article_number art tm = None.
Proof.
  intros -> Hx Hy Hz Ht. rewrite normalize_unfold by discriminate.
  destruct (preprocess_art [] x y z tl (Forall_nil _) Hx Hy Hz) as (s' & E).
  cbn [app] in E. rewrite E.
  destruct (prefix_match_fwd x y z s' Hx Hy Hz) as (m & Em & _). rewrite Em.
  unfold normalize_rest, tail_body.
  destruct Ht as [->|Ht]; [reflexivity|].
  destruct (tm =? 0)%Z; [reflexivity|].
  assert (Q : (MAXREPEAT <=? tm)%Z = true) by (apply Z.leb_le; exact Ht).
  rewrite Q. reflexivity.
Qed.

(** Property X15.  With a tail bound that the pattern compiler refuses,
    zero or a bound from [MAXREPEAT] on, [main] stops at the first record
    with the exception of [normalize_article_number] and writes nothing;
    it ends without one only when the query returns no record. *)
Theorem main_tail_max_refused (dry : bool) (tail_max : Z)
    (res : list (option (list N) * list N * N)) (store : list article) :
  tail_max = 0%Z \/ (MAXREPEAT <= tail_max)%Z ->
  Permutation res (query store) ->
  Superscripts.main dry tail_max res store
  = (store, match res with
            | [] => Some (0, 0)
            | _ :: _ => None
            end).
Proof.
  intros Ht P. destruct res as [|[[d art] id] res]; [reflexivity|].
  unfold Superscripts.main. cbn [Superscripts.main_loop].
  assert (I : In (d, art, id) (query store))
    by (eapply Permutation_in; [exact P|now left]).
  apply in_query in I. destruct I as (a & _ & Es & Ea & _). cbn [fst snd] in Ea.
  destruct (starts_with_art_inv a Es) as (x & y & z & tl & Ea' & Hx & Hy & Hz).
  rewrite Ea in Ea'. injection Ea' as ->.
  rewrite (normalize_raises _ tail_max x y z tl eq_refl Hx Hy Hz Ht). reflexivity.
Qed.

Lemma main_tail_max_refused_witness :
  Superscripts.main false 0 (query [Article 7 None (Some (u "Art.7064")) None])
       [Article 7 None (Some (u "Art.7064")) None]
  = ([Article 7 None (Some (u "Art.7064")) None], None).
Proof.
  assert (T : (0 = 0 \/ MAXREPEAT <= 0)%Z) by (left; reflexivity).
  pose proof (main_tail_max_refused false 0 _ [Article 7 None (Some (u "Art.7064")) None]
                T (Permutation_refl _)) as Q.
  vm_compute in Q. vm_compute. exact Q.
Defined.

Lemma main_fixes_every_node_witness :
  Superscripts.main false 2
       (query [Article 7 None (Some (u "Art.7064")) None;
               Article 8 None (Some (u "Annexe 1")) None])
       [Article 7 None (Some (u "Art.7064")) None;
        Article 8 None (Some (u "Annexe 1")) None]
  = ([Article 7 None (Some (u "Art. 706")) (Some (u "4"));
      Article 8 None (Some (u "Annexe 1")) None], Some (1, 0)).
Proof.
  assert (H0 : 2%Z <> 0%Z) by discriminate.
  assert (H1 : (2 < MAXREPEAT)%Z) by reflexivity.
  assert (ND : NoDup (map node_id [Article 7 None (Some (u "Art.7064")) None;
                                   Article 8 None (Some (u "Annexe 1")) None]))
    by (repeat constructor; simpl; intuition discriminate).
  pose proof (main_fixes_every_node 2 _ _ H0 H1 ND (Permutation_refl _)) as Q.
  vm_compute in Q. vm_compute. exact Q.
Defined.

Lemma main_second_pass_witness :
  Superscripts.main false 2
       (query [Article 7 None (Some (u "Art. 706")) (Some (u "4"))])
       (fst (Superscripts.main false 2 (query [Article 7 None (Some (u "Art.7064")) None])
                 [Article 7 None (Some (u "Art.7064")) None]))
  = ([Article 7 None (Some (u "Art. 706")) (Some (u "4"))], Some (0, 1)).
Proof.
  assert (H0 : 2%Z <> 0%Z) by discriminate.
  assert (H1 : (2 < MAXREPEAT)%Z) by reflexivity.
  assert (ND : NoDup (map node_id [Article 7 None (Some (u "Art.7064")) None]))
    by (repeat constructor; simpl; intuition discriminate).
  assert (P : Permutation
                (query [Article 7 None (Some (u "Art. 706")) (Some (u "4"))])
                (query (fst (Superscripts.main false 2
                               (query [Article 7 None (Some (u "Art.7064")) None])
                               [Article 7 None (Some (u "Art.7064")) None]))))
    by (vm_compute; apply Permutation_refl).
  pose proof (main_second_pass 2 _ _ _ H0 H1 ND (Permutation_refl _) P) as Q.
  vm_compute in Q. vm_compute. exact Q.
Defined.

(** *** The identity that the first page gives *)
Lemma guess_doc_id_text_eq t :
  guess_doc_id_from_first_page_text (Some t) = guess_doc_id_from_first_page t.
Proof. destruct t; reflexivity. Qed.

Lemma guess_doc_id_nonempty t d : guess_doc_id_from_first_page t = Some d -> d <> [].
Proof.
  unfold guess_doc_id_from_first_page.
  destruct (re_search DOC_ID_RE t 0) as [m|] eqn:E; [|discriminate].
  intros [= <-]. apply re_search_some in E. destruct E as (k & Hk & Hm & _).
  unfold match_at in Hm. apply match_here_span in Hm.
  change (min_len DOC_ID_RE) with 5 in Hm. destruct Hm as (Hs & Hlo & Hhi).
  rewrite length_skipn in Hhi.
  unfold group0, slice. rewrite Hs. intros Q.
  apply (f_equal (@List.length N)) in Q. rewrite length_firstn, length_skipn in Q.
  simpl in Q. lia.
Qed.

Lemma target_identity_page page0 pages arts stem :
  target_identity (probe_pdf_first_page (Some (page0 :: pages))) arts stem
  = Some (match guess_doc_id_from_first_page (page_text page0) with
          | Some d => d
          | None => match old_ids arts with
                    | d :: _ => d
                    | [] => stem
                    end
          end,
          guess_doc_title_from_first_page
            (top_lines page0) (Reconciler.norm_top page0)
            (page_text page0) (Reconciler.norm_page page0)).
Proof.
  cbn [probe_pdf_first_page]. rewrite guess_doc_id_text_eq.
  pose proof (guess_doc_title_nonempty (top_lines page0) (Reconciler.norm_top page0)
                (page_text page0) (Reconciler.norm_page page0)) as T.
  destruct (guess_doc_title_from_first_page _ _ _ _) as [|c t] eqn:Et; [congruence|].
  unfold target_identity. cbn [truthy negb andb].
  destruct (guess_doc_id_from_first_page (page_text page0)) as [d|] eqn:Ed.
  - apply guess_doc_id_nonempty in Ed. destruct d as [|x d]; [congruence|].
    rewrite andb_false_r. reflexivity.
  - rewrite andb_false_r. reflexivity.
Qed.

(** Property X17.  [main] skips a group when its PDF cannot be read or
    has no page, and only then.  Otherwise the title is the title that
    [guess_doc_title_from_first_page] gives, which is never empty, and the
    id is the id that the first page gives or, without one, the first id
    that an article of the group has or, without one, the stem. *)
Theorem target_identity_of_probe
    (file : option (list first_page)) (arts : list art) (stem : list N) :
  target_identity (probe_pdf_first_page file) arts stem
  = match file with
    | Some (page0 :: _) =>
      Some (match guess_doc_id_from_first_page (page_text page0) with
            | Some d => d
            | None => match old_ids arts with
                      | d :: _ => d
                      | [] => stem
                      end
            end,
            guess_doc_title_from_first_page
              (top_lines page0) (Reconciler.norm_top page0)
              (page_text page0) (Reconciler.norm_page page0))
    | _ => None
    end.
Proof.
  destruct file as [[|page0 pages]|]; [reflexivity| |reflexivity].
  apply target_identity_page.
Qed.

Lemma target_identity_none file arts stem :
  target_identity (probe_pdf_first_page file) arts stem = None
  <-> no_first_page file = true.
Proof.
  destruct file as [[|page0 pages]|]; simpl; try (split; reflexivity).
  pose proof (guess_doc_title_nonempty (top_lines page0) (Reconciler.norm_top page0)
                (page_text page0) (Reconciler.norm_page page0)) as T.
  destruct (guess_doc_title_from_first_page _ _ _ _) as [|c t] eqn:Et; [congruence|].
  rewrite andb_false_r. split; discriminate.
Qed.

(** *** The loop over the groups *)
Lemma reconciler_loop_counts commit files stem_of : forall gs articles total fixed skipped,
  snd (Reconciler.main_loop commit files stem_of gs articles total fixed skipped)
  = (total + List.length gs,
     fixed + (if commit
              then List.length (filter (fun g => negb (no_first_page (files (group_pdf_path g))))
                                       gs)
              else 0),
     skipped + List.length (filter (fun g => no_first_page (files (group_pdf_path g))) gs))
  /\ (if commit then True
      else fst (Reconciler.main_loop commit files stem_of gs articles total fixed skipped)
           = articles).
Proof.
  induction gs as [|g gs IH]; intros articles total fixed skipped.
  - cbn [Reconciler.main_loop filter List.length fst snd].
    rewrite !Nat.add_0_r. destruct commit; rewrite Nat.add_0_r; auto.
  - cbn [Reconciler.main_loop filter].
    destruct (target_identity _ _ _) as [[id title]|] eqn:E.
    + assert (Q : no_first_page (files (group_pdf_path g)) = false).
      { destruct (no_first_page _) eqn:N; [|reflexivity].
        apply target_identity_none with (arts := group_arts g)
                                        (stem := stem_of (group_pdf_path g)) in N.
        congruence. }
      rewrite Q. cbn [negb List.length]. destruct commit.
      * destruct (IH (set_articles (group_pdf_path g) id title (group_arts g) articles)
                     (total + 1) (fixed + 1) skipped) as [-> _].
        split; [|exact I]. apply f_equal2; [apply f_equal2|]; lia.
      * destruct (IH articles (total + 1) fixed skipped) as [-> ->].
        split; [|reflexivity]. apply f_equal2; [apply f_equal2|]; lia.
    + apply target_identity_none in E. rewrite E. cbn [negb List.length].
      destruct (IH articles (total + 1) fixed (skipped + 1)) as [-> Hd].
      split; [|exact Hd]. apply f_equal2; [apply f_equal2|]; lia.
Qed.

(** Property X18.  The counters of [main]: every group within the limit
    is counted once in [total]; [skipped] counts the groups whose PDF
    cannot be read or has no page; a run that commits counts the others as
    fixed, so that total = fixed + skipped; a run that does not commit
    counts no group as fixed and leaves the Article nodes as they are. *)
Theorem reconciler_main_counters (commit : bool) (limit : option Z)
    (files : list N -> option (list first_page)) (stem_of : list N -> list N)
    (groups : list pdf_group) (articles : list article_node) :
  let r := Reconciler.main commit limit files stem_of groups articles in
  let total := fst (fst (snd r)) in
  let fixed := snd (fst (snd r)) in
  let skipped := snd (snd r) in
  total = List.length (limited limit groups)
  /\ skipped = List.length (filter (fun g => no_first_page (files (group_pdf_path g)))
                                   (limited limit groups))
  /\ (if commit then total = fixed + skipped
      else fixed = 0 /\ fst r = articles).
Proof.
  cbv zeta. unfold Reconciler.main.
  destruct (reconciler_loop_counts commit files stem_of (limited limit groups)
              articles 0 0 0) as [E D].
  rewrite E. cbn [fst snd]. split; [reflexivity|]. split; [reflexivity|].
  destruct commit; [|split; [reflexivity|exact D]].
  rewrite Nat.add_0_l.
  generalize (limited limit groups) as l. induction l as [|g l IH]; [reflexivity|].
  cbn [filter List.length]. destruct (no_first_page _); cbn [negb List.length]; lia.
Qed.

(** *** A second run *)
Lemma old_ids_nonempty : forall arts, Forall (fun d => d <> []) (old_ids arts).
Proof.
  induction arts as [|a arts IH]; [constructor|].
  unfold old_ids. cbn [flat_map]. fold (old_ids arts). apply Forall_app. split; [|exact IH].
  destruct (Reconciler.doc_id a) as [[|c d]|]; repeat constructor. discriminate.
Qed.

Lemma old_ids_same id : forall arts,
  Forall (fun r => Reconciler.doc_id r = Some id) arts ->
  old_ids arts = match id with
                 | [] => []
                 | _ :: _ => map (fun _ => id) arts
                 end.
Proof.
  induction 1 as [|r arts H F IH].
  - destruct id; reflexivity.
  - unfold old_ids. cbn [flat_map]. fold (old_ids arts). rewrite IH, H.
    destruct id; reflexivity.
Qed.

Lemma collect_in path articles a :
  In a articles -> node_pdf_path a = Some path ->
  In (Art (node_doc_id a) (node_number a)) (collect_arts path articles).
Proof.
  intros Ha Hp. unfold collect_arts. apply in_flat_map. exists a. split; [exact Ha|].
  rewrite Hp. assert (E : str_eqb path path = true) by now apply str_eqb_eq.
  rewrite E. now left.
Qed.

Lemma reached_covered path arts articles a :
  (forall r, In r (collect_arts path articles) -> In r arts) ->
  In a articles ->
  reached path arts a
  = match node_pdf_path a with
    | Some p => str_eqb p path
    | None => false
    end.
Proof.
  intros C Ha. unfold reached. destruct (node_pdf_path a) as [p|] eqn:Ep; [|reflexivity].
  destruct (str_eqb p path) eqn:E; [|reflexivity]. apply str_eqb_eq in E. subst p.
  cbn [andb]. apply existsb_exists.
  exists (Art (node_doc_id a) (node_number a)). split.
  - apply C. apply collect_in; assumption.
  - cbn [Reconciler.article_number]. now apply str_eqb_eq.
Qed.

Lemma collect_set path id title arts : forall articles,
  (forall a, In a articles -> reached path arts a
                              = match node_pdf_path a with
                                | Some p => str_eqb p path
                                | None => false
                                end) ->
  collect_arts path (set_articles path id title arts articles)
  = map (fun r => Art (Some id) (Reconciler.article_number r)) (collect_arts path articles).
Proof.
  induction articles as [|a articles IH]; intros C; [reflexivity|].
  unfold set_articles, collect_arts. cbn [map flat_map].
  fold (collect_arts path articles).
  fold (set_articles path id title arts articles).
  fold (collect_arts path (set_articles path id title arts articles)).
  rewrite map_app, IH by (intros b Hb; apply C; now right). f_equal.
  fold (reached path arts a). rewrite (C a (or_introl eq_refl)).
  destruct (node_pdf_path a) as [p|] eqn:Ep; [|rewrite Ep; reflexivity].
  destruct (str_eqb p path) eqn:E.
  - cbn [node_pdf_path node_doc_id node_number]. rewrite E. reflexivity.
  - rewrite Ep, E. reflexivity.
Qed.

Lemma fallback_same id stem arts arts' :
  match old_ids arts with d :: _ => d | [] => stem end = id ->
  Forall (fun r => Reconciler.doc_id r = Some id) arts' ->
  (arts' = [] -> arts = []) ->
  match old_ids arts' with d :: _ => d | [] => stem end = id.
Proof.
  intros X F E. rewrite (old_ids_same id arts' F). destruct id as [|x id].
  - pose proof (old_ids_nonempty arts) as N.
    destruct (old_ids arts) as [|d0 ds]; [exact X|].
    inversion N; subst. congruence.
  - destruct arts' as [|r arts'']; [|reflexivity].
    rewrite (E eq_refl) in X. exact X.
Qed.

(** Property X19.  After the update of a group, a second run finds for
    the group the identity of the first run, whatever the order in which
    the articles are collected, and its update leaves the Article nodes as
    they are. *)
Theorem reconcile_twice (probe : option (list N) * option (list N))
    (arts arts' : list art) (stem path : list N) (articles : list article_node)
    (id title : list N) :
  Permutation arts (collect_arts path articles) ->
  target_identity probe arts stem = Some (id, title) ->
  Permutation arts' (collect_arts path (set_articles path id title arts articles)) ->
  target_identity probe arts' stem = Some (id, title)
  /\ set_articles path id title arts' (set_articles path id title arts articles)
     = set_articles path id title arts articles.
Proof.
  intros P T P'.
  assert (C : forall a, In a articles ->
                reached path arts a = match node_pdf_path a with
                                      | Some p => str_eqb p path
                                      | None => false
                                      end).
  { intros a Ha. apply (reached_covered path arts articles a); [|exact Ha].
    intros r Hr. eapply Permutation_in; [apply Permutation_sym; exact P|exact Hr]. }
  rewrite (collect_set path id title arts articles C) in P'.
  split.
  - assert (F : Forall (fun r => Reconciler.doc_id r = Some id) arts').
    { apply (permutation_forall _ _ _ P'). apply Forall_forall. intros r Hr.
      apply in_map_iff in Hr. destruct Hr as (r0 & <- & _). reflexivity. }
    assert (E : arts' = [] -> arts = []).
    { intros ->. apply Permutation_nil in P'.
      apply map_eq_nil in P'. rewrite P' in P.
      apply Permutation_sym in P. now apply Permutation_nil. }
    unfold target_identity in *. destruct probe as [new_doc_id doc_title].
    destruct (negb (truthy new_doc_id) && negb (truthy doc_title)); [discriminate|].
    injection T as T1 T2. rewrite T2. f_equal. f_equal.
    destruct new_doc_id as [[|c d]|]; [|exact T1|];
      apply (fallback_same id stem arts arts' T1 F E).
  - unfold set_articles at 1 2. rewrite map_map. unfold set_articles.
    apply map_ext_in. intros a Ha.
    fold (reached path arts a). rewrite (C a Ha).
    destruct (node_pdf_path a) as [p|] eqn:Ep.
    + destruct (str_eqb p path) eqn:E.
      * cbn [node_pdf_path node_number]. rewrite E. cbn [andb].
        assert (X : existsb (fun r => str_eqb (Reconciler.article_number r) (node_number a))
                            arts' = true).
        { apply existsb_exists. exists (Art (Some id) (node_number a)). split.
          - eapply Permutation_in; [apply Permutation_sym; exact P'|].
            apply in_map_iff. exists (Art (node_doc_id a) (node_number a)).
            split; [reflexivity|]. apply str_eqb_eq in E. subst p.
            apply collect_in; assumption.
          - cbn [Reconciler.article_number]. now apply str_eqb_eq. }
        rewrite X. reflexivity.
      * rewrite Ep, E. reflexivity.
    + rewrite Ep. reflexivity.
Qed.

Lemma reconcile_twice_witness :
  target_identity (None, Some (u "Loi"))
    (collect_arts (u "a.pdf")
       (set_articles (u "a.pdf") (u "X") (u "Loi")
          (collect_arts (u "a.pdf")
             [ArticleNode (Some (u "a.pdf")) (u "Art. 1") (Some (u "X")) None;
              ArticleNode (Some (u "a.pdf")) (u "Art. 2") None None])
          [ArticleNode (Some (u "a.pdf")) (u "Art. 1") (Some (u "X")) None;
           ArticleNode (Some (u "a.pdf")) (u "Art. 2") None None]))
    (u "a")
  = Some (u "X", u "Loi").
Proof.
  apply (reconcile_twice (None, Some (u "Loi"))
           (collect_arts (u "a.pdf")
              [ArticleNode (Some (u "a.pdf")) (u "Art. 1") (Some (u "X")) None;
               ArticleNode (Some (u "a.pdf")) (u "Art. 2") None None])
           _ (u "a") (u "a.pdf")
           [ArticleNode (Some (u "a.pdf")) (u "Art. 1") (Some (u "X")) None;
            ArticleNode (Some (u "a.pdf")) (u "Art. 2") None None]
           (u "X") (u "Loi")).
  - apply Permutation_refl.
  - reflexivity.
  - apply Permutation_refl.
Defined.

(** *** The form of a normalised number *)
Lemma tidy_art body : tidy body = true -> body <> [] -> tidy (u "Art. " ++ body) = true.
Proof.
  intros T N. destruct body as [|x s]; [congruence|].
  unfold tidy in T. apply andb_true_iff in T. destruct T as [Hx Hs].
  apply negb_true_iff in Hx.
  change (u "Art. " ++ x :: s) with (65 :: 114 :: 116 :: 46 :: 32 :: x :: s)%N.
  unfold tidy.
  assert (A : is_space 65 = false) by (vm_compute; reflexivity).
  assert (R : is_space 114 = false) by (vm_compute; reflexivity).
  assert (T : is_space 116 = false) by (vm_compute; reflexivity).
  assert (D : is_space 46 = false) by (vm_compute; reflexivity).
  assert (S : is_space 32 = true) by (vm_compute; reflexivity).
  rewrite A. cbn [negb andb].
  rewrite (tidy_tail_cons 114 _ R), (tidy_tail_cons 116 _ T), (tidy_tail_cons 46 _ D).
  cbn [tidy_tail]. rewrite S, Hx, N.eqb_refl. cbn [negb andb].
  rewrite <- (tidy_tail_cons x s Hx). cbn [tidy_tail]. rewrite Hx. exact Hs.
Qed.

(** Property X11.  A number that [normalize_article_number] returns
    holds no superscript digit.  It has no whitespace at its ends and no
    whitespace other than single spaces, each between two other
    characters; the one exception is the number "Art. ", returned when
    nothing follows the prefix. *)
Theorem normalize_number_clean (raw : list N) (tail_max : Z)
    (num : list N) (foot : option (list N)) :
  normalize_article_number raw tail_max = Some (num, foot) ->
  Forall (fun c => _SUP_MAP c = c) num
  /\ (tidy num = true \/ num = u "Art. ").
Proof.
  intros H. destruct raw as [|c raw].
  - injection H as <- <-. split; [constructor|left; reflexivity].
  - rewrite normalize_unfold in H by discriminate.
    destruct (preprocess_clean (c :: raw)) as [T S].
    destruct (re_match prefix_re (preprocess (c :: raw))) as [m|] eqn:Em.
    + destruct (prefix_match_tidy _ m T S Em) as [Tr Sr].
      destruct (normalize_rest_again _ _ _ _ _ Tr Sr H) as (body & -> & Tb & Sb & _).
      change (u "Art." ++ u " " ++ body) with (u "Art. " ++ body). split.
      * apply Forall_app. split; [|exact Sb]. repeat constructor.
      * destruct body as [|x s]; [right; reflexivity|left].
        apply tidy_art; [exact Tb|discriminate].
    + injection H as <- <-. split; [exact S|left; exact T].
Qed.

Lemma normalize_number_clean_witness :
  Forall (fun c => _SUP_MAP c = c) (u "Art. 70a")
  /\ (tidy (u "Art. 70a") = true \/ u "Art. 70a" = u "Art. ").
Proof.
  apply (normalize_number_clean (u " art 70A³ ") 2 (u "Art. 70a") (Some (u "3"))).
  vm_compute. reflexivity.
Defined.

(** *** Where a segment starts *)
Lemma finditer_aux_prev r : forall l skip ps pv,
  Forall (fun m => exists k, k <= List.length l /\ m_start m = ps + k
                     /\ match_here r (ps + k) (last_or (firstn k l) pv) (skipn k l) = Some m)
         (finditer_aux r skip ps pv l).
Proof.
  induction l as [|x l IH]; intros skip ps pv.
  - destruct skip as [|k]; simpl; [|constructor].
    destruct (match_here r ps pv []) as [m|] eqn:E; constructor; [|constructor].
    exists 0. simpl. rewrite Nat.add_0_r. repeat split; auto.
    apply match_here_span in E. apply E.
  - assert (T : forall k, Forall (fun m => exists k0, k0 <= List.length (x :: l)
                     /\ m_start m = ps + k0
                     /\ match_here r (ps + k0) (last_or (firstn k0 (x :: l)) pv)
                                   (skipn k0 (x :: l)) = Some m)
                     (finditer_aux r k (S ps) (Some x) l)).
    { intros k. eapply Forall_impl; [|apply (IH k (S ps) (Some x))].
      simpl. intros m (k0 & Hk & Hs & Hm). exists (S k0). simpl.
      replace (ps + S k0) with (S (ps + k0)) by lia. repeat split; auto; lia. }
    destruct skip as [|k]; cbn [finditer_aux]; [|apply T].
    destruct (match_here r ps pv (x :: l)) as [m|] eqn:E; [|apply T].
    constructor; [|apply T]. exists 0. simpl. rewrite Nat.add_0_r.
    repeat split; auto; try lia. apply match_here_span in E. apply E.
Qed.

Lemma last_or_firstn_at (text : list N) : forall k c pv,
  k <= List.length text ->
  last_or (firstn k text) pv = Some c ->
  (k = 0 /\ pv = Some c) \/ (1 <= k /\ nth_error text (k - 1) = Some c).
Proof.
  induction text as [|x text IH]; intros k c pv Hk H.
  - simpl in Hk. replace k with 0 in * by lia. simpl in H. left. auto.
  - destruct k as [|k]; [left; simpl in H; auto|].
    simpl in Hk. cbn [firstn last_or] in H.
    destruct (IH k c (Some x) ltac:(lia) H) as [(-> & E)|(Hk1 & E)].
    + right. injection E as ->. split; [lia|reflexivity].
    + right. split; [lia|]. replace (S k - 1) with (S (k - 1)) by lia. exact E.
Qed.

Lemma ci_lower l x :
  l = 97%N \/ l = 114%N \/ l = 116%N -> ci l x = true -> ascii_lower x = l.
Proof.
  intros Hl H. unfold ci in H.
  destruct Hl as [->|[->| ->]]; cbv zeta in H;
    [change (ascii_lower 97) with 97%N in H|change (ascii_lower 114) with 114%N in H
    |change (ascii_lower 116) with 116%N in H];
    cbn [N.eqb Pos.eqb andb orb] in H; rewrite ?orb_false_r in H;
    apply N.eqb_eq in H; exact H.
Qed.

Lemma heading_start text k pv m :
  k <= List.length text ->
  match_here ART_HEADING_RE k pv (skipn k text) = Some m ->
  (pv = None \/ pv = Some 10%N) /\ starts_with_heading (skipn k text).
Proof.
  intros Hk H. apply match_here_inv in H. destruct H as (s' & F & ->).
  apply first_run_in in F. unfold ART_HEADING_RE in F.
  apply in_run_cat_cons in F. destruct F as (s1 & F1 & F).
  apply in_run_cat_cons in F. destruct F as (s2 & F2 & F).
  apply in_run_cat_cons in F. destruct F as (s3 & F3 & F).
  apply in_run_cat_cons in F. destruct F as (s4 & F4 & _).
  cbn [run prev] in F1. split.
  - destruct pv as [c|]; [|now left]. destruct (N.eqb_spec c 10); [subst; now right|destruct F1].
  - assert (E1 : s1 = St k pv (skipn k text) []).
    { destruct pv as [c|]; [destruct (c =? 10)%N; [|destruct F1]|];
        destruct F1 as [<-|[]]; reflexivity. }
    subst s1. apply in_run_rep in F2.
    destruct F2 as (ws & R2 & W & _). cbn [rest] in R2.
    apply lit_ci_inv in F3. destruct F3 as (w' & R3 & L3 & _).
    apply in_run_chr in F4. destruct F4 as (d & tl & R4 & Pd & _).
    unfold is_char in Pd. apply N.eqb_eq in Pd. subst d.
    change (u "Art") with [65%N; 114%N; 116%N] in L3.
    inversion L3 as [|? x ? w1 Hx L3']; subst. inversion L3' as [|? y ? w2 Hy L3'']; subst.
    inversion L3'' as [|? z ? w3 Hz L3''']; subst. inversion L3'''; subst.
    exists ws, x, y, z, tl. rewrite R2, R3, R4. split; [reflexivity|]. split; [exact W|].
    assert (Hx' : ci 97 x = true) by exact Hx.
    repeat split; apply ci_lower; auto.
Qed.

(** Property X9.  Every segment of [find_articles_segments] starts at
    the start of a line of the text, and the text from there on is
    whitespace, the letters of "Art" in any case and a period. *)
Theorem find_articles_segments_line_start (full_text : list N) :
  Forall (fun seg => at_line_start full_text (snd (fst seg))
                     /\ starts_with_heading (skipn (snd (fst seg)) full_text))
         (find_articles_segments full_text).
Proof.
  unfold find_articles_segments.
  pose proof (finditer_aux_prev ART_HEADING_RE full_text 0 0 None) as F.
  fold (re_finditer ART_HEADING_RE full_text) in F.
  induction (re_finditer ART_HEADING_RE full_text) as [|m ms IH]; [constructor|].
  inversion F as [|? ? (k & Hk & Hs & Hm) F']; subst.
  cbn [segments_of]. constructor; [|apply IH; exact F'].
  cbn [fst snd]. simpl in Hs, Hm. rewrite Hs.
  destruct (heading_start full_text k _ m Hk Hm) as ([E|E] & Hh); split; try exact Hh.
  - destruct k as [|k]; [left; reflexivity|].
    right. destruct full_text as [|x t]; [simpl in Hk; lia|].
    cbn [firstn last_or] in E.
    assert (Q : forall w pv, last_or w (Some pv) <> None).
    { induction w as [|c w IHw]; intros pv; simpl; [discriminate|apply IHw]. }
    exfalso. exact (Q _ _ E).
  - destruct (last_or_firstn_at full_text k 10%N None Hk E) as [(_ & Q)|(_ & Q)];
      [discriminate|right; exact Q].
Qed.

(** *** Roman numerals *)
Lemma ci_capital l c : capital l -> capital c -> ci l c = true -> c = l.
Proof.
  unfold capital, ci, ascii_lower. intros Hl Hc.
  assert (L1 : ((65 <=? l) && (l <=? 90))%N = true)
    by (apply andb_true_iff; split; apply N.leb_le; lia).
  assert (L2 : ((65 <=? c) && (c <=? 90))%N = true)
    by (apply andb_true_iff; split; apply N.leb_le; lia).
  rewrite L1, L2. cbv zeta.
  assert (Q1 : (c =? 304)%N = false) by (apply N.eqb_neq; lia).
  assert (Q2 : (c =? 305)%N = false) by (apply N.eqb_neq; lia).
  assert (Q3 : (c =? 383)%N = false) by (apply N.eqb_neq; lia).
  assert (Q4 : (c =? 8490)%N = false) by (apply N.eqb_neq; lia).
  rewrite Q1, Q2, Q3, Q4. rewrite !andb_false_r, !orb_false_r.
  intros H. apply N.eqb_eq in H. lia.
Qed.

Lemma in_run_alt r1 r2 s s' :
  In s' (run (Alt r1 r2) s) <-> In s' (run r1 s) \/ In s' (run r2 s).
Proof. simpl. apply in_app_iff. Qed.

Lemma lit_ci_two a b s s' :
  In s' (run (lit_ci [a; b]) s) ->
  exists x y, rest s = [x; y] ++ rest s' /\ ci a x = true /\ ci b y = true.
Proof.
  intros H. apply lit_ci_inv in H. destruct H as (w & R & F & _).
  inversion F as [|? x ? w1 Hx F1]; subst. inversion F1 as [|? y ? w2 Hy F2]; subst.
  inversion F2; subst. exists x, y. auto.
Qed.

Lemma repeat_forall (a : N) : forall w, Forall (fun c => c = a) w -> w = repeat a (List.length w).
Proof.
  induction 1 as [|c w H F IH]; [reflexivity|]. simpl. rewrite <- IH, H. reflexivity.
Qed.

(** The runs of the group of a rank. *)
Lemma digit_run one five ten s s' :
  capital one -> capital five -> capital ten ->
  In s' (run (Alt (lit_ci [one; ten])
              (Alt (lit_ci [one; five])
                   (cat [Opt (Chr (ci five)); Rep 0 (Some 3%N) (ci one)]))) s) ->
  exists w, rest s = w ++ rest s'
    /\ (Forall capital w -> exists d, d < 10 /\ w = digit_text one five ten d).
Proof.
  intros C1 C5 C10 H. apply in_run_alt in H. destruct H as [H|H].
  - apply lit_ci_two in H. destruct H as (x & y & R & Hx & Hy).
    exists [x; y]. split; [exact R|]. intros F.
    inversion F as [|? ? Fx F1]; subst. inversion F1 as [|? ? Fy _]; subst.
    exists 9. split; [lia|]. simpl.
    rewrite (ci_capital one x C1 Fx Hx), (ci_capital ten y C10 Fy Hy). reflexivity.
  - apply in_run_alt in H. destruct H as [H|H].
    + apply lit_ci_two in H. destruct H as (x & y & R & Hx & Hy).
      exists [x; y]. split; [exact R|]. intros F.
      inversion F as [|? ? Fx F1]; subst. inversion F1 as [|? ? Fy _]; subst.
      exists 4. split; [lia|]. simpl.
      rewrite (ci_capital one x C1 Fx Hx), (ci_capital five y C5 Fy Hy). reflexivity.
    + apply in_run_cat_cons in H. destruct H as (s1 & H1 & H).
      apply in_run_cat_cons in H. destruct H as (s2 & H2 & H).
      apply in_run_cat_nil in H. subst s2.
      apply in_run_rep in H2. destruct H2 as (w & R2 & Fw & _ & _ & _ & _ & U).
      specialize (U _ eq_refl).
      assert (W : Forall capital w -> exists j, j <= 3 /\ w = repeat one j).
      { intros Fc. exists (List.length w). split; [lia|]. apply repeat_forall.
        rewrite Forall_forall in *. intros c Hc.
        apply (ci_capital one c C1 (Fc c Hc) (Fw c Hc)). }
      apply in_run_opt in H1. destruct H1 as [H1| ->].
      * apply in_run_chr in H1. destruct H1 as (x & l & R1 & Px & ->).
        cbn [rest] in R2. exists (x :: w). split; [rewrite R1, R2; reflexivity|].
        intros F. inversion F as [|? ? Fx Fw']; subst.
        destruct (W Fw') as (j & Hj & ->).
        rewrite (ci_capital five x C5 Fx Px).
        exists (5 + j). split; [lia|].
        destruct j as [|[|[|[|j]]]]; try reflexivity; lia.
      * exists w. split; [exact R2|]. intros F.
        destruct (W F) as (j & Hj & ->). exists j. split; [lia|].
        destruct j as [|[|[|[|j]]]]; try reflexivity; lia.
Qed.

Lemma digit_group k one five ten s s' :
  capital one -> capital five -> capital ten ->
  In s' (run (Grp k (Alt (lit_ci [one; ten])
                     (Alt (lit_ci [one; five])
                          (cat [Opt (Chr (ci five)); Rep 0 (Some 3%N) (ci one)])))) s) ->
  exists w, rest s = w ++ rest s'
    /\ (Forall capital w -> exists d, d < 10 /\ w = digit_text one five ten d).
Proof.
  intros C1 C5 C10 H. apply in_run_grp in H. destruct H as (t & Ht & ->).
  cbn [rest]. apply (digit_run one five ten s t C1 C5 C10 Ht).
Qed.

Lemma roman_run_inv (g : list N) :
  Forall capital g -> _is_roman g = true ->
  exists k h t i, k <= 4 /\ h < 10 /\ t < 10 /\ i < 10 /\ g = roman_of k h t i.
Proof.
  intros Fg H. unfold _is_roman, re_match in H.
  destruct (match_here _ROMAN_RE 0 None g) as [m|] eqn:E; [|discriminate].
  apply match_here_inv in E. destruct E as (sf & F & _). apply first_run_in in F.
  unfold _ROMAN_RE in F.
  apply in_run_cat_cons in F. destruct F as (s0 & H0 & F).
  apply in_run_caret in H0. destruct H0 as [-> _].
  apply in_run_cat_cons in F. destruct F as (s1 & H1 & F).
  apply in_run_ahead in H1. destruct H1 as [-> _].
  apply in_run_cat_cons in F. destruct F as (s2 & H2 & F).
  apply in_run_rep in H2. destruct H2 as (w0 & R0 & F0 & _ & _ & _ & _ & U0).
  specialize (U0 _ eq_refl). cbn [rest] in R0.
  apply in_run_cat_cons in F. destruct F as (s3 & H3 & F).
  apply (digit_group 1 67 68 77) in H3; [|unfold capital; lia..].
  destruct H3 as (wh & Rh & Dh).
  apply in_run_cat_cons in F. destruct F as (s4 & H4 & F).
  apply (digit_group 2 88 76 67) in H4; [|unfold capital; lia..].
  destruct H4 as (wt & Rt & Dt).
  apply in_run_cat_cons in F. destruct F as (s5 & H5 & F).
  apply (digit_group 3 73 86 88) in H5; [|unfold capital; lia..].
  destruct H5 as (wi & Ri & Di).
  apply in_run_cat_cons in F. destruct F as (s6 & H6 & _).
  apply in_run_dollar in H6. destruct H6 as [-> D].
  assert (G : g = w0 ++ wh ++ wt ++ wi ++ rest s5).
  { rewrite R0, Rh, Rt, Ri. reflexivity. }
  rewrite G in Fg. apply Forall_app in Fg. destruct Fg as [Fg0 Fg].
  apply Forall_app in Fg. destruct Fg as [Fgh Fg].
  apply Forall_app in Fg. destruct Fg as [Fgt Fg].
  apply Forall_app in Fg. destruct Fg as [Fgi Fge].
  assert (Ee : rest s5 = []).
  { destruct D as [D|D]; [exact D|]. rewrite D in Fge.
    inversion Fge as [|? ? Q _]; subst. unfold capital in Q. lia. }
  destruct (Dh Fgh) as (h & Hh & ->). destruct (Dt Fgt) as (t & Ht & ->).
  destruct (Di Fgi) as (i & Hi & ->).
  exists (List.length w0), h, t, i. repeat split; try assumption; [lia|].
  rewrite G, Ee, app_nil_r. unfold roman_of. f_equal.
  apply repeat_forall. rewrite Forall_forall in *. intros c Hc.
  apply (ci_capital 77 c ltac:(unfold capital; lia) (Fg0 c Hc) (F0 c Hc)).
Qed.

Lemma to_roman_ranks k h t i :
  h < 10 -> t < 10 -> i < 10 ->
  to_roman (1000 * k + 100 * h + 10 * t + i) = roman_of k h t i.
Proof.
  intros Hh Ht Hi. unfold to_roman.
  assert (E1 : (1000 * k + 100 * h + 10 * t + i) / 1000 = k).
  { symmetry. apply (Nat.div_unique _ 1000 k (100 * h + 10 * t + i)); lia. }
  assert (E2 : (1000 * k + 100 * h + 10 * t + i) / 100 mod 10 = h).
  { replace ((1000 * k + 100 * h + 10 * t + i) / 100) with (10 * k + h).
    - symmetry. apply (Nat.mod_unique _ 10 k h); lia.
    - apply (Nat.div_unique _ 100 (10 * k + h) (10 * t + i)); lia. }
  assert (E3 : (1000 * k + 100 * h + 10 * t + i) / 10 mod 10 = t).
  { replace ((1000 * k + 100 * h + 10 * t + i) / 10) with (100 * k + 10 * h + t).
    - symmetry. apply (Nat.mod_unique _ 10 (10 * k + h) t); lia.
    - apply (Nat.div_unique _ 10 (100 * k + 10 * h + t) i); lia. }
  assert (E4 : (1000 * k + 100 * h + 10 * t + i) mod 10 = i).
  { symmetry. apply (Nat.mod_unique _ 10 (100 * k + 10 * h + t) i); lia. }
  rewrite E1, E2, E3, E4. reflexivity.
Qed.

Lemma to_roman_accepted :
  forallb (fun n => (8 <? List.length (to_roman n)) || _is_roman (to_roman n))
          (seq 1 4999) = true.
Proof. vm_compute. reflexivity. Qed.

Lemma roman_letter_capital c : is_roman_letter c = true -> capital (ascii_upper c).
Proof.
  intros H. apply roman_letter_in in H. unfold roman_letters in H. simpl in H.
  unfold capital.
  repeat (destruct H as [<-|H]; [vm_compute; split; discriminate|]). destruct H.
Qed.

(** Property X10.  Among the tokens of the letters of the class
    "[IVXLCDMivxlcdm]", [_is_roman] accepts the tokens of at most eight
    letters that are, in capitals, the roman numeral of a number from 1 to
    4999, and no other. *)
Theorem is_roman_numerals (tok : list N) :
  Forall (fun c => is_roman_letter c = true) tok ->
  (_is_roman tok = true
   <-> exists n, 1 <= n <= 4999 /\ List.length tok <= 8
                 /\ map ascii_upper tok = to_roman n).
Proof.
  intros F. split.
  - intros H.
    assert (L : 1 <= List.length tok <= 8).
    { destruct (is_roman_inv tok H) as (w & e & E & _ & Lw & [->| ->]).
      - rewrite app_nil_r in E. subst. exact Lw.
      - subst tok. apply Forall_app in F. destruct F as [_ F].
        inversion F as [|? ? Q _]; subst. vm_compute in Q. discriminate. }
    rewrite <- is_roman_upper in H.
    assert (Fc : Forall capital (map ascii_upper tok)).
    { apply Forall_map. eapply Forall_impl; [|exact F]. apply roman_letter_capital. }
    destruct (roman_run_inv _ Fc H) as (k & h & t & i & Hk & Hh & Ht & Hi & E).
    exists (1000 * k + 100 * h + 10 * t + i). split; [|split; [lia|]].
    + split; [|lia].
      destruct k as [|k]; [|lia]. destruct h as [|h]; [|lia].
      destruct t as [|t]; [|lia]. destruct i as [|i]; [|lia].
      apply (f_equal (@List.length N)) in E. rewrite length_map in E. simpl in E. lia.
    + rewrite to_roman_ranks by assumption. exact E.
  - intros (n & Hn & L & E). rewrite <- is_roman_upper, E.
    pose proof to_roman_accepted as A. rewrite forallb_forall in A.
    specialize (A n ltac:(apply in_seq; lia)).
    apply orb_true_iff in A. destruct A as [A|A]; [|exact A].
    apply Nat.ltb_lt in A. rewrite <- E, length_map in A. lia.
Qed.

Lemma is_roman_numerals_witness :
  _is_roman (u "mcmxciv") = true
  <-> exists n, 1 <= n <= 4999 /\ List.length (u "mcmxciv") <= 8
                /\ map ascii_upper (u "mcmxciv") = to_roman n.
Proof.
  apply (is_roman_numerals (u "mcmxciv")). repeat constructor.
Defined.

(** *** The numbers in the graph after a pass *)
Lemma normalize_prefix art tm x y z tl num foot :
  art = x :: y :: z :: tl ->
  ci 97 x = true -> ci 114 y = true -> ci 116 z = true ->
  normalize_article_number art tm = Some (num, foot) ->
  exists body, num = u "Art. " ++ body.
Proof.
  intros -> Hx Hy Hz H. rewrite normalize_unfold in H by discriminate.
  destruct (preprocess_art [] x y z tl (Forall_nil _) Hx Hy Hz) as (s' & E).
  cbn [app] in E. rewrite E in H.
  destruct (prefix_match_fwd x y z s' Hx Hy Hz) as (m & Em & _). rewrite Em in H.
  apply normalize_rest_cases in H.
  destruct H as (_ & _ & _ & [(body & _ & ->)|(-> & _)]); eexists; reflexivity.
Qed.

Lemma starts_with_art_number a art :
  Superscripts.article_number a = Some art ->
  starts_with_art a = starts_with (fun l x => (ascii_lower x =? l)%N) (u "art") art.
Proof. intros E. unfold starts_with_art. rewrite E. reflexivity. Qed.

(** Property X16.  After a pass of [main] that writes, every node that
    the query selects has a number that starts with "Art. "; the query
    selects after the pass the nodes that it selected before, and the
    other nodes are as before. *)
Theorem main_canonical_prefix (tail_max : Z)
    (res : list (option (list N) * list N * N)) (store : list article) :
  tail_max <> 0%Z -> (tail_max < MAXREPEAT)%Z ->
  NoDup (map node_id store) -> Permutation res (query store) ->
  Forall2 (fun a b =>
             node_id b = node_id a
             /\ starts_with_art b = starts_with_art a
             /\ (if starts_with_art a
                 then exists body, Superscripts.article_number b = Some (u "Art. " ++ body)
                 else b = a))
          store (fst (Superscripts.main false tail_max res store)).
Proof.
  intros H0 H1 ND P.
  assert (E : fst (Superscripts.main false tail_max res store)
              = map (fixed_node tail_max) store).
  { unfold Superscripts.main. rewrite main_loop_commit by assumption. cbn [fst].
    apply map_ext_in. intros a Ha. apply (fold_fix_node tail_max res store a ND P Ha). }
  rewrite E. clear E ND P res. induction store as [|a store IH]; [constructor|].
  cbn [map]. constructor; [|exact IH].
  split; [apply fixed_node_id|].
  destruct (fixed_node_cases tail_max a)
    as [[Ef Es]|[[Ef (art & Ea & En)]|(art & num & foot & Ea & En & Eb & Ei)]].
  - rewrite Ef, Es. split; reflexivity.
  - destruct (normalize_total art tail_max H0 H1) as (r & Q). congruence.
  - destruct (starts_with_art a) eqn:Es.
    + destruct (starts_with_art_inv a Es) as (x & y & z & tl & Ea' & Hx & Hy & Hz).
      rewrite Ea in Ea'. injection Ea' as ->.
      destruct (normalize_prefix _ tail_max x y z tl num foot eq_refl Hx Hy Hz En)
        as (body & ->).
      split; [|exists body; exact Eb].
      rewrite (starts_with_art_number _ _ Eb). reflexivity.
    + unfold fixed_node. rewrite Ea, Es. rewrite Es. split; reflexivity.
Qed.

Lemma main_canonical_prefix_witness :
  Forall2 (fun a b =>
             node_id b = node_id a
             /\ starts_with_art b = starts_with_art a
             /\ (if starts_with_art a
                 then exists body, Superscripts.article_number b = Some (u "Art. " ++ body)
                 else b = a))
          [Article 7 None (Some (u "art 12")) None]
          (fst (Superscripts.main false 2 (query [Article 7 None (Some (u "art 12")) None])
                  [Article 7 None (Some (u "art 12")) None])).
Proof.
  apply (main_canonical_prefix 2 _ [Article 7 None (Some (u "art 12")) None]).
  - discriminate.
  - reflexivity.
  - repeat constructor; simpl; intuition discriminate.
  - apply Permutation_refl.
Defined.

(** *** The reconciliation of freshly extracted articles *)
Lemma process_pdf_identity strip_accents doc stem path lines norm_top norm_page :
  Forall (fun r =>
            Pdf2Articles.doc_id r
            = process_pdf_doc_id (match doc with t :: _ => t | [] => [] end) stem
            /\ title r
               = Pdf2Articles.article_number r ++ u ", "
                 ++ match doc with
                    | page0 :: _ =>
                      guess_doc_title_from_first_page lines norm_top page0 norm_page
                    | [] => TITRE_INCONNU
                    end)
         (process_pdf strip_accents doc stem path lines norm_top norm_page).
Proof.
  unfold process_pdf. rewrite load_eq. cbv beta iota zeta.
  apply Forall_map. apply Forall_forall. intros [[n a] b] _.
  unfold span_to_page_range.
  cbn [Pdf2Articles.doc_id title Pdf2Articles.article_number].
  split; reflexivity.
Qed.

Lemma collect_nodes path : forall recs,
  collect_arts path (map (node_of_record path) recs)
  = map (fun r => Art (Some (Pdf2Articles.doc_id r)) (Pdf2Articles.article_number r)) recs.
Proof.
  assert (E : str_eqb path path = true) by now apply str_eqb_eq.
  induction recs as [|r recs IH]; [reflexivity|].
  unfold collect_arts. cbn [map flat_map node_of_record node_pdf_path].
  rewrite E. cbn [app node_doc_id node_number]. f_equal. exact IH.
Qed.

(** Property X20.  For Article nodes that carry the article number, the
    document id and the title of the records that [process_pdf] extracts
    from a file, the reconciliation of that file finds on its first page
    the id and the title that the nodes carry, and its update leaves the
    nodes as they are. *)
Theorem reconcile_after_ingest (strip_accents : list N -> list N)
    (page0 : first_page) (pages : list first_page) (texts : list (list N))
    (stem path : list N) (arts : list art) :
  let recs := process_pdf strip_accents (page_text page0 :: texts) stem path
                (top_lines page0) (Reconciler.norm_top page0) (Reconciler.norm_page page0) in
  let nodes := map (node_of_record path) recs in
  Permutation arts (collect_arts path nodes) ->
  exists id ttl,
    target_identity (probe_pdf_first_page (Some (page0 :: pages))) arts stem
    = Some (id, ttl)
    /\ Forall (fun r => Pdf2Articles.doc_id r = id) recs
    /\ set_articles path id ttl arts nodes = nodes.
Proof.
  intros recs nodes P.
  pose proof (process_pdf_identity strip_accents (page_text page0 :: texts) stem path
                (top_lines page0) (Reconciler.norm_top page0) (Reconciler.norm_page page0))
    as F.
  fold recs in F. cbv beta iota in F.
  set (T := guess_doc_title_from_first_page (top_lines page0) (Reconciler.norm_top page0)
              (page_text page0) (Reconciler.norm_page page0)) in *.
  set (D := process_pdf_doc_id (page_text page0) stem) in *.
  unfold nodes in P. rewrite collect_nodes in P.
  assert (Fa : Forall (fun r => Reconciler.doc_id r = Some D) arts).
  { apply (permutation_forall _ _ _ P). apply Forall_forall. intros r Hr.
    apply in_map_iff in Hr. destruct Hr as (r0 & <- & Hr0).
    rewrite Forall_forall in F. destruct (F r0 Hr0) as [-> _]. reflexivity. }
  exists D, T. split; [|split].
  - rewrite target_identity_page. fold T. f_equal. f_equal.
    unfold D, process_pdf_doc_id.
    destruct (guess_doc_id_from_first_page (page_text page0)) as [d|] eqn:Ed.
    + apply guess_doc_id_nonempty in Ed. destruct d; [congruence|reflexivity].
    + fold D in Fa. rewrite (old_ids_same _ arts Fa).
      unfold D, process_pdf_doc_id. rewrite Ed.
      destruct stem as [|c stem]; [reflexivity|].
      destruct arts; reflexivity.
  - eapply Forall_impl; [|exact F]. cbv beta. intros r [E _]. exact E.
  - unfold nodes, set_articles. rewrite map_map.
    apply map_ext_in. intros r Hr. rewrite Forall_forall in F.
    destruct (F r Hr) as [Ed Et].
    cbn [node_of_record node_pdf_path node_number].
    assert (E : str_eqb path path = true) by now apply str_eqb_eq. rewrite E.
    assert (X : existsb (fun a => str_eqb (Reconciler.article_number a)
                                          (Pdf2Articles.article_number r)) arts = true).
    { apply existsb_exists.
      exists (Art (Some (Pdf2Articles.doc_id r)) (Pdf2Articles.article_number r)). split.
      - eapply Permutation_in; [apply Permutation_sym; exact P|].
        apply in_map_iff. exists r. auto.
      - cbn [Reconciler.article_number]. now apply str_eqb_eq. }
    rewrite X. cbn [andb]. unfold node_of_record. rewrite Ed, Et. reflexivity.
Qed.

Lemma reconcile_after_ingest_witness :
  exists id ttl,
    target_identity
      (probe_pdf_first_page (Some [Page (u "0.1.2 Loi") [] [] []]))
      (collect_arts (u "/a.pdf")
         (map (node_of_record (u "/a.pdf"))
            (process_pdf (fun s => s) [u "0.1.2 Loi"] (u "a") (u "/a.pdf") [] [] [])))
      (u "a")
    = Some (id, ttl).
Proof.
  destruct (reconcile_after_ingest (fun s => s) (Page (u "0.1.2 Loi") [] [] []) [] []
              (u "a") (u "/a.pdf") _ (Permutation_refl _)) as (id & ttl & H & _).
  exists id, ttl. exact H.
Defined.

(** *** A number of four digits *)
(** The first pattern on three digits and a fourth one: the numeral takes
    three digits and the tail the fourth. *)
Lemma arabic_fourth tm d x :
  (0 < tm)%Z -> (tm < MAXREPEAT)%Z ->
  List.length d = 3 -> Forall (fun c => is_ascii_digit c = true) d ->
  is_ascii_digit x = true ->
  exists m, re_match (arabic_re (Rep 1 (Some (Z.to_N tm)) is_decimal)) (d ++ [x]) = Some m
    /\ group_or_empty (d ++ [x]) m 1 = d /\ group_or_empty (d ++ [x]) m 2 = []
    /\ group (d ++ [x]) m 3 = Some [x].
Proof.
  intros Hp Hm Ld Fd Hx.
  assert (Fd' : Forall (fun c => is_decimal c = true) d).
  { eapply Forall_impl; [|exact Fd]. intros c Hc. apply (ascii_digit_facts c Hc). }
  destruct (ascii_digit_facts x Hx) as (Dx & _ & _ & _ & Lx).
  assert (F1 : first_run (Grp 1 (Rep 1 (Some 3%N) is_decimal)) (St 0 None (d ++ [x]) [])
                 (St (List.length d) (last_or d None) [x] [(1, (0, List.length d))])).
  { pose proof (first_run_grp 1 (Rep 1 (Some 3%N) is_decimal) (St 0 None (d ++ [x]) [])
                  (St (0 + List.length d) (last_or d None) [x] [])) as H.
    simpl in H. apply H. apply (first_run_rep is_decimal 1 (Some 3%N) 0 None [] d [x]).
    - exact Fd'.
    - lia.
    - intros h [= <-]. lia.
    - right. right. rewrite Ld. reflexivity. }
  assert (F2 : first_run (Opt (Grp 2 (Chr is_ascii_letter)))
                 (St (List.length d) (last_or d None) [x] [(1, (0, List.length d))])
                 (St (List.length d) (last_or d None) [x] [(1, (0, List.length d))])).
  { apply first_run_opt_skip. simpl. rewrite Lx. reflexivity. }
  assert (F3 : first_run (Opt (Grp 3 (Rep 1 (Some (Z.to_N tm)) is_decimal)))
                 (St (List.length d) (last_or d None) [x] [(1, (0, List.length d))])
                 (St (List.length d + 1) (Some x) []
                     [(3, (List.length d, List.length d + 1)); (1, (0, List.length d))])).
  { apply first_run_opt.
    pose proof (first_run_grp 3 (Rep 1 (Some (Z.to_N tm)) is_decimal)
                  (St (List.length d) (last_or d None) [x] [(1, (0, List.length d))])
                  (St (List.length d + 1) (Some x) [] [(1, (0, List.length d))])) as H.
    simpl in H. apply H.
    apply (first_run_rep is_decimal 1 (Some (Z.to_N tm)) (List.length d) (last_or d None)
             [(1, (0, List.length d))] [x] []).
    - constructor; [exact Dx|constructor].
    - simpl. lia.
    - intros h [= <-]. simpl. lia.
    - left. reflexivity. }
  assert (F : first_run (arabic_re (Rep 1 (Some (Z.to_N tm)) is_decimal))
                (St 0 None (d ++ [x]) [])
                (St (List.length d + 1) (Some x) []
                    [(3, (List.length d, List.length d + 1)); (1, (0, List.length d))])).
  { unfold arabic_re.
    eapply first_run_cat_cons; [apply first_run_caret|].
    eapply first_run_cat_cons; [exact F1|].
    eapply first_run_cat_cons; [exact F2|].
    eapply first_run_cat_cons; [exact F3|].
    eapply first_run_cat_cons; [apply first_run_dollar|apply first_run_cat_nil]. }
  apply first_run_match in F. eexists. split; [exact F|].
  unfold group_or_empty, group. simpl. split; [apply slice_prefix|]. split; [reflexivity|].
  f_equal. pose proof (slice_app_mid d [x] []) as Q. simpl in Q. exact Q.
Qed.

Lemma four_digits_all :
  forallb (fun n => let d := str_of_N (n / 10) in
                    let x := str_of_N (n mod 10) in
                    (List.length d =? 3) && forallb is_ascii_digit d
                    && match x with
                       | [c] => is_ascii_digit c
                       | _ => false
                       end
                    && str_eqb (str_of_N n) (d ++ x))
          (flat_map (fun a => map (fun b => (100 * N.of_nat a + N.of_nat b)%N) (seq 0 100))
                    (seq 10 90)) = true.
Proof. vm_compute. reflexivity. Qed.

Lemma four_digits n :
  (1000 <= n <= 9999)%N ->
  exists d x, str_of_N (n / 10) = d /\ str_of_N (n mod 10) = [x]
    /\ List.length d = 3 /\ Forall (fun c => is_ascii_digit c = true) d
    /\ is_ascii_digit x = true /\ str_of_N n = d ++ [x].
Proof.
  intros H. pose proof four_digits_all as A. rewrite forallb_forall in A.
  specialize (A n). cbv zeta in A.
  assert (I : In n (flat_map (fun a => map (fun b => (100 * N.of_nat a + N.of_nat b)%N)
                                           (seq 0 100)) (seq 10 90))).
  { apply in_flat_map. exists (N.to_nat (n / 100)). split.
    - apply in_seq. pose proof (N.Div0.div_lt_upper_bound n 100 100 ltac:(lia)).
      pose proof (N.div_le_lower_bound n 100 10 ltac:(lia) ltac:(lia)). lia.
    - apply in_map_iff. exists (N.to_nat (n mod 100)). split.
      + rewrite !N2Nat.id. symmetry. apply N.div_mod. lia.
      + apply in_seq. pose proof (N.mod_upper_bound n 100 ltac:(lia)) as U.
        remember (n mod 100)%N as k eqn:E. clear E. lia. }
  specialize (A I).
  apply andb_true_iff in A. destruct A as [A A4].
  apply andb_true_iff in A. destruct A as [A A3].
  apply andb_true_iff in A. destruct A as [A1 A2].
  destruct (str_of_N (n mod 10)) as [|x [|y t]]; try discriminate.
  exists (str_of_N (n / 10)), x.
  split; [reflexivity|]. split; [reflexivity|].
  split; [apply Nat.eqb_eq; exact A1|].
  split; [apply Forall_forall; rewrite forallb_forall in A2; exact A2|].
  split; [exact A3|].
  unfold str_eqb in A4. destruct (list_eq_dec _ _ _); [assumption|discriminate].
Qed.

(** Property X21.  The normaliser cuts a number of four digits: for an
    article number from 1000 to 9999 written in decimal after "Art. ", and
    a tail bound that [re] compiles, the number that is returned is the
    number of the first three digits and the fourth digit is returned as
    the footnote. *)
Theorem normalize_four_digits (n : N) (tail_max : Z) :
  (1000 <= n <= 9999)%N -> (1 <= tail_max)%Z -> (tail_max < MAXREPEAT)%Z ->
  normalize_article_number (u "Art. " ++ str_of_N n) tail_max
  = Some (u "Art. " ++ str_of_N (n / 10), Some (str_of_N (n mod 10))).
Proof.
  intros Hn Hp Hm. destruct (four_digits n Hn) as (d & x & Ed & Ex & Ld & Fd & Hx & En).
  rewrite En, Ed, Ex.
  assert (Fa : Forall (fun c => is_ascii_digit c = true) (d ++ [x])).
  { apply Forall_app. split; [exact Fd|repeat constructor; exact Hx]. }
  assert (T : tidy (d ++ [x]) = true).
  { apply nospace_tidy. apply forallb_forall. intros c Hc.
    rewrite Forall_forall in Fa. destruct (ascii_digit_facts c (Fa c Hc)) as (_ & S & _).
    rewrite S. reflexivity. }
  assert (S : sup_free (d ++ [x])).
  { eapply Forall_impl; [|exact Fa]. intros c Hc. apply (ascii_digit_facts c Hc). }
  rewrite (second_pass (d ++ [x]) tail_max T S). unfold normalize_rest.
  assert (R : remove_char 32 (d ++ [x]) = d ++ [x]).
  { apply remove_char_id. eapply Forall_impl; [|exact Fa].
    intros c Hc. apply (ascii_digit_facts c Hc). }
  rewrite R.
  assert (B : tail_body tail_max = Some (Rep 1 (Some (Z.to_N tail_max)) is_decimal)).
  { unfold tail_body.
    assert (Q1 : (tail_max =? 0)%Z = false) by (apply Z.eqb_neq; lia).
    assert (Q2 : (MAXREPEAT <=? tail_max)%Z = false) by (apply Z.leb_gt; lia).
    assert (Q3 : (0 <? tail_max)%Z = true) by (apply Z.ltb_lt; lia).
    rewrite Q1, Q2, Q3. reflexivity. }
  rewrite B.
  destruct (arabic_fourth tail_max d x ltac:(lia) Hm Ld Fd Hx) as (m & Em & G1 & G2 & G3).
  rewrite Em, G1, G2, G3. cbn [map]. rewrite app_nil_r.
  assert (Q : (n / 10 < 1000)%N).
  { apply N.Div0.div_lt_upper_bound. lia. }
  destruct (str_of_N_small (n / 10) Q) as (_ & _ & I). rewrite Ed in I. rewrite I, Ed.
  reflexivity.
Qed.

(** The number "Art. 1186" with a tail of at most two digits. *)
Lemma normalize_four_digits_witness :
  normalize_article_number (u "Art. " ++ str_of_N 1186) 2
  = Some (u "Art. " ++ str_of_N (1186 / 10), Some (str_of_N (1186 mod 10))).
Proof.
  apply (normalize_four_digits 1186 2); [split; discriminate|discriminate|reflexivity].
Defined.

(** *** A second run over every group *)
Lemma main_loop_fold files stem_of : forall gs articles total fixed skipped,
  fst (Reconciler.main_loop true files stem_of gs articles total fixed skipped)
  = fold_left (commit_group files stem_of) gs articles.
Proof.
  induction gs as [|g gs IH]; intros articles total fixed skipped; [reflexivity|].
  cbn [Reconciler.main_loop fold_left]. unfold commit_group at 2, identity_of.
  destruct (target_identity _ _ _) as [[id ttl]|]; apply IH.
Qed.

Lemma set_shape p id ttl arts articles :
  shape (set_articles p id ttl arts articles) = shape articles.
Proof.
  unfold shape, set_articles. rewrite map_map. apply map_ext. intros a.
  destruct (match node_pdf_path a with Some _ => _ | None => _ end); reflexivity.
Qed.

Lemma commit_shape files stem_of articles g :
  shape (commit_group files stem_of articles g) = shape articles.
Proof.
  unfold commit_group. destruct (identity_of files stem_of g) as [[id ttl]|];
    [apply set_shape|reflexivity].
Qed.

Lemma collect_shape p : forall A B,
  shape A = shape B ->
  map Reconciler.article_number (collect_arts p A)
  = map Reconciler.article_number (collect_arts p B).
Proof.
  induction A as [|a A IH]; intros [|b B] H; try discriminate; [reflexivity|].
  cbn [shape map] in H. injection H as Hp Hn H.
  unfold collect_arts. cbn [flat_map]. fold (collect_arts p A). fold (collect_arts p B).
  rewrite !map_app. rewrite (IH B H). f_equal. rewrite Hp.
  destruct (node_pdf_path b) as [q|]; [|reflexivity].
  destruct (str_eqb q p); [|reflexivity]. cbn [map Reconciler.article_number].
  rewrite Hn. reflexivity.
Qed.

Lemma reached_shape p arts : forall A B,
  shape A = shape B ->
  Forall (fun a => node_pdf_path a = Some p -> reached p arts a = true) A ->
  Forall (fun a => node_pdf_path a = Some p -> reached p arts a = true) B.
Proof.
  induction A as [|a A IH]; intros [|b B] H F; try discriminate; constructor.
  - cbn [shape map] in H. injection H as Hp Hn H. inversion F as [|? ? Fa F']; subst.
    intros Eb. unfold reached in *. rewrite <- Hp, <- Hn. rewrite <- Hp in Eb.
    apply (Fa Eb).
  - cbn [shape map] in H. injection H as Hp Hn H. inversion F; subst. apply (IH B H). assumption.
Qed.

Lemma reached_of_collect p arts articles :
  Permutation arts (collect_arts p articles) ->
  Forall (fun a => node_pdf_path a = Some p -> reached p arts a = true) articles.
Proof.
  intros P. apply Forall_forall. intros a Ha Ep.
  rewrite (reached_covered p arts articles a); [|  |exact Ha].
  - rewrite Ep. now apply str_eqb_eq.
  - intros r Hr. eapply Permutation_in; [apply Permutation_sym; exact P|exact Hr].
Qed.

Lemma set_settles p id ttl arts articles :
  Forall (fun a => node_pdf_path a = Some p -> reached p arts a = true) articles ->
  settled p id ttl (set_articles p id ttl arts articles).
Proof.
  intros F. unfold settled, set_articles. apply Forall_map.
  eapply Forall_impl; [|exact F]. cbv beta. intros a Ha.
  fold (reached p arts a). destruct (reached p arts a) eqn:R.
  - cbn [node_pdf_path node_doc_id node_title node_number]. intros _. split; reflexivity.
  - intros Ep. discriminate (Ha Ep).
Qed.

Lemma set_keeps_settled p id ttl arts q id' ttl' articles :
  q <> p -> settled q id' ttl' articles ->
  settled q id' ttl' (set_articles p id ttl arts articles).
Proof.
  intros Hq F. unfold settled, set_articles. apply Forall_map.
  eapply Forall_impl; [|exact F]. cbv beta. intros a Ha.
  fold (reached p arts a). destruct (reached p arts a) eqn:R; [|exact Ha].
  cbn [node_pdf_path node_doc_id node_title node_number]. intros Eq.
  unfold reached in R. rewrite Eq in R.
  apply andb_true_iff in R. destruct R as [R _]. apply str_eqb_eq in R. congruence.
Qed.

Lemma set_noop p id ttl arts articles :
  settled p id ttl articles -> set_articles p id ttl arts articles = articles.
Proof.
  intros F. unfold set_articles. rewrite <- (map_id articles) at 2.
  apply map_ext_in. intros a Ha. unfold settled in F. rewrite Forall_forall in F.
  fold (reached p arts a). destruct (reached p arts a) eqn:R; [|reflexivity].
  unfold reached in R. destruct (node_pdf_path a) as [q|] eqn:Eq; [|discriminate].
  apply andb_true_iff in R. destruct R as [R _]. apply str_eqb_eq in R. subst q.
  destruct (F a Ha Eq) as [Ed Et]. destruct a as [pp nn dd tt]. cbn in *. congruence.
Qed.

Lemma collect_settled p id ttl articles :
  settled p id ttl articles ->
  Forall (fun r => Reconciler.doc_id r = Some id) (collect_arts p articles).
Proof.
  intros F. apply Forall_forall. intros r Hr. unfold collect_arts in Hr.
  apply in_flat_map in Hr. destruct Hr as (a & Ha & Hr).
  destruct (node_pdf_path a) as [q|] eqn:Eq; [|destruct Hr].
  destruct (str_eqb q p) eqn:E; [|destruct Hr]. destruct Hr as [<-|[]].
  apply str_eqb_eq in E. subst q. unfold settled in F. rewrite Forall_forall in F.
  apply (F a Ha Eq).
Qed.

Lemma identity_again probe arts arts' stem id ttl :
  target_identity probe arts stem = Some (id, ttl) ->
  Forall (fun r => Reconciler.doc_id r = Some id) arts' ->
  (arts' = [] -> arts = []) ->
  target_identity probe arts' stem = Some (id, ttl).
Proof.
  intros T F E. unfold target_identity in *. destruct probe as [new_doc_id doc_title].
  destruct (negb (truthy new_doc_id) && negb (truthy doc_title)); [discriminate|].
  injection T as T1 T2. rewrite T2. f_equal. f_equal.
  destruct new_doc_id as [[|c d]|]; [|exact T1|];
    apply (fallback_same id stem arts arts' T1 F E).
Qed.

Lemma fold_shape files stem_of : forall gs articles,
  shape (fold_left (commit_group files stem_of) gs articles) = shape articles.
Proof.
  induction gs as [|g gs IH]; intros articles; [reflexivity|].
  cbn [fold_left]. rewrite IH. apply commit_shape.
Qed.

Lemma fold_keeps_settled files stem_of q id ttl : forall gs articles,
  ~ In q (map group_pdf_path gs) -> settled q id ttl articles ->
  settled q id ttl (fold_left (commit_group files stem_of) gs articles).
Proof.
  induction gs as [|g gs IH]; intros articles Hq F; [exact F|].
  cbn [fold_left]. apply IH; [intros Q; apply Hq; now right|].
  unfold commit_group. destruct (identity_of files stem_of g) as [[id' ttl']|]; [|exact F].
  apply set_keeps_settled; [|exact F]. intros ->. apply Hq. now left.
Qed.

Lemma fold_settles files stem_of : forall gs articles,
  NoDup (map group_pdf_path gs) ->
  Forall (fun g => Forall (fun a => node_pdf_path a = Some (group_pdf_path g) ->
                                    reached (group_pdf_path g) (group_arts g) a = true)
                          articles) gs ->
  Forall (fun g => match identity_of files stem_of g with
                   | Some (id, ttl) =>
                     settled (group_pdf_path g) id ttl
                             (fold_left (commit_group files stem_of) gs articles)
                   | None => True
                   end) gs.
Proof.
  induction gs as [|g gs IH]; intros articles ND C; [constructor|].
  cbn [map] in ND. inversion ND as [|? ? Hg ND']; subst.
  inversion C as [|? ? Cg C']; subst. cbn [fold_left]. constructor.
  - destruct (identity_of files stem_of g) as [[id ttl]|] eqn:E; [|exact I].
    apply fold_keeps_settled; [exact Hg|].
    unfold commit_group. rewrite E. apply set_settles. exact Cg.
  - apply IH; [exact ND'|].
    eapply Forall_impl; [|exact C']. cbv beta. intros g' Hg'.
    apply (reached_shape _ _ articles); [|exact Hg'].
    symmetry. apply commit_shape.
Qed.

Lemma second_fold files stem_of articles0 articles : forall gs gs',
  shape articles = shape articles0 ->
  Forall (fun g => Permutation (group_arts g)
                               (collect_arts (group_pdf_path g) articles0)) gs ->
  Forall (fun g => match identity_of files stem_of g with
                   | Some (id, ttl) => settled (group_pdf_path g) id ttl articles
                   | None => True
                   end) gs ->
  Forall2 (fun g g' => group_pdf_path g' = group_pdf_path g
                       /\ Permutation (group_arts g')
                                      (collect_arts (group_pdf_path g) articles)) gs gs' ->
  fold_left (commit_group files stem_of) gs' articles = articles.
Proof.
  intros gs gs' Hs P0 St F2. revert P0 St.
  induction F2 as [|g g' gs gs' (Ep & P1) F2 IH]; intros P0 St; [reflexivity|].
  inversion P0 as [|? ? Pg P0']; subst. inversion St as [|? ? Sg St']; subst.
  cbn [fold_left].
  assert (E : commit_group files stem_of articles g' = articles).
  { unfold commit_group, identity_of in *. rewrite Ep.
    destruct (target_identity (probe_pdf_first_page (files (group_pdf_path g)))
                (group_arts g) (stem_of (group_pdf_path g))) as [[id ttl]|] eqn:T.
    - assert (T' : target_identity (probe_pdf_first_page (files (group_pdf_path g)))
                     (group_arts g') (stem_of (group_pdf_path g)) = Some (id, ttl)).
      { apply (identity_again _ (group_arts g)); [exact T| |].
        - apply (permutation_forall _ _ _ P1). apply (collect_settled _ _ ttl). exact Sg.
        - intros E'. rewrite E' in P1. apply Permutation_nil in P1.
          pose proof (collect_shape (group_pdf_path g) _ _ Hs) as Q.
          rewrite P1 in Q. cbn [map] in Q. symmetry in Q. apply map_eq_nil in Q.
          rewrite Q in Pg. apply Permutation_sym in Pg. now apply Permutation_nil. }
      rewrite T'. apply set_noop. exact Sg.
    - apply target_identity_none in T.
      apply (target_identity_none _ (group_arts g') (stem_of (group_pdf_path g))) in T.
      rewrite T. reflexivity. }
  rewrite E. apply IH; assumption.
Qed.

Lemma limited_firstn limit gs :
  limited limit gs = firstn (limit_count limit (List.length gs)) gs.
Proof.
  unfold limited, limit_count. destruct limit as [k|]; [|symmetry; apply firstn_all].
  destruct (k =? 0)%Z; [symmetry; apply firstn_all|].
  destruct (0 <? k)%Z; reflexivity.
Qed.

Lemma Forall2_firstn {A B} (R : A -> B -> Prop) : forall k l l',
  Forall2 R l l' -> Forall2 R (firstn k l) (firstn k l').
Proof.
  induction k as [|k IH]; intros l l' F; [constructor|].
  destruct F; simpl; constructor; auto.
Qed.

Lemma Forall_firstn_keep {A} (P : A -> Prop) : forall k l,
  Forall P l -> Forall P (firstn k l).
Proof.
  induction k as [|k IH]; intros l F; [constructor|].
  destruct F; simpl; constructor; auto.
Qed.

Lemma NoDup_firstn_keep {A} : forall k (l : list A), NoDup l -> NoDup (firstn k l).
Proof.
  induction k as [|k IH]; intros l ND; [constructor|].
  destruct ND as [|x l Hx ND]; simpl; constructor; auto.
  intros Q. apply Hx. rewrite <- (firstn_skipn k l). apply in_or_app. now left.
Qed.

(** Property X22.  A second run of [main] that commits, with the same limit,
    over the groups that the query returns after a first run (the same
    files in the same order, with the Article nodes that the first run
    left), leaves the Article nodes as the first run left them and reports
    the counters of the first run. *)
Theorem reconciler_main_twice (limit : option Z)
    (files : list N -> option (list first_page)) (stem_of : list N -> list N)
    (groups groups' : list pdf_group) (articles : list article_node) :
  NoDup (map group_pdf_path groups) ->
  Forall (fun g => Permutation (group_arts g)
                               (collect_arts (group_pdf_path g) articles)) groups ->
  Forall2 (fun g g' =>
             group_pdf_path g' = group_pdf_path g
             /\ Permutation (group_arts g')
                  (collect_arts (group_pdf_path g)
                     (fst (Reconciler.main true limit files stem_of groups articles))))
          groups groups' ->
  Reconciler.main true limit files stem_of groups'
    (fst (Reconciler.main true limit files stem_of groups articles))
  = Reconciler.main true limit files stem_of groups articles.
Proof.
  intros ND P0 F2. unfold Reconciler.main in *.
  rewrite main_loop_fold in *.
  set (gs := limited limit groups) in *.
  set (A1 := fold_left (commit_group files stem_of) gs articles) in *.
  assert (L : List.length groups' = List.length groups)
    by (symmetry; apply (Forall2_length F2)).
  assert (F2' : Forall2 (fun g g' =>
                  group_pdf_path g' = group_pdf_path g
                  /\ Permutation (group_arts g') (collect_arts (group_pdf_path g) A1))
                  gs (limited limit groups')).
  { unfold gs. rewrite !limited_firstn, L. apply Forall2_firstn. exact F2. }
  assert (P0' : Forall (fun g => Permutation (group_arts g)
                                   (collect_arts (group_pdf_path g) articles)) gs).
  { unfold gs. rewrite limited_firstn. apply Forall_firstn_keep. exact P0. }
  assert (ND' : NoDup (map group_pdf_path gs)).
  { unfold gs. rewrite limited_firstn, <- firstn_map. apply NoDup_firstn_keep. exact ND. }
  assert (St : Forall (fun g => match identity_of files stem_of g with
                                | Some (id, ttl) => settled (group_pdf_path g) id ttl A1
                                | None => True
                                end) gs).
  { apply fold_settles; [exact ND'|].
    eapply Forall_impl; [|exact P0']. cbv beta. intros g Pg.
    apply reached_of_collect. exact Pg. }
  pose proof (second_fold files stem_of articles A1 gs (limited limit groups')
                (fold_shape files stem_of gs articles) P0' St F2') as E.
  destruct (reconciler_loop_counts true files stem_of (limited limit groups') A1 0 0 0)
    as [C' _].
  destruct (reconciler_loop_counts true files stem_of gs articles 0 0 0) as [C _].
  rewrite (surjective_pairing (Reconciler.main_loop true files stem_of
                                 (limited limit groups') A1 0 0 0)).
  rewrite (surjective_pairing (Reconciler.main_loop true files stem_of gs articles 0 0 0)).
  rewrite main_loop_fold, E, C', C. rewrite main_loop_fold. fold A1.
  apply f_equal2; [reflexivity|].
  assert (Q : forall p, List.length (filter (fun g => p (files (group_pdf_path g)))
                                            (limited limit groups'))
                        = List.length (filter (fun g => p (files (group_pdf_path g))) gs)).
  { intros p. clear - F2'. induction F2' as [|g g' l l' (Ep & _) F IH]; [reflexivity|].
    cbn [filter]. rewrite Ep. destruct (p _); cbn [List.length]; rewrite IH; reflexivity. }
  rewrite (Q no_first_page).
  rewrite (Q (fun f => negb (no_first_page f))).
  rewrite (Forall2_length F2'). reflexivity.
Qed.

(** Two runs over one file with two Article nodes. *)
Lemma reconciler_main_twice_witness :
  Reconciler.main true None (fun _ => Some [Page (u "0.1.2 Loi") [] [] []]) (fun p => p)
    [PdfGroup (u "a.pdf")
       (collect_arts (u "a.pdf")
          (fst (Reconciler.main true None
                  (fun _ => Some [Page (u "0.1.2 Loi") [] [] []]) (fun p => p)
                  [PdfGroup (u "a.pdf") [Art None (u "Art. 1")]]
                  [ArticleNode (Some (u "a.pdf")) (u "Art. 1") None None])))]
    (fst (Reconciler.main true None
            (fun _ => Some [Page (u "0.1.2 Loi") [] [] []]) (fun p => p)
            [PdfGroup (u "a.pdf") [Art None (u "Art. 1")]]
            [ArticleNode (Some (u "a.pdf")) (u "Art. 1") None None]))
  = Reconciler.main true None (fun _ => Some [Page (u "0.1.2 Loi") [] [] []]) (fun p => p)
      [PdfGroup (u "a.pdf") [Art None (u "Art. 1")]]
      [ArticleNode (Some (u "a.pdf")) (u "Art. 1") None None].
Proof.
  apply (reconciler_main_twice None (fun _ => Some [Page (u "0.1.2 Loi") [] [] []])
           (fun p => p)
           [PdfGroup (u "a.pdf") [Art None (u "Art. 1")]]).
  - repeat constructor. simpl. intuition.
  - repeat constructor.
  - repeat constructor.
Defined.

(** *** Numbers with a fused footnote *)
Lemma digit_like_facts c :
  digit_like c = true -> is_space c = false /\ c <> 32%N.
Proof.
  unfold digit_like. intros H. destruct (ascii_digit_facts _ H) as (_ & S & _).
  destruct (sup_space c) as [E _]. rewrite E in S. split; [exact S|].
  intros ->. vm_compute in S. discriminate.
Qed.

Lemma translate_digits t :
  Forall (fun c => digit_like c = true) t ->
  Forall (fun c => is_ascii_digit c = true) (translate t).
Proof. intros F. unfold translate. apply Forall_map. exact F. Qed.

Lemma ascii_digit_like c : is_ascii_digit c = true -> digit_like c = true.
Proof.
  intros H. unfold digit_like. destruct (ascii_digit_facts c H) as (_ & _ & E & _).
  rewrite E. exact H.
Qed.

(** The first pattern with a footnote after a numeral that cannot take
    the first digit of the footnote. *)
Lemma arabic_tail_fwd tm d l t :
  (0 < tm)%Z -> (tm < MAXREPEAT)%Z ->
  1 <= List.length d <= 3 -> Forall (fun c => is_ascii_digit c = true) d ->
  (l = [] \/ exists x, l = [x] /\ is_ascii_letter x = true) ->
  t <> [] -> Forall (fun c => is_ascii_digit c = true) t ->
  (Z.of_nat (List.length t) <= tm)%Z ->
  (l <> [] \/ List.length d = 3) ->
  exists m, re_match (arabic_re (Rep 1 (Some (Z.to_N tm)) is_decimal)) (d ++ l ++ t) = Some m
    /\ group_or_empty (d ++ l ++ t) m 1 = d /\ group_or_empty (d ++ l ++ t) m 2 = l
    /\ group (d ++ l ++ t) m 3 = Some t.
Proof.
  intros Hp Hm Ld Fd Hl Nt Ft Lt Hb.
  assert (Fd' : Forall (fun c => is_decimal c = true) d).
  { eapply Forall_impl; [|exact Fd]. intros c Hc. apply (ascii_digit_facts c Hc). }
  assert (Ft' : Forall (fun c => is_decimal c = true) t).
  { eapply Forall_impl; [|exact Ft]. intros c Hc. apply (ascii_digit_facts c Hc). }
  destruct t as [|y t']; [congruence|]. clear Nt.
  assert (Ly : is_ascii_letter y = false).
  { inversion Ft; subst. apply (ascii_digit_facts y). assumption. }
  assert (F1 : first_run (Grp 1 (Rep 1 (Some 3%N) is_decimal))
                 (St 0 None (d ++ l ++ y :: t') [])
                 (St (List.length d) (last_or d None) (l ++ y :: t')
                     [(1, (0, List.length d))])).
  { pose proof (first_run_grp 1 (Rep 1 (Some 3%N) is_decimal)
                  (St 0 None (d ++ l ++ y :: t') [])
                  (St (0 + List.length d) (last_or d None) (l ++ y :: t') [])) as H.
    simpl in H. apply H.
    apply (first_run_rep is_decimal 1 (Some 3%N) 0 None [] d (l ++ y :: t')).
    - exact Fd'.
    - lia.
    - intros h [= <-]. lia.
    - destruct Hl as [->|(x & -> & X)].
      + right. right. destruct Hb as [Hb|Hb]; [congruence|]. rewrite Hb. reflexivity.
      + right. left. exists x, (y :: t'). split; [reflexivity|].
        apply (ascii_letter_facts x X). }
  set (c1 := [(1, (0, List.length d))]) in *.
  assert (F2 : exists pv c2,
             first_run (Opt (Grp 2 (Chr is_ascii_letter)))
               (St (List.length d) (last_or d None) (l ++ y :: t') c1)
               (St (List.length d + List.length l) pv (y :: t') (c2 ++ c1))
             /\ match l with
                | [] => c2 = []
                | _ :: _ => c2 = [(2, (List.length d, List.length d + List.length l))]
                end).
  { destruct Hl as [->|(x & -> & X)].
    - exists (last_or d None), []. split; [|reflexivity].
      rewrite Nat.add_0_r. apply first_run_opt_skip. simpl. rewrite Ly. reflexivity.
    - exists (Some x), [(2, (List.length d, List.length d + 1))]. split; [|reflexivity].
      apply first_run_opt.
      pose proof (first_run_grp 2 (Chr is_ascii_letter)
                    (St (List.length d) (last_or d None) ([x] ++ y :: t') c1)
                    (St (S (List.length d)) (Some x) (y :: t') c1)) as H.
      cbn [pos prev rest caps app List.length] in H |- *.
      replace (List.length d + 1) with (S (List.length d)) by lia.
      apply H. apply first_run_chr. exact X. }
  destruct F2 as (pv & c2 & F2 & Ec2).
  set (k := List.length d + List.length l) in *.
  assert (F3 : first_run (Opt (Grp 3 (Rep 1 (Some (Z.to_N tm)) is_decimal)))
                 (St k pv (y :: t') (c2 ++ c1))
                 (St (k + List.length (y :: t')) (last_or (y :: t') pv) []
                     ((3, (k, k + List.length (y :: t'))) :: c2 ++ c1))).
  { apply first_run_opt.
    pose proof (first_run_grp 3 (Rep 1 (Some (Z.to_N tm)) is_decimal)
                  (St k pv (y :: t') (c2 ++ c1))
                  (St (k + List.length (y :: t')) (last_or (y :: t') pv) [] (c2 ++ c1))) as H.
    cbn [pos prev rest caps] in H. apply H.
    rewrite <- (app_nil_r (y :: t')) at 1.
    apply (first_run_rep is_decimal 1 (Some (Z.to_N tm)) k pv (c2 ++ c1) (y :: t') []).
    - exact Ft'.
    - simpl. lia.
    - intros h [= <-]. lia.
    - left. reflexivity. }
  assert (F : first_run (arabic_re (Rep 1 (Some (Z.to_N tm)) is_decimal))
                (St 0 None (d ++ l ++ y :: t') [])
                (St (k + List.length (y :: t')) (last_or (y :: t') pv) []
                    ((3, (k, k + List.length (y :: t'))) :: c2 ++ c1))).
  { unfold arabic_re.
    eapply first_run_cat_cons; [apply first_run_caret|].
    eapply first_run_cat_cons; [exact F1|].
    eapply first_run_cat_cons; [exact F2|].
    eapply first_run_cat_cons; [exact F3|].
    eapply first_run_cat_cons; [apply first_run_dollar|apply first_run_cat_nil]. }
  apply first_run_match in F. eexists. split; [exact F|].
  unfold group_or_empty, group. cbn [m_caps caps cap_lookup Nat.eqb].
  assert (G3 : slice (d ++ l ++ y :: t') k (k + List.length (y :: t')) = y :: t').
  { pose proof (slice_app_mid (d ++ l) (y :: t') []) as Q.
    rewrite app_nil_r, <- app_assoc, length_app in Q. exact Q. }
  rewrite G3. split; [|split; [|reflexivity]].
  - destruct l as [|x l']; subst c2 c1; cbn [app cap_lookup Nat.eqb].
    + apply (slice_prefix d (y :: t')).
    + apply (slice_prefix d ((x :: l') ++ y :: t')).
  - destruct l as [|x l']; subst c2 c1; cbn [app cap_lookup Nat.eqb]; [reflexivity|].
    pose proof (slice_app_mid d (x :: l') (y :: t')) as Q. exact Q.
Qed.

Lemma tail_body_positive tm :
  (1 <= tm)%Z -> (tm < MAXREPEAT)%Z ->
  tail_body tm = Some (Rep 1 (Some (Z.to_N tm)) is_decimal).
Proof.
  intros Hp Hm. unfold tail_body.
  assert (Q1 : (tm =? 0)%Z = false) by (apply Z.eqb_neq; lia).
  assert (Q2 : (MAXREPEAT <=? tm)%Z = false) by (apply Z.leb_gt; lia).
  assert (Q3 : (0 <? tm)%Z = true) by (apply Z.ltb_lt; lia).
  rewrite Q1, Q2, Q3. reflexivity.
Qed.

(** The rest of a number made of a numeral, an optional letter and a
    tail of digits that the numeral cannot take. *)
Lemma normalize_rest_fused tm d l t :
  (1 <= tm)%Z -> (tm < MAXREPEAT)%Z ->
  1 <= List.length d <= 3 -> Forall (fun c => is_ascii_digit c = true) d ->
  (l = [] \/ exists x, l = [x] /\ is_ascii_letter x = true) ->
  Forall (fun c => is_ascii_digit c = true) t ->
  (Z.of_nat (List.length t) <= tm)%Z ->
  (t = [] \/ l <> [] \/ List.length d = 3) ->
  normalize_rest (u "Art.") (d ++ l ++ t) tm
  = Some (u "Art. " ++ str_of_N (int_of_digits d) ++ map ascii_lower l, footnote_of t).
Proof.
  intros Hp Hm Ld Fd Hl Ft Lt Hb.
  pose proof (tail_body_positive tm Hp Hm) as B.
  assert (Fl : Forall (fun c => c <> 32%N) l).
  { destruct Hl as [->|(x & -> & X)]; constructor; [|constructor].
    apply (ascii_letter_facts x X). }
  assert (R : remove_char 32 (d ++ l ++ t) = d ++ l ++ t).
  { apply remove_char_id. apply Forall_app. split; [|apply Forall_app; split].
    - eapply Forall_impl; [|exact Fd]. intros c Hc. apply (ascii_digit_facts c Hc).
    - exact Fl.
    - eapply Forall_impl; [|exact Ft]. intros c Hc. apply (ascii_digit_facts c Hc). }
  unfold normalize_rest. rewrite R, B.
  change (u "Art. " ++ str_of_N (int_of_digits d) ++ map ascii_lower l)
    with (u "Art." ++ u " " ++ str_of_N (int_of_digits d) ++ map ascii_lower l).
  destruct t as [|y t'].
  - rewrite !app_nil_r.
    assert (Fd' : Forall (fun c => is_decimal c = true) d).
    { eapply Forall_impl; [|exact Fd]. intros c Hc. apply (ascii_digit_facts c Hc). }
    destruct (arabic_fwd tm _ d l B Ld Fd' Hl) as (m & Em & G1 & G2 & G3).
    rewrite Em, G1, G2, G3. reflexivity.
  - destruct (arabic_tail_fwd tm d l (y :: t') ltac:(lia) Hm Ld Fd Hl ltac:(discriminate)
                Ft Lt) as (m & Em & G1 & G2 & G3).
    { destruct Hb as [Hb|Hb]; [discriminate|exact Hb]. }
    rewrite Em, G1, G2, G3. reflexivity.
Qed.

Lemma translate_art B : translate (u "Art. " ++ B) = u "Art. " ++ translate B.
Proof. unfold translate. rewrite map_app. reflexivity. Qed.

(** The normaliser on "Art. " and a body without whitespace. *)
Lemma normalize_art_body B tm :
  B <> [] -> Forall (fun c => is_space c = false) B ->
  normalize_article_number (u "Art. " ++ B) tm = normalize_rest (u "Art.") (translate B) tm.
Proof.
  intros NB FB.
  assert (T : tidy B = true).
  { apply nospace_tidy. apply forallb_forall. intros c Hc.
    rewrite Forall_forall in FB. rewrite (FB c Hc). reflexivity. }
  assert (T' : tidy (translate B) = true) by (rewrite translate_tidy; exact T).
  pose proof (tidy_art B T NB) as Traw.
  rewrite <- (second_pass (translate B) tm T' (sup_free_translate B)).
  rewrite !normalize_unfold by discriminate.
  assert (E : preprocess (u "Art. " ++ B) = u "Art. " ++ translate B).
  { unfold preprocess. rewrite (tidy_strip _ Traw), re_sub_ws, (tidy_collapse _ Traw).
    apply translate_art. }
  assert (E' : preprocess (u "Art. " ++ translate B) = u "Art. " ++ translate B).
  { apply preprocess_id.
    - apply tidy_art; [exact T'|]. unfold translate. destruct B; [congruence|discriminate].
    - rewrite <- translate_art. apply sup_free_translate. }
  rewrite E, E'. reflexivity.
Qed.

Lemma translate_ascii_digits d :
  Forall (fun c => is_ascii_digit c = true) d -> translate d = d.
Proof.
  intros F. apply sup_free_id. eapply Forall_impl; [|exact F].
  intros c Hc. apply (ascii_digit_facts c Hc).
Qed.

(** Property X23.  A run of ASCII or superscript digits after "Art. ", not
    longer than three digits and the tail bound: the number is made of the
    first three digits (read as an integer, so without leading zeros) and
    the footnote of the digits that are left, if any.  A superscript
    footnote after a numeral of one or two digits is thus taken into the
    number. *)
Theorem normalize_digit_run (digits : list N) (tail_max : Z) :
  (1 <= tail_max)%Z -> (tail_max < MAXREPEAT)%Z ->
  digits <> [] -> Forall (fun c => digit_like c = true) digits ->
  (Z.of_nat (List.length digits) <= 3 + tail_max)%Z ->
  normalize_article_number (u "Art. " ++ digits) tail_max
  = Some (u "Art. " ++ str_of_N (int_of_digits (firstn 3 (translate digits))),
          footnote_of (skipn 3 (translate digits))).
Proof.
  intros Hp Hm ND FD LD.
  rewrite normalize_art_body;
    [|exact ND|eapply Forall_impl; [|exact FD]; intros c Hc; apply (digit_like_facts c Hc)].
  pose proof (translate_digits digits FD) as FT.
  assert (LT : List.length (translate digits) = List.length digits)
    by (unfold translate; apply length_map).
  set (D := translate digits) in *.
  assert (Q : normalize_rest (u "Art.") (firstn 3 D ++ [] ++ skipn 3 D) tail_max
              = Some (u "Art. " ++ str_of_N (int_of_digits (firstn 3 D)) ++ map ascii_lower [],
                      footnote_of (skipn 3 D))).
  { apply normalize_rest_fused; try assumption.
    - rewrite length_firstn, LT.
      assert (1 <= List.length digits) by (destruct digits; [congruence|simpl; lia]). lia.
    - apply Forall_firstn_keep. exact FT.
    - left. reflexivity.
    - rewrite <- (firstn_skipn 3 D) in FT. apply Forall_app in FT. apply FT.
    - rewrite length_skipn, LT. lia.
    - destruct (Nat.le_gt_cases (List.length D) 3) as [L|L].
      + left. apply skipn_all2. exact L.
      + right. right. rewrite length_firstn. lia. }
  cbn [app map] in Q. rewrite app_nil_r, firstn_skipn in Q. exact Q.
Qed.

(** The number "Art. 5" followed by a superscript three. *)
Lemma normalize_digit_run_witness :
  normalize_article_number (u "Art. " ++ u "5³") 2
  = Some (u "Art. " ++ str_of_N (int_of_digits (firstn 3 (translate (u "5³")))),
          footnote_of (skipn 3 (translate (u "5³")))).
Proof.
  apply (normalize_digit_run (u "5³") 2);
    [discriminate|reflexivity|discriminate|repeat constructor|vm_compute; discriminate].
Defined.

(** Property X24.  A numeral of one to three ASCII digits, an ASCII letter
    and a footnote of ASCII or superscript digits not longer than the tail
    bound: the number is the integer of the numeral followed by the letter
    in lower case, and the footnote is made of the ASCII digits of the
    tail, or is absent when the tail is empty. *)
Theorem normalize_letter_footnote (d : list N) (x : N) (t : list N) (tail_max : Z) :
  (1 <= tail_max)%Z -> (tail_max < MAXREPEAT)%Z ->
  1 <= List.length d <= 3 -> Forall (fun c => is_ascii_digit c = true) d ->
  is_ascii_letter x = true ->
  Forall (fun c => digit_like c = true) t ->
  (Z.of_nat (List.length t) <= tail_max)%Z ->
  normalize_article_number (u "Art. " ++ d ++ [x] ++ t) tail_max
  = Some (u "Art. " ++ str_of_N (int_of_digits d) ++ [ascii_lower x],
          footnote_of (translate t)).
Proof.
  intros Hp Hm Ld Fd Hx Ft Lt.
  destruct (ascii_letter_facts x Hx) as (_ & Sx & Mx & _).
  rewrite normalize_art_body.
  - unfold translate. rewrite !map_app. fold (translate d). fold (translate t).
    rewrite (translate_ascii_digits d Fd). cbn [map]. rewrite Mx.
    apply (normalize_rest_fused tail_max d [x] (translate t)); try assumption.
    + right. exists x. auto.
    + apply translate_digits. exact Ft.
    + unfold translate. rewrite length_map. exact Lt.
    + right. left. discriminate.
  - destruct d; discriminate.
  - apply Forall_app. split; [|apply Forall_app; split].
    + eapply Forall_impl; [|exact Fd]. intros c Hc. apply (ascii_digit_facts c Hc).
    + repeat constructor. exact Sx.
    + eapply Forall_impl; [|exact Ft]. intros c Hc. apply (digit_like_facts c Hc).
Qed.

(** The number "Art. 070A" followed by a superscript one and a two. *)
Lemma normalize_letter_footnote_witness :
  normalize_article_number (u "Art. " ++ u "070" ++ [65%N] ++ u "¹2") 2
  = Some (u "Art. " ++ str_of_N (int_of_digits (u "070")) ++ [ascii_lower 65],
          footnote_of (translate (u "¹2"))).
Proof.
  apply (normalize_letter_footnote (u "070") 65 (u "¹2") 2);
    [discriminate|reflexivity|vm_compute; split; auto with arith|repeat constructor
    |reflexivity|repeat constructor|vm_compute; discriminate].
Defined.

(** *** Roman numbers with a footnote *)
Lemma roman_tail_fwd tm g t :
  (0 < tm)%Z ->
  1 <= List.length g <= 8 -> Forall (fun c => is_roman_letter c = true) g ->
  t <> [] -> Forall (fun c => is_ascii_digit c = true) t ->
  (Z.of_nat (List.length t) <= tm)%Z ->
  exists m, re_match (roman_re (Rep 1 (Some (Z.to_N tm)) is_decimal)) (g ++ t) = Some m
    /\ group_or_empty (g ++ t) m 1 = g /\ group (g ++ t) m 3 = Some t.
Proof.
  intros Hp L Fg Nt Ft Lt.
  assert (Ft' : Forall (fun c => is_decimal c = true) t).
  { eapply Forall_impl; [|exact Ft]. intros c Hc. apply (ascii_digit_facts c Hc). }
  destruct t as [|y t']; [congruence|].
  assert (Ry : is_roman_letter y = false).
  { inversion Ft; subst. destruct (is_roman_letter y) eqn:E; [|reflexivity].
    destruct (roman_letter_facts y E) as (A & _).
    destruct (ascii_digit_facts y ltac:(assumption)) as (_ & _ & _ & _ & Q). congruence. }
  set (k := List.length g).
  assert (F : first_run (roman_re (Rep 1 (Some (Z.to_N tm)) is_decimal))
                (St 0 None (g ++ y :: t') [])
                (St (k + List.length (y :: t')) (last_or (y :: t') (last_or g None)) []
                    [(3, (k, k + List.length (y :: t'))); (1, (0, k))])).
  { unfold roman_re.
    eapply first_run_cat_cons; [apply first_run_caret|].
    eapply first_run_cat_cons.
    { pose proof (first_run_grp 1 (Rep 1 (Some 8%N) is_roman_letter)
                    (St 0 None (g ++ y :: t') [])
                    (St (0 + List.length g) (last_or g None) (y :: t') [])) as H.
      cbn [pos prev rest caps Nat.add] in H. apply H.
      apply (first_run_rep is_roman_letter 1 (Some 8%N) 0 None [] g (y :: t')).
      - exact Fg.
      - lia.
      - intros h [= <-]. lia.
      - right. left. exists y, t'. auto. }
    eapply first_run_cat_cons.
    { apply first_run_opt.
      pose proof (first_run_grp 3 (Rep 1 (Some (Z.to_N tm)) is_decimal)
                    (St k (last_or g None) (y :: t') [(1, (0, k))])
                    (St (k + List.length (y :: t')) (last_or (y :: t') (last_or g None)) []
                        [(1, (0, k))])) as H.
      cbn [pos prev rest caps] in H. apply H.
      rewrite <- (app_nil_r (y :: t')) at 1.
      apply (first_run_rep is_decimal 1 (Some (Z.to_N tm)) k (last_or g None)
               [(1, (0, k))] (y :: t') []).
      - exact Ft'.
      - simpl. lia.
      - intros h [= <-]. lia.
      - left. reflexivity. }
    eapply first_run_cat_cons; [apply first_run_dollar|apply first_run_cat_nil]. }
  apply first_run_match in F. eexists. split; [exact F|].
  unfold group_or_empty, group. cbn [m_caps caps cap_lookup Nat.eqb].
  split; [apply (slice_prefix g (y :: t'))|].
  f_equal. pose proof (slice_app_mid g (y :: t') []) as Q. rewrite app_nil_r in Q. exact Q.
Qed.

(** Property X25.  A roman numeral of the letters "IVXLCDM" in either case
    that [_is_roman] accepts, followed by a footnote of ASCII or
    superscript digits not longer than the tail bound: the number is the
    numeral in capitals, and the footnote is made of the ASCII digits of
    the tail, or is absent when the tail is empty. *)
Theorem normalize_roman_footnote (g t : list N) (tail_max : Z) :
  (1 <= tail_max)%Z -> (tail_max < MAXREPEAT)%Z ->
  Forall (fun c => is_roman_letter c = true) g -> _is_roman g = true ->
  Forall (fun c => digit_like c = true) t ->
  (Z.of_nat (List.length t) <= tail_max)%Z ->
  normalize_article_number (u "Art. " ++ g ++ t) tail_max
  = Some (u "Art. " ++ map ascii_upper g, footnote_of (translate t)).
Proof.
  intros Hp Hm Fg Rg Ft Lt.
  pose proof (tail_body_positive tail_max Hp Hm) as B.
  assert (L : 1 <= List.length g <= 8).
  { destruct (is_roman_inv g Rg) as (w & e & E & _ & Lw & [->| ->]).
    - rewrite app_nil_r in E. subst. exact Lw.
    - subst g. apply Forall_app in Fg. destruct Fg as [_ Fg].
      inversion Fg as [|? ? Q _]; subst. vm_compute in Q. discriminate. }
  assert (Ag : Forall (fun c => is_ascii_letter c = true) g).
  { eapply Forall_impl; [|exact Fg]. intros c Hc. apply (roman_letter_facts c Hc). }
  assert (Mg : translate g = g).
  { apply sup_free_id. eapply Forall_impl; [|exact Ag].
    intros c Hc. apply (ascii_letter_facts c Hc). }
  rewrite normalize_art_body.
  - unfold translate at 1. rewrite map_app. fold (translate g). fold (translate t).
    rewrite Mg. pose proof (translate_digits t Ft) as FT.
    assert (R : remove_char 32 (g ++ translate t) = g ++ translate t).
    { apply remove_char_id. apply Forall_app. split.
      - eapply Forall_impl; [|exact Ag]. intros c Hc. apply (ascii_letter_facts c Hc).
      - eapply Forall_impl; [|exact FT]. intros c Hc. apply (ascii_digit_facts c Hc). }
    unfold normalize_rest. rewrite R, B.
    rewrite arabic_no_match;
      [|reflexivity
       |destruct g as [|c g']; [simpl in L; lia|]; inversion Fg; subst;
        apply (roman_letter_facts c); assumption].
    change (u "Art. " ++ map ascii_upper g) with (u "Art." ++ u " " ++ map ascii_upper g).
    destruct (translate t) as [|y t'] eqn:Et.
    + rewrite app_nil_r.
      destruct (roman_fwd tail_max _ g B L Fg) as (m & Em & G1 & G3).
      rewrite Em. cbv beta iota zeta. rewrite G1, Rg. cbv beta iota zeta.
      rewrite G1, G3. reflexivity.
    + destruct (roman_tail_fwd tail_max g (y :: t') ltac:(lia) L Fg ltac:(discriminate) FT)
        as (m & Em & G1 & G3).
      { rewrite <- Et. unfold translate. rewrite length_map. exact Lt. }
      rewrite Em. cbv beta iota zeta. rewrite G1, Rg. cbv beta iota zeta.
      rewrite G1, G3. reflexivity.
  - destruct g; [simpl in L; lia|discriminate].
  - apply Forall_app. split.
    + eapply Forall_impl; [|exact Ag]. intros c Hc. apply (ascii_letter_facts c Hc).
    + eapply Forall_impl; [|exact Ft]. intros c Hc. apply (digit_like_facts c Hc).
Qed.

(** The number "Art. xiv" followed by a superscript two. *)
Lemma normalize_roman_footnote_witness :
  normalize_article_number (u "Art. " ++ u "xiv" ++ u "²") 2
  = Some (u "Art. " ++ map ascii_upper (u "xiv"), footnote_of (translate (u "²"))).
Proof.
  apply (normalize_roman_footnote (u "xiv") (u "²") 2);
    [discriminate|reflexivity|repeat constructor|vm_compute; reflexivity
    |repeat constructor|vm_compute; discriminate].
Defined.
